(** * The snake game's simulation core

    A shallow embedding of the tick-based engine of the game: the
    configuration and helpers of [utils.js], the [Snake] and [Food] entities,
    the [CollisionDetector] and the [Game] controller, followed by the
    properties established about them.

    Conventions of the embedding.
    - Grid coordinates, scores, point values and millisecond counts are
      JavaScript numbers that only ever hold integers here; they are [Z].
    - A method that mutates [this] becomes a function returning the new
      object, together with the method's return value when it has one.
    - [undefined.x] raises a [TypeError]; a function that can raise returns
      [option], [None] standing for the exception.
    - Numbers that need not be whole are binary64 values, held as the
      rationals they denote; an operation on them is the exact operation
      followed by rounding to the nearest binary64 value, ties to even
      (module [Number]).
    - [Math.random()] reads the next element of an explicit stream of such
      numbers, [Date.now()] is a parameter of the operation that reads it.
    - The DOM, the canvas renderer and the console are not part of the
      model. *)

From Stdlib Require Import ZArith List Bool String Lia QArith Qround Qpower Qabs Lqa Sorted.
From Stdlib Require Import SpecFloat.
Import ListNotations.
Open Scope Z_scope.

(** ** Configuration ([gameConfig]) *)

(** The fields of [gameConfig] the engine reads. [board_columns] and
    [board_rows] are the values of the getters [columns] and [rows]. *)
Record GameConfig : Type := mkGameConfig {
  board_columns : Z;
  board_rows : Z;
  snake_initialLength : nat;
  snake_speed : Z;
  food_color : string;
  food_size : Z;
  food_points : Z
}.

(** The configuration object of the source: a 600 by 600 pixel board with
    cells of 20 pixels. *)
Definition gameConfig : GameConfig :=
  {| board_columns := 600 / 20;
     board_rows := 600 / 20;
     snake_initialLength := 3;
     snake_speed := 150;
     food_color := "#f39c12";
     food_size := 18;
     food_points := 10 |}.

(** The four session states, [gameConfig.game.states]. *)
Inductive GameState : Type := MENU | PLAYING | PAUSED | GAME_OVER.

Definition GameState_eqb (a b : GameState) : bool :=
  match a, b with
  | MENU, MENU | PLAYING, PLAYING | PAUSED, PAUSED | GAME_OVER, GAME_OVER => true
  | _, _ => false
  end.

(** ** Directions ([DIRECTIONS]) *)

Inductive Direction : Type := UP | DOWN | LEFT | RIGHT.

Definition dir_x (d : Direction) : Z :=
  match d with UP => 0 | DOWN => 0 | LEFT => -1 | RIGHT => 1 end.

Definition dir_y (d : Direction) : Z :=
  match d with UP => -1 | DOWN => 1 | LEFT => 0 | RIGHT => 0 end.

(** [===] on the four direction objects. *)
Definition Direction_eqb (a b : Direction) : bool :=
  match a, b with
  | UP, UP | DOWN, DOWN | LEFT, LEFT | RIGHT, RIGHT => true
  | _, _ => false
  end.

(** ** Numbers *)

(** The arithmetic of JavaScript numbers, IEEE 754 binary64: 53
    significant bits, the least exponent of a unit in the last place
    [-1074]. A number is held as the rational it denotes. Results beyond
    the largest binary64 value do not occur in the operations modelled
    (products of a draw below [1] with an integer, and a chance of at most
    [0.3]), so overflow to [Infinity] is not part of the model. *)
Module Number.

Definition pow2 (s : Z) : Q := (2 ^ s)%Q.

(** The exponent of the binade of a positive rational: the [e] with
    [2^e <= q < 2^(e+1)]. The difference of the bit lengths of numerator
    and denominator is [e] or [e + 1]. *)
Definition ilog2 (q : Q) : Z :=
  let e := Z.log2 (Qnum q) - Z.log2 (Zpos (Qden q)) in
  if Qle_bool (pow2 e) q then e else e - 1.

(** The nearest integer, the even one of two that are equally near. *)
Definition roundHalfEven (q : Q) : Z :=
  let f := Qfloor q in
  match (q - inject_Z f ?= 1 # 2)%Q with
  | Lt => f
  | Gt => f + 1
  | Eq => if Z.even f then f else f + 1
  end.

(** The exponent of the unit in the last place at [q]. *)
Definition ulpExponent (q : Q) : Z := Z.max (ilog2 (Qabs q) - 52) (-1074).

(** The nearest binary64 value, ties to even. *)
Definition round (q : Q) : Q :=
  if Qeq_bool q 0 then 0%Q
  else (inject_Z (roundHalfEven (q / pow2 (ulpExponent q))) * pow2 (ulpExponent q))%Q.

(** Whether a rational is a binary64 value. *)
Definition isNumber (q : Q) : bool := Qeq_bool (round q) q.

(** [a + b], [a * b] and [a / b] on numbers. *)
Definition add (a b : Q) : Q := round (a + b)%Q.
Definition mul (a b : Q) : Q := round (a * b)%Q.
Definition div (a b : Q) : Q := round (a / b)%Q.

End Number.

(** ** The Standard Library's binary64 *)

(** The Standard Library specifies IEEE 754 arithmetic on [spec_float];
    binary64 is precision [53] with maximal exponent [1024]. These
    definitions serve to compare [Number] with it on the operations the
    program performs. *)
Module Binary64.

(** The rational a finite value denotes. *)
Definition toQ (f : spec_float) : option Q :=
  match f with
  | S754_zero _ => Some 0%Q
  | S754_finite s m e =>
      Some ((if s then - inject_Z (Zpos m) else inject_Z (Zpos m)) * Number.pow2 e)%Q
  | S754_infinity _ | S754_nan => None
  end.

Definition denotes (f : spec_float) (q : Q) : bool :=
  match toQ f with
  | Some v => Qeq_bool v q
  | None => false
  end.

Definition ofInt (z : Z) : spec_float := binary_normalize 53 1024 z 0 false.

(** A decimal literal [n / d], the nearest value to the quotient. *)
Definition literal (n d : Z) : spec_float := SFdiv 53 1024 (ofInt n) (ofInt d).

(** The draw [m / 2^53]. *)
Definition draw (m : positive) : spec_float :=
  binary_normalize 53 1024 (Zpos m) (-53) false.

(** [0.1 + (currentScore / 1000) * 0.05]. *)
Definition rawChance (currentScore : Z) : spec_float :=
  SFadd 53 1024 (literal 1 10)
        (SFmul 53 1024 (SFdiv 53 1024 (ofInt currentScore) (ofInt 1000))
               (literal 5 100)).

End Binary64.

(** ** Positions and the random source *)

Record Position : Type := mkPosition { x : Z; y : Z }.

(** The stream [Math.random()] reads from: element [0] is the next draw. *)
Definition Rng : Type := nat -> Q.

Definition Math_random (r : Rng) : Q * Rng := (r O, fun n => r (S n)).

(** ** [utils] *)

Module utils.

(** [Math.floor] is the identity on the integers it is given here. *)
Definition createPosition (px py : Z) : Position := {| x := px; y := py |}.

Definition positionsEqual (pos1 pos2 : Position) : bool :=
  (x pos1 =? x pos2) && (y pos1 =? y pos2).

Definition isValidPosition (cfg : GameConfig) (position : Position) : bool :=
  (x position >=? 0) && (x position <? board_columns cfg) &&
  (y position >=? 0) && (y position <? board_rows cfg).

(** [Math.floor(Math.random() * n)] for both coordinates, columns first. *)
Definition getRandomPosition (cfg : GameConfig) (r : Rng) : Position * Rng :=
  let (u, r1) := Math_random r in
  let (v, r2) := Math_random r1 in
  (createPosition (Qfloor (Number.mul u (inject_Z (board_columns cfg))))
                  (Qfloor (Number.mul v (inject_Z (board_rows cfg)))), r2).

(** The trailing [return direction] of the source is for objects that are
    none of the four directions; [Direction] has no such value. *)
Definition getOppositeDirection (direction : Direction) : Direction :=
  if Direction_eqb direction UP then DOWN
  else if Direction_eqb direction DOWN then UP
  else if Direction_eqb direction LEFT then RIGHT
  else if Direction_eqb direction RIGHT then LEFT
  else direction.

Definition areDirectionsOpposite (dir1 dir2 : Direction) : bool :=
  Direction_eqb (getOppositeDirection dir1) dir2.

(** [gameConfig.board.cellSize]. *)
Definition cellSize : Z := 20.

(** Pixel coordinates are numbers that need not be whole; they are
    rationals. *)
Record Pixel : Type := mkPixel { pixel_x : Q; pixel_y : Q }.

(** The cell size is a parameter here; the source reads
    [gameConfig.board.cellSize]. *)
Definition gridToPixel (size : Z) (gridPosition : Position) : Pixel :=
  {| pixel_x := inject_Z (x gridPosition * size);
     pixel_y := inject_Z (y gridPosition * size) |}.

Definition pixelToGrid (size : Z) (pixelPosition : Pixel) : Position :=
  createPosition (Qfloor (pixel_x pixelPosition / inject_Z size))
                 (Qfloor (pixel_y pixelPosition / inject_Z size)).

End utils.

(** ** The actor ([Snake]) *)

Module Snake.

Record t : Type := mk {
  body : list Position;
  direction : Direction;
  nextDirection : Direction;
  growing : bool;
  length : Z
}.

(** The [for] loop of [reset]: segment [i] is pushed at [startX - i]. *)
Fixpoint initialBody (startX startY : Z) (i : Z) (n : nat) : list Position :=
  match n with
  | O => []
  | S n' => utils.createPosition (startX - i) startY
            :: initialBody startX startY (i + 1) n'
  end.

(** [Math.floor(columns / 2)] is the integer quotient. *)
Definition reset (cfg : GameConfig) : t :=
  let startX := board_columns cfg / 2 in
  let startY := board_rows cfg / 2 in
  {| body := initialBody startX startY 0 (snake_initialLength cfg);
     direction := RIGHT;
     nextDirection := RIGHT;
     growing := false;
     length := Z.of_nat (snake_initialLength cfg) |}.

(** [this.body[0]], [undefined] on an empty body. *)
Definition getHead (s : t) : option Position := List.hd_error (body s).

Definition changeDirection (s : t) (newDirection : Direction) : bool * t :=
  if utils.areDirectionsOpposite newDirection (direction s) then (false, s)
  else (true, {| body := body s;
                 direction := direction s;
                 nextDirection := newDirection;
                 growing := growing s;
                 length := length s |}).

(** [move] reads [head.x], which raises when the body is empty. With a
    head, [unshift] prepends the new head and [pop] drops the last
    element unless the snake is growing. *)
Definition move (s : t) : option t :=
  let d := nextDirection s in
  match getHead s with
  | None => None
  | Some head =>
      let newHead := utils.createPosition (x head + dir_x d) (y head + dir_y d) in
      let unshifted := newHead :: body s in
      Some (if negb (growing s)
            then {| body := List.removelast unshifted;
                    direction := d;
                    nextDirection := nextDirection s;
                    growing := growing s;
                    length := length s |}
            else {| body := unshifted;
                    direction := d;
                    nextDirection := nextDirection s;
                    growing := false;
                    length := length s + 1 |})
  end.

Definition grow (s : t) : t :=
  {| body := body s;
     direction := direction s;
     nextDirection := nextDirection s;
     growing := true;
     length := length s |}.

Definition isPositionOccupied (s : t) (position : Position) : bool :=
  List.existsb (fun segment => utils.positionsEqual segment position) (body s).

(** [this.body.slice(1)]. *)
Definition getBodyWithoutHead (s : t) : list Position := List.tl (body s).

(** [this.body[this.body.length - 1]], [undefined] on an empty body. *)
Definition getTail (s : t) : option Position :=
  match body s with
  | [] => None
  | p :: rest => Some (List.last rest p)
  end.

(** The snake's own self-collision test: the loop over the indices from
    [1] does not run on a body of fewer than two segments, so nothing is
    read from a missing head. *)
Definition checkSelfCollision (s : t) : bool :=
  match body s with
  | [] => false
  | head :: rest => List.existsb (fun segment => utils.positionsEqual head segment) rest
  end.

Definition canMoveInDirection (s : t) (d : Direction) : bool :=
  negb (utils.areDirectionsOpposite d (direction s)).

(** The head one step ahead in the current direction; reading the head's
    coordinates raises on an empty body. *)
Definition getNextHeadPosition (s : t) : option Position :=
  match getHead s with
  | None => None
  | Some head =>
      Some (utils.createPosition (x head + dir_x (direction s))
                                 (y head + dir_y (direction s)))
  end.

End Snake.

(** ** The item ([Food]) *)

Module Food.

(** The values the [type] field takes: ['normal'] and the three entries of
    [specialTypes]. *)
Inductive FoodType : Type := normal | bonus | mega | speed.

Definition FoodType_eqb (a b : FoodType) : bool :=
  match a, b with
  | normal, normal | bonus, bonus | mega, mega | speed, speed => true
  | _, _ => false
  end.

(** The descriptor [{ type: 'speed', duration: 5000 }]. *)
Record SpecialEffect : Type := mkEffect {
  effect_type : string;
  duration : Z
}.

Record t : Type := mk {
  position : option Position;
  value : Z;
  active : bool;
  type : FoodType;
  color : string;
  size : Z;
  spawnTime : Z;
  specialFood : option SpecialEffect
}.

Section WithConfig.

Variable cfg : GameConfig.

Definition new : t :=
  {| position := None;
     value := food_points cfg;
     active := false;
     type := normal;
     color := food_color cfg;
     size := food_size cfg;
     spawnTime := 0;
     specialFood := None |}.

Definition resetToNormal (f : t) : t :=
  {| position := position f;
     value := food_points cfg;
     active := active f;
     type := normal;
     color := food_color cfg;
     size := food_size cfg;
     spawnTime := spawnTime f;
     specialFood := None |}.

(** The four statements both placement paths run on a free cell. *)
Definition placeAt (f : t) (p : Position) (now : Z) : t :=
  resetToNormal
    {| position := Some p;
       value := value f;
       active := true;
       type := type f;
       color := color f;
       size := size f;
       spawnTime := now;
       specialFood := specialFood f |}.

(** [for (let i = 0; i < n; i++)] visits these values in order. *)
Definition range (n : Z) : list Z := List.map Z.of_nat (List.seq 0 (Z.to_nat n)).

(** The cells in the order the nested loops of [findAvailablePosition]
    visit them: rows outermost, columns innermost. *)
Definition scanOrder : list Position :=
  List.flat_map
    (fun py => List.map (fun px => utils.createPosition px py)
                        (range (board_columns cfg)))
    (range (board_rows cfg)).

(** The first free cell in scan order ends the loops with [true]. *)
Definition findAvailablePosition (f : t) (snake : Snake.t) (now : Z) : bool * t :=
  match List.find (fun testPosition => negb (Snake.isPositionOccupied snake testPosition))
                  scanOrder with
  | Some testPosition => (true, placeAt f testPosition now)
  | None => (false, f)
  end.

Definition maxAttempts : nat := 100.

(** The [while] loop of [generateNewPosition] with [remaining] attempts
    left, followed by the fallback. *)
Fixpoint attemptLoop (remaining : nat) (f : t) (snake : Snake.t)
         (r : Rng) (now : Z) : (bool * t) * Rng :=
  match remaining with
  | O => (findAvailablePosition f snake now, r)
  | S remaining' =>
      let (newPosition, r') := utils.getRandomPosition cfg r in
      if negb (Snake.isPositionOccupied snake newPosition)
      then ((true, placeAt f newPosition now), r')
      else attemptLoop remaining' f snake r' now
  end.

Definition generateNewPosition (f : t) (snake : Snake.t) (r : Rng) (now : Z)
  : (bool * t) * Rng :=
  attemptLoop maxAttempts f snake r now.

(** [snakeHead] is [undefined] when the snake has no head; comparing
    against it raises. *)
Definition isEaten (f : t) (snakeHead : option Position) : option bool :=
  match active f, position f with
  | true, Some p =>
      match snakeHead with
      | Some h => Some (utils.positionsEqual p h)
      | None => None
      end
  | _, _ => Some false
  end.

Definition consume (f : t) : Z * t :=
  if negb (active f) then (0, f)
  else (value f,
        {| position := None;
           value := value f;
           active := false;
           type := type f;
           color := color f;
           size := size f;
           spawnTime := spawnTime f;
           specialFood := specialFood f |}).

(** [specialType] is [None] for [undefined], which the default
    parameter turns into ['bonus']. *)
Definition makeSpecial (f : t) (specialType : option FoodType) : t :=
  let specialType := match specialType with Some ty => ty | None => bonus end in
  let typed (v : Z) (c : string) (sz : Z) (e : option SpecialEffect) :=
    {| position := position f; value := v; active := active f;
       type := specialType; color := c; size := sz;
       spawnTime := spawnTime f; specialFood := e |} in
  match specialType with
  | bonus => typed (food_points cfg * 2) "#e74c3c"%string (food_size cfg + 2) (specialFood f)
  | mega => typed (food_points cfg * 5) "#9b59b6"%string (food_size cfg + 4) (specialFood f)
  | speed => typed (food_points cfg) "#3498db"%string (food_size cfg)
                   (Some {| effect_type := "speed"; duration := 5000 |})
  | normal => resetToNormal (typed (value f) (color f) (size f) (specialFood f))
  end.

(** [Math.min(0.1 + (currentScore / 1000) * 0.05, 0.3)]: the literals are
    the numbers nearest to the decimals, and the quotient, the product and
    the sum are each rounded. *)
Definition specialChance (currentScore : Z) : Q :=
  let c := Number.add (Number.round (1 # 10))
                      (Number.mul (Number.div (inject_Z currentScore) (inject_Z 1000))
                                  (Number.round (5 # 100))) in
  if Qle_bool c (Number.round (3 # 10)) then c else Number.round (3 # 10).

(** [specialTypes[i]]. *)
Definition specialTypes (i : Z) : option FoodType :=
  match i with
  | 0 => Some bonus
  | 1 => Some mega
  | 2 => Some speed
  | _ => None
  end.

Definition checkForSpecialFood (f : t) (currentScore : Z) (r : Rng)
  : (bool * t) * Rng :=
  if negb (FoodType_eqb (type f) normal) then ((false, f), r)
  else
    let (u, r1) := Math_random r in
    if negb (Qle_bool (specialChance currentScore) u)
    then
      let (v, r2) := Math_random r1 in
      let randomType := specialTypes (Qfloor (Number.mul v (inject_Z 3))) in
      ((true, makeSpecial f randomType), r2)
    else ((false, f), r1).

Definition getAge (f : t) (now : Z) : Z :=
  if negb (active f) || (spawnTime f =? 0) then 0 else now - spawnTime f.

Definition hasExpired (f : t) (now : Z) : bool :=
  if FoodType_eqb (type f) normal then false
  else getAge f now >? 10000.

Definition update (f : t) (currentScore : Z) (r : Rng) (now : Z) : t * Rng :=
  if negb (active f) then (f, r)
  else
    let f1 := if hasExpired f now then resetToNormal f else f in
    let '((_, f2), r') := checkForSpecialFood f1 currentScore r in
    (f2, r').

(** The testing hook that forces the food onto a cell of the board. *)
Definition setPosition (f : t) (p : Position) (now : Z) : t :=
  if utils.isValidPosition cfg p
  then {| position := Some p;
          value := value f;
          active := true;
          type := type f;
          color := color f;
          size := size f;
          spawnTime := now;
          specialFood := specialFood f |}
  else f.

End WithConfig.

End Food.

(** ** The collision resolver ([CollisionDetector]) *)

(** The debug log of the detector ([debugMode], [collisionHistory]) does not
    influence any result and is left out. *)
Module CollisionDetector.

Record BoundaryCollision : Type := mkBoundary {
  boundary_detected : bool;
  boundary_position : Position;
  side : option string
}.

Record SelfCollision : Type := mkSelf {
  self_detected : bool;
  self_position : option Position;
  segmentIndex : Z
}.

Record FoodCollision : Type := mkFood {
  food_detected : bool;
  food_head : option Position;
  foodPosition : option Position;
  foodType : Food.FoodType;
  points : Z;
  specialEffect : option Food.SpecialEffect
}.

Record Results : Type := mkResults {
  boundary : BoundaryCollision;
  self : SelfCollision;
  food : FoodCollision;
  hasAnyCollision : bool;
  gameEnding : bool
}.

Section WithConfig.

Variable cfg : GameConfig.

Definition checkBoundaryCollision (position : Position) : BoundaryCollision :=
  if x position <? 0 then mkBoundary true position (Some "left"%string)
  else if x position >=? board_columns cfg then mkBoundary true position (Some "right"%string)
  else if y position <? 0 then mkBoundary true position (Some "top"%string)
  else if y position >=? board_rows cfg then mkBoundary true position (Some "bottom"%string)
  else mkBoundary false position None.

(** The loop of [checkSelfCollision] over [body], entered at index [i];
    the result is the [segmentIndex] of the first match. *)
Fixpoint firstMatch (head : Position) (body : list Position) (i : Z) : option Z :=
  match body with
  | [] => None
  | segment :: rest =>
      if utils.positionsEqual head segment then Some (i + 1)
      else firstMatch head rest (i + 1)
  end.

(** Without a head the body without head is empty and the loop does not
    run, so nothing is read from [undefined]. *)
Definition checkSelfCollision (snake : Snake.t) : SelfCollision :=
  match Snake.getHead snake with
  | None => mkSelf false None (-1)
  | Some head =>
      match firstMatch head (Snake.getBodyWithoutHead snake) 0 with
      | Some k => mkSelf true (Some head) k
      | None => mkSelf false (Some head) (-1)
      end
  end.

(** [food.isActive() && food.isEaten(snake.getHead())]; [isEaten] can
    raise. *)
Definition checkFoodCollision (snake : Snake.t) (fd : Food.t) : option FoodCollision :=
  let undetected :=
    mkFood false (Snake.getHead snake) (Food.position fd) (Food.type fd) 0 None in
  if Food.active fd then
    match Food.isEaten fd (Snake.getHead snake) with
    | None => None
    | Some true =>
        Some (mkFood true (Snake.getHead snake) (Food.position fd) (Food.type fd)
                     (Food.value fd) (Food.specialFood fd))
    | Some false => Some undetected
    end
  else Some undetected.

(** The three checks run in the order of the object literal; the
    boundary check reads the head's coordinates first. *)
Definition checkAllCollisions (snake : Snake.t) (fd : Food.t) : option Results :=
  match Snake.getHead snake with
  | None => None
  | Some head =>
      let b := checkBoundaryCollision head in
      let s := checkSelfCollision snake in
      match checkFoodCollision snake fd with
      | None => None
      | Some f =>
          Some {| boundary := b;
                  self := s;
                  food := f;
                  hasAnyCollision :=
                    boundary_detected b || self_detected s || food_detected f;
                  gameEnding := boundary_detected b || self_detected s |}
      end
  end.

(** [checkSelfCollisionAtPosition]: against the whole body, head
    included, indices from [0]. *)
Definition checkSelfCollisionAtPosition (position : Position) (snake : Snake.t)
  : SelfCollision :=
  match firstMatch position (Snake.body snake) (-1) with
  | Some k => mkSelf true (Some position) k
  | None => mkSelf false (Some position) (-1)
  end.

(** Unlike [isEaten] this compares against [food.getPosition()] without a
    test for [null]: an active food without a position raises. *)
Definition checkFoodCollisionAtPosition (position : Position) (fd : Food.t)
  : option FoodCollision :=
  let undetected :=
    mkFood false (Some position) (Food.position fd) (Food.type fd) 0 None in
  if Food.active fd then
    match Food.position fd with
    | None => None
    | Some p =>
        if utils.positionsEqual position p
        then Some (mkFood true (Some position) (Food.position fd) (Food.type fd)
                          (Food.value fd) (Food.specialFood fd))
        else Some undetected
    end
  else Some undetected.

Record Predictions : Type := mkPredictions {
  predicted_boundary : BoundaryCollision;
  predicted_self : SelfCollision;
  predicted_food : FoodCollision;
  willEndGame : bool
}.

Definition predictCollision (snake : Snake.t) (fd : Food.t) : option Predictions :=
  match Snake.getNextHeadPosition snake with
  | None => None
  | Some nextHead =>
      let b := checkBoundaryCollision nextHead in
      let s := checkSelfCollisionAtPosition nextHead snake in
      match checkFoodCollisionAtPosition nextHead fd with
      | None => None
      | Some f =>
          Some {| predicted_boundary := b;
                  predicted_self := s;
                  predicted_food := f;
                  willEndGame := boundary_detected b || self_detected s |}
      end
  end.

Definition isPositionSafe (position : Position) (snake : Snake.t) : bool :=
  negb (boundary_detected (checkBoundaryCollision position))
  && negb (self_detected (checkSelfCollisionAtPosition position snake)).

Record SafePosition : Type := mkSafe {
  safe_position : Position;
  safe_direction : Direction;
  canMove : bool
}.

(** The loop over the four directions, in the order of the source; the
    head's coordinates are read in its first round. *)
Definition getSafePositions (snake : Snake.t) : option (list SafePosition) :=
  match Snake.getHead snake with
  | None => None
  | Some head =>
      Some (List.flat_map
              (fun direction =>
                 let testPosition :=
                   utils.createPosition (x head + dir_x direction)
                                        (y head + dir_y direction) in
                 if isPositionSafe testPosition snake
                 then [mkSafe testPosition direction
                              (Snake.canMoveInDirection snake direction)]
                 else [])
              [UP; DOWN; LEFT; RIGHT])
  end.

Record Distances : Type := mkDistances {
  to_left : Z;
  to_right : Z;
  to_top : Z;
  to_bottom : Z;
  nearest : Z
}.

Definition getDistanceToBoundaries (position : Position) : Distances :=
  {| to_left := x position;
     to_right := board_columns cfg - 1 - x position;
     to_top := y position;
     to_bottom := board_rows cfg - 1 - y position;
     nearest := Z.min (Z.min (Z.min (x position)
                                    (board_columns cfg - 1 - x position))
                             (y position))
                      (board_rows cfg - 1 - y position) |}.

(** A logged collision is one of the three collision records; its [type]
    field is fixed by the check that built it. *)
Inductive Collision : Type :=
| BoundaryOf (c : BoundaryCollision)
| SelfOf (c : SelfCollision)
| FoodOf (c : FoodCollision).

Definition collision_type (c : Collision) : string :=
  match c with
  | BoundaryOf _ => "boundary"
  | SelfOf _ => "self"
  | FoodOf _ => "food"
  end.

(** A log entry: the timestamp and the collision's fields. *)
Definition LogEntry : Type := (Z * Collision)%type.

(** [logCollision] on the history: [push], then [shift] when more than 50
    entries are held. *)
Definition logCollision (collisionHistory : list LogEntry) (collision : Collision)
           (timestamp : Z) : list LogEntry :=
  let pushed := collisionHistory ++ [(timestamp, collision)] in
  if (50 <? List.length pushed)%nat then List.tl pushed else pushed.

Record Statistics : Type := mkStatistics {
  total : nat;
  byType_boundary : nat;
  byType_self : nat;
  byType_food : nat;
  recent : list LogEntry
}.

(** The counter of the type [ty] after the loop of [getStatistics]. *)
Definition countType (ty : string) (collisionHistory : list LogEntry) : nat :=
  List.length (List.filter (fun e => String.eqb (collision_type (snd e)) ty)
                           collisionHistory).

(** [slice(-10)]: the last ten entries, all of them when there are
    fewer. *)
Definition getStatistics (collisionHistory : list LogEntry) : Statistics :=
  {| total := List.length collisionHistory;
     byType_boundary := countType "boundary" collisionHistory;
     byType_self := countType "self" collisionHistory;
     byType_food := countType "food" collisionHistory;
     recent := List.skipn (List.length collisionHistory - 10) collisionHistory |}.

End WithConfig.

End CollisionDetector.

(** ** The controller ([Game]) *)

(** Besides the fields of the class the record carries the two pieces of the
    host the controller writes to: [timers], the callbacks registered with
    [setTimeout] by [handleSpecialEffect] and not yet run, each as its due
    time and the [originalSpeed] its closure captured, oldest first; and
    [storage], the high score [storage.getHighScore()] returns.
    [gameLoopId] is [true] when the field holds a frame request. *)
Module Game.

Record t : Type := mk {
  snake : Snake.t;
  food : Food.t;
  score : Z;
  highScore : Z;
  state : GameState;
  lastUpdateTime : Z;
  gameLoopId : bool;
  speed : Z;
  paused : bool;
  gameStartTime : Z;
  gameEndTime : Z;
  timers : list (Z * Z);
  storage : Z
}.

Definition with_snake (g : t) (s : Snake.t) : t :=
  mk s (food g) (score g) (highScore g) (state g) (lastUpdateTime g)
     (gameLoopId g) (speed g) (paused g) (gameStartTime g) (gameEndTime g)
     (timers g) (storage g).

Definition with_food (g : t) (f : Food.t) : t :=
  mk (snake g) f (score g) (highScore g) (state g) (lastUpdateTime g)
     (gameLoopId g) (speed g) (paused g) (gameStartTime g) (gameEndTime g)
     (timers g) (storage g).

Definition with_score (g : t) (n : Z) : t :=
  mk (snake g) (food g) n (highScore g) (state g) (lastUpdateTime g)
     (gameLoopId g) (speed g) (paused g) (gameStartTime g) (gameEndTime g)
     (timers g) (storage g).

Definition with_speed (g : t) (n : Z) : t :=
  mk (snake g) (food g) (score g) (highScore g) (state g) (lastUpdateTime g)
     (gameLoopId g) n (paused g) (gameStartTime g) (gameEndTime g)
     (timers g) (storage g).

Definition with_timers (g : t) (l : list (Z * Z)) : t :=
  mk (snake g) (food g) (score g) (highScore g) (state g) (lastUpdateTime g)
     (gameLoopId g) (speed g) (paused g) (gameStartTime g) (gameEndTime g)
     l (storage g).

Definition with_lastUpdateTime (g : t) (n : Z) : t :=
  mk (snake g) (food g) (score g) (highScore g) (state g) n
     (gameLoopId g) (speed g) (paused g) (gameStartTime g) (gameEndTime g)
     (timers g) (storage g).

Definition with_gameLoopId (g : t) (b : bool) : t :=
  mk (snake g) (food g) (score g) (highScore g) (state g) (lastUpdateTime g)
     b (speed g) (paused g) (gameStartTime g) (gameEndTime g)
     (timers g) (storage g).

Section WithConfig.

Variable cfg : GameConfig.

(** The constructor followed by [initialize] and [showMenu]. *)
Definition new (stored : Z) : t :=
  {| snake := Snake.reset cfg;
     food := Food.new cfg;
     score := 0;
     highScore := stored;
     state := MENU;
     lastUpdateTime := 0;
     gameLoopId := false;
     speed := snake_speed cfg;
     paused := false;
     gameStartTime := 0;
     gameEndTime := 0;
     timers := [];
     storage := stored |}.

Definition stopGameLoop (g : t) : t :=
  if gameLoopId g then with_gameLoopId g false else g.

Definition resetGame (g : t) : t :=
  {| snake := Snake.reset cfg;
     food := Food.mk (Food.position (food g)) (Food.value (food g)) false
                     (Food.type (food g)) (Food.color (food g))
                     (Food.size (food g)) (Food.spawnTime (food g))
                     (Food.specialFood (food g));
     score := 0;
     highScore := highScore g;
     state := state g;
     lastUpdateTime := 0;
     gameLoopId := gameLoopId g;
     speed := snake_speed cfg;
     paused := false;
     gameStartTime := gameStartTime g;
     gameEndTime := gameEndTime g;
     timers := timers g;
     storage := storage g |}.

(** [Math.floor(score / 100)] is the floored quotient. *)
Definition updateGameSpeed (g : t) : t :=
  let speedReduction := (score g / 100) * 5 in
  with_speed g (Z.max 75 (snake_speed cfg - speedReduction)).

(** The [switch] has the single case ['speed']: the interval is lowered
    and a callback restoring [originalSpeed] is registered for
    [effect.duration] milliseconds later. *)
Definition handleSpecialEffect (g : t) (effect : Food.SpecialEffect) (now : Z) : t :=
  if String.eqb (Food.effect_type effect) "speed" then
    let originalSpeed := speed g in
    with_timers (with_speed g (Z.max 50 (speed g - 50)))
                (timers g ++ [(now + Food.duration effect, originalSpeed)])
  else g.

(** The body of a registered callback: [this.speed = originalSpeed]. *)
Definition timerCallback (g : t) (originalSpeed : Z) : t :=
  with_speed g originalSpeed.

(** The host runs the oldest registered callback. *)
Definition runTimer (g : t) : t :=
  match timers g with
  | [] => g
  | (_, originalSpeed) :: rest => timerCallback (with_timers g rest) originalSpeed
  end.

Definition handleFoodCollision (g : t) (foodCollision : CollisionDetector.FoodCollision)
           (r : Rng) (now : Z) : t * Rng :=
  let (points, f1) := Food.consume (food g) in
  let g1 := with_score (with_food g f1) (score g + points) in
  let g2 := with_snake g1 (Snake.grow (snake g1)) in
  let '((_, f2), r') := Food.generateNewPosition cfg (food g2) (snake g2) r now in
  let g3 := with_food g2 f2 in
  let g4 := match CollisionDetector.specialEffect foodCollision with
            | Some effect => handleSpecialEffect g3 effect now
            | None => g3
            end in
  (g4, r').

(** [storage.setHighScore] stores the score when it beats the stored
    one; the controller then copies it to [highScore]. *)
Definition gameOver (g : t) (now : Z) : t :=
  let g1 := stopGameLoop g in
  let isNewHighScore := score g >? storage g in
  {| snake := snake g1;
     food := food g1;
     score := score g1;
     highScore := if isNewHighScore then score g else highScore g1;
     state := GAME_OVER;
     lastUpdateTime := lastUpdateTime g1;
     gameLoopId := gameLoopId g1;
     speed := speed g1;
     paused := paused g1;
     gameStartTime := gameStartTime g1;
     gameEndTime := now;
     timers := timers g1;
     storage := if isNewHighScore then score g else storage g1 |}.

(** One tick. *)
Definition update (g : t) (r : Rng) (now : Z) : option (t * Rng) :=
  if negb (GameState_eqb (state g) PLAYING) || paused g then Some (g, r)
  else
    match Snake.move (snake g) with
    | None => None
    | Some moved =>
        let g1 := with_snake g moved in
        match CollisionDetector.checkAllCollisions cfg (snake g1) (food g1) with
        | None => None
        | Some collisions =>
            let (g2, r2) :=
              if CollisionDetector.food_detected (CollisionDetector.food collisions)
              then handleFoodCollision g1 (CollisionDetector.food collisions) r now
              else (g1, r) in
            if CollisionDetector.gameEnding collisions
            then Some (gameOver g2 now, r2)
            else
              let (f3, r3) := Food.update cfg (food g2) (score g2) r2 now in
              Some (updateGameSpeed (with_food g2 f3), r3)
        end
    end.

(** One frame: a tick when the interval has elapsed, then the next
    frame is requested while the game is running. *)
Definition gameLoop (g : t) (r : Rng) (currentTime : Z) : option (t * Rng) :=
  let ticked :=
    if currentTime - lastUpdateTime g >=? speed g
    then match update g r currentTime with
         | None => None
         | Some (g1, r1) => Some (with_lastUpdateTime g1 currentTime, r1)
         end
    else Some (g, r) in
  match ticked with
  | None => None
  | Some (g2, r2) =>
      Some (if GameState_eqb (state g2) PLAYING && negb (paused g2)
            then with_gameLoopId g2 true else g2, r2)
  end.

Definition startGameLoop (g : t) (r : Rng) (now : Z) : option (t * Rng) :=
  let g1 := if gameLoopId g then stopGameLoop g else g in
  gameLoop (with_lastUpdateTime g1 now) r now.

Definition with_state (g : t) (st : GameState) (p : bool) : t :=
  mk (snake g) (food g) (score g) (highScore g) st (lastUpdateTime g)
     (gameLoopId g) (speed g) p (gameStartTime g) (gameEndTime g)
     (timers g) (storage g).

(** The assignments of [start] up to the start of the loop. *)
Definition entered (g : t) (now : Z) : t :=
  let g1 := resetGame g in
  mk (snake g1) (food g1) (score g1) (highScore g1) PLAYING
     (lastUpdateTime g1) (gameLoopId g1) (speed g1) (paused g1)
     now (gameEndTime g1) (timers g1) (storage g1).

Definition start (g : t) (r : Rng) (now : Z) : option (t * Rng) :=
  let g2 := entered g now in
  match startGameLoop g2 r now with
  | None => None
  | Some (g3, r3) =>
      let '((_, f), r4) := Food.generateNewPosition cfg (food g3) (snake g3) r3 now in
      Some (with_food g3 f, r4)
  end.

Definition pause (g : t) : t :=
  if negb (GameState_eqb (state g) PLAYING) then g
  else stopGameLoop (with_state g PAUSED true).

Definition resume (g : t) (r : Rng) (now : Z) : option (t * Rng) :=
  if negb (GameState_eqb (state g) PAUSED) then Some (g, r)
  else startGameLoop (with_state g PLAYING false) r now.

Definition togglePause (g : t) (r : Rng) (now : Z) : option (t * Rng) :=
  if GameState_eqb (state g) PLAYING then Some (pause g, r)
  else if GameState_eqb (state g) PAUSED then resume g r now
  else Some (g, r).

Definition restart (g : t) (r : Rng) (now : Z) : option (t * Rng) :=
  start (stopGameLoop g) r now.

Definition changeDirection (g : t) (d : Direction) : t :=
  if GameState_eqb (state g) PLAYING && negb (paused g)
  then with_snake g (snd (Snake.changeDirection (snake g) d))
  else g.

Definition isPlaying (g : t) : bool :=
  GameState_eqb (state g) PLAYING && negb (paused g).

End WithConfig.

End Game.

(** ** The input queue ([InputHandler]) *)

Module InputHandler.

(** A queued input: its type (['keyboard'] or ['touch']), its value (a key
    code or a direction) and the time it was queued. *)
Record Input : Type := mkInput {
  input_type : string;
  input_value : string + Direction;
  timestamp : Z
}.

(** [queueInput] on the queue: [push], then [shift] when more than 10
    inputs are held. *)
Definition queueInput (inputQueue : list Input) (type : string)
           (value : string + Direction) (now : Z) : list Input :=
  let pushed := inputQueue ++ [mkInput type value now] in
  if (10 <? List.length pushed)%nat then List.tl pushed else pushed.

(** [onWindowBlur]: the game is paused when it is playing. *)
Definition onWindowBlur (g : Game.t) : Game.t :=
  if Game.isPlaying g then Game.pause g else g.

End InputHandler.

(** ** Sessions *)

(** What the host can do to a controller: the entry points the input
    handler calls, a frame callback, and a [setTimeout] callback. *)
Inductive Event : Type :=
| EStart (r : Rng) (now : Z)
| EPause
| EResume (r : Rng) (now : Z)
| ETogglePause (r : Rng) (now : Z)
| ERestart (r : Rng) (now : Z)
| EChangeDirection (d : Direction)
| EFrame (r : Rng) (now : Z)
| ETimer.

(** [Math.random()] returns a number in the unit interval, [1] excluded. *)
Definition Rng_ok (r : Rng) : Prop :=
  forall n, Number.isNumber (r n) = true /\ (0 <= r n)%Q /\ (r n < 1)%Q.

Definition Event_ok (e : Event) : Prop :=
  match e with
  | EStart r _ | EResume r _ | ETogglePause r _ | ERestart r _ | EFrame r _ => Rng_ok r
  | EPause | EChangeDirection _ | ETimer => True
  end.

Section Sessions.

Variable cfg : GameConfig.

(** A frame callback runs only while a frame request is held. *)
Definition step (g : Game.t) (e : Event) : option Game.t :=
  match e with
  | EStart r now => option_map fst (Game.start cfg g r now)
  | EPause => Some (Game.pause g)
  | EResume r now => option_map fst (Game.resume cfg g r now)
  | ETogglePause r now => option_map fst (Game.togglePause cfg g r now)
  | ERestart r now => option_map fst (Game.restart cfg g r now)
  | EChangeDirection d => Some (Game.changeDirection g d)
  | EFrame r now =>
      if Game.gameLoopId g then option_map fst (Game.gameLoop cfg g r now)
      else Some g
  | ETimer => Some (Game.runTimer g)
  end.

Fixpoint run (g : Game.t) (es : list Event) : option Game.t :=
  match es with
  | [] => Some g
  | e :: es' =>
      match step g e with
      | Some g' => run g' es'
      | None => None
      end
  end.

(** The states a session passes through, from a freshly constructed
    controller. *)
Inductive reachable : Game.t -> Prop :=
| reachable_new : forall stored, reachable (Game.new cfg stored)
| reachable_step : forall g e g',
    reachable g -> Event_ok e -> step g e = Some g' -> reachable g'.

End Sessions.

(** The snake [s] with [d] queued as its next direction. *)
Definition queued (s : Snake.t) (d : Direction) : Snake.t :=
  {| Snake.body := Snake.body s;
     Snake.direction := Snake.direction s;
     Snake.nextDirection := d;
     Snake.growing := Snake.growing s;
     Snake.length := Snake.length s |}.

(** A food reset to the normal variant with the base values of the
    configuration. *)
Definition isBaseNormal (cfg : GameConfig) (f : Food.t) : Prop :=
  Food.type f = Food.normal /\
  Food.value f = food_points cfg /\
  Food.color f = food_color cfg /\
  Food.size f = food_size cfg /\
  Food.specialFood f = None.



(** Row-major order on cells: by row, then by column. *)
Definition rowMajorBefore (p q : Position) : Prop :=
  y p < y q \/ (y p = y q /\ x p < x q).

(** What a call of a placement function can return: failure with the food
    untouched, or success with the food placed on a cell off the snake. *)
Inductive placed (cfg : GameConfig) (f : Food.t) (snake : Snake.t) (now : Z)
  : bool * Food.t -> Prop :=
| placed_fail : placed cfg f snake now (false, f)
| placed_ok : forall p,
    Snake.isPositionOccupied snake p = false ->
    placed cfg f snake now (true, Food.placeAt cfg f p now).

(** The cell the random attempt number [i] (from [0]) of a placement
    draws: attempt [i] reads the draws [2 * i] and [2 * i + 1]. *)
Definition candidate (cfg : GameConfig) (r : Rng) (i : nat) : Position :=
  utils.createPosition
    (Qfloor (Number.mul (r (2 * i)%nat) (inject_Z (board_columns cfg))))
    (Qfloor (Number.mul (r (2 * i + 1)%nat) (inject_Z (board_rows cfg)))).

(** [r'] is what is left of the stream [r] after some draws. *)
Definition Rng_suffix (r r' : Rng) : Prop :=
  exists k, forall n, r' n = r (k + n)%nat.

(** A number of the unit interval, [1] excluded. *)
Definition inUnit (q : Q) : Prop :=
  Number.isNumber q = true /\ (0 <= q)%Q /\ (q < 1)%Q.

(** An active food lies on a cell of the board the snake does not
    occupy. *)
Definition foodClear (cfg : GameConfig) (g : Game.t) : Prop :=
  Food.active (Game.food g) = true ->
  exists p,
    Food.position (Game.food g) = Some p /\
    utils.isValidPosition cfg p = true /\
    Snake.isPositionOccupied (Game.snake g) p = false.

(** [grow] called [n] times in a row. *)
Fixpoint growTimes (n : nat) (s : Snake.t) : Snake.t :=
  match n with
  | O => s
  | S n' => Snake.grow (growTimes n' s)
  end.

(** The interval [updateGameSpeed] derives from a score. *)
Definition scoreSpeed (cfg : GameConfig) (sc : Z) : Z :=
  Z.max 75 (snake_speed cfg - (sc / 100) * 5).

(** Two cells side by side: one step apart along one axis. *)
Definition adjacent (p q : Position) : Prop :=
  Z.abs (x p - x q) + Z.abs (y p - y q) = 1.

(** Every position of the list lies next to the one behind it. *)
Fixpoint chain (l : list Position) : Prop :=
  match l with
  | [] => True
  | p :: rest =>
      match rest with
      | [] => True
      | q :: _ => adjacent p q /\ chain rest
      end
  end.

(** The table of the variants: the value and the effect that go with each
    type, as [resetToNormal] and [makeSpecial] write them. *)
Definition foodTable (cfg : GameConfig) (f : Food.t) : Prop :=
  match Food.type f with
  | Food.normal => Food.value f = food_points cfg /\ Food.specialFood f = None
  | Food.bonus => Food.value f = food_points cfg * 2 /\ Food.specialFood f = None
  | Food.mega => Food.value f = food_points cfg * 5 /\ Food.specialFood f = None
  | Food.speed => Food.value f = food_points cfg /\
                  Food.specialFood f = Some (Food.mkEffect "speed" 5000)
  end.

(** ** Sample data *)

Module Sample.

(** A stream that starts with the given draws and continues with [d]. *)
Definition draws (l : list Q) (d : Q) : Rng := fun n => List.nth n l d.

Definition half : Rng := draws [] (1 # 2).

Definition at_ (px py : Z) : Position := utils.createPosition px py.

(** A snake of five segments heading right along row 15. *)
Definition straight : Snake.t :=
  {| Snake.body := [at_ 18 15; at_ 17 15; at_ 16 15; at_ 15 15; at_ 14 15];
     Snake.direction := RIGHT;
     Snake.nextDirection := RIGHT;
     Snake.growing := false;
     Snake.length := 5 |}.

(** A snake of five segments curled so that turning left from its upward
    course puts the head on its fourth segment. *)
Definition curled : Snake.t :=
  {| Snake.body := [at_ 5 5; at_ 5 6; at_ 4 6; at_ 4 5; at_ 4 4];
     Snake.direction := UP;
     Snake.nextDirection := LEFT;
     Snake.growing := false;
     Snake.length := 5 |}.

(** The food forced onto cell (4,5) with the hook [setPosition]. *)
Definition forcedFood : Food.t :=
  Food.setPosition gameConfig (Food.new gameConfig) (at_ 4 5) 1000.

(** A playing session with the curled snake and the forced food. *)
Definition curledGame : Game.t :=
  {| Game.snake := curled;
     Game.food := forcedFood;
     Game.score := 40;
     Game.highScore := 0;
     Game.state := PLAYING;
     Game.lastUpdateTime := 1000;
     Game.gameLoopId := true;
     Game.speed := 150;
     Game.paused := false;
     Game.gameStartTime := 0;
     Game.gameEndTime := 0;
     Game.timers := [];
     Game.storage := 0 |}.

(** A snake of six segments heading up whose next cell is the cell its
    tail is on. *)
Definition chasing : Snake.t :=
  {| Snake.body := [at_ 0 1; at_ 0 2; at_ 1 2; at_ 1 1; at_ 1 0; at_ 0 0];
     Snake.direction := UP;
     Snake.nextDirection := UP;
     Snake.growing := false;
     Snake.length := 6 |}.

(** A board of two by two cells. *)
Definition small : GameConfig :=
  {| board_columns := 2;
     board_rows := 2;
     snake_initialLength := 1;
     snake_speed := 150;
     food_color := "#f39c12";
     food_size := 18;
     food_points := 10 |}.

(** A snake that fills the small board. *)
Definition filling : Snake.t :=
  {| Snake.body := [at_ 0 0; at_ 1 0; at_ 1 1; at_ 0 1];
     Snake.direction := LEFT;
     Snake.nextDirection := LEFT;
     Snake.growing := false;
     Snake.length := 4 |}.

(** A snake that leaves cell (0,1) of the small board free. *)
Definition almostFilling : Snake.t :=
  {| Snake.body := [at_ 0 0; at_ 1 0; at_ 1 1];
     Snake.direction := LEFT;
     Snake.nextDirection := LEFT;
     Snake.growing := false;
     Snake.length := 3 |}.

(** A snake on every cell of the board of the source. *)
Definition covering : Snake.t :=
  {| Snake.body := Food.scanOrder gameConfig;
     Snake.direction := LEFT;
     Snake.nextDirection := LEFT;
     Snake.growing := false;
     Snake.length := 900 |}.

(** Every draw is [0]: every random attempt draws cell (0,0). *)
Definition zeros : Rng := draws [] (0 # 1).

(** A session played from the menu: two items are eaten along row 15,
    then the snake turns down, left and up. *)
Definition opening : list Event :=
  [ EStart (draws [35 # 64; 1 # 2] (1 # 2)) 0;
    EFrame (draws [37 # 64; 1 # 2] (1 # 2)) 150;
    EFrame (draws [0 # 1; 0 # 1] (1 # 2)) 300;
    EFrame half 450;
    EChangeDirection DOWN;
    EFrame half 600;
    EChangeDirection LEFT;
    EFrame half 750;
    EChangeDirection UP ].

(** The state that session ends in, the snake about to bite itself. *)
Definition coiled : Game.t :=
  match run gameConfig (Game.new gameConfig 0) opening with
  | Some g => g
  | None => Game.new gameConfig 0
  end.

(** The same session with the frame in which the snake bites itself,
    and the state it ends in. *)
Definition biting : list Event := opening ++ [EFrame half 900].

Definition bitten : Game.t :=
  match run gameConfig (Game.new gameConfig 0) biting with
  | Some g => g
  | None => Game.new gameConfig 0
  end.

(** The state after the first event of that session: the game has just
    started and the food lies on the cell ahead of the snake. *)
Definition started : Game.t :=
  match run gameConfig (Game.new gameConfig 0)
            [EStart (draws [35 # 64; 1 # 2] (1 # 2)) 0] with
  | Some g => g
  | None => Game.new gameConfig 0
  end.

(** The board of the source with a snake of no segment. *)
Definition headless : GameConfig :=
  {| board_columns := 30;
     board_rows := 30;
     snake_initialLength := 0;
     snake_speed := 150;
     food_color := "#f39c12";
     food_size := 18;
     food_points := 10 |}.

(** A session in which five items are eaten along row 15, the second
    upgraded to mega, the third to bonus and the fifth to speed; the
    player then pauses, with the speed effect's callback still to run. *)
Definition speedSession : list Event :=
  [ EStart (draws [35 # 64; 1 # 2] (1 # 2)) 0;
    EFrame (draws [37 # 64; 1 # 2; 0 # 1; 1 # 2] (1 # 2)) 150;
    EFrame (draws [39 # 64; 1 # 2; 0 # 1; 0 # 1] (1 # 2)) 300;
    EFrame (draws [41 # 64; 1 # 2] (1 # 2)) 450;
    EFrame (draws [43 # 64; 1 # 2; 0 # 1; 7 # 8] (1 # 2)) 600;
    EFrame (draws [0 # 1; 0 # 1] (1 # 2)) 750;
    EPause ].

(** The state that session ends in. *)
Definition boosted : Game.t :=
  match run gameConfig (Game.new gameConfig 0) speedSession with
  | Some g => g
  | None => Game.new gameConfig 0
  end.



End Sample.

Arguments Number.pow2 : simpl never.
Arguments Number.ilog2 : simpl never.
Arguments Number.roundHalfEven : simpl never.
Arguments Number.round : simpl never.
Arguments Number.isNumber : simpl never.
Arguments Food.specialChance : simpl never.
Arguments Food.generateNewPosition : simpl never.
Arguments Food.attemptLoop : simpl never.
Arguments Food.findAvailablePosition : simpl never.

(** * Properties *)

(** ** Numbers *)

Section NumberFacts.

Local Open Scope Q_scope.

Lemma pow2_pos : forall s, 0 < Number.pow2 s.
Proof. intros s; apply Qpower_0_lt; reflexivity. Qed.

Lemma pow2_add : forall a b, Number.pow2 (a + b) == Number.pow2 a * Number.pow2 b.
Proof. intros a b; apply Qpower_plus; discriminate. Qed.

Lemma pow2_le : forall a b, (a <= b)%Z -> Number.pow2 a <= Number.pow2 b.
Proof. intros a b H; apply Qpower_le_compat_l; [exact H | discriminate]. Qed.

Lemma pow2_lt_inv : forall a b, Number.pow2 a < Number.pow2 b -> (a < b)%Z.
Proof. intros a b H; apply (Qpower_lt_compat_l_inv 2); [exact H | reflexivity]. Qed.

Lemma pow2_Z : forall k, (0 <= k)%Z -> Number.pow2 k == inject_Z (2 ^ k).
Proof. intros k Hk; symmetry; apply (Zpower_Qpower 2 k Hk). Qed.

Lemma ilog2_spec :
  forall q, 0 < q ->
    Number.pow2 (Number.ilog2 q) <= q /\ q < Number.pow2 (Number.ilog2 q + 1).
Proof.
  intros [a b] Hq.
  assert (Ha : (0 < a)%Z) by (unfold Qlt in Hq; simpl in Hq; lia).
  unfold Number.ilog2; cbn [Qnum Qden].
  destruct (Z.log2_spec a Ha) as [A1 A2].
  destruct (Z.log2_spec (Zpos b) eq_refl) as [B1 B2].
  pose proof (Z.log2_nonneg a) as Hla.
  pose proof (Z.log2_nonneg (Zpos b)) as Hlb.
  set (la := Z.log2 a) in *; set (lb := Z.log2 (Zpos b)) in *.
  rewrite Zle_Qle in A1, B1; rewrite Zlt_Qlt in A2, B2.
  rewrite <- pow2_Z in A1, A2, B1, B2 by lia.
  replace (Z.succ la) with (la + 1)%Z in A2 by lia.
  replace (Z.succ lb) with (lb + 1)%Z in B2 by lia.
  assert (Em : Number.pow2 (la - lb - 1) * Number.pow2 (lb + 1) == Number.pow2 la)
    by (rewrite <- pow2_add; replace (la - lb - 1 + (lb + 1))%Z with la by lia; reflexivity).
  assert (Ep : Number.pow2 (la - lb + 1) * Number.pow2 lb == Number.pow2 (la + 1))
    by (rewrite <- pow2_add; replace (la - lb + 1 + lb)%Z with (la + 1)%Z by lia; reflexivity).
  pose proof (pow2_pos (la - lb - 1)) as Pm.
  pose proof (pow2_pos (la - lb + 1)) as Pp.
  pose proof (pow2_pos lb) as Pb.
  assert (HB : 0 < inject_Z (Zpos b)) by reflexivity.
  assert (C1 : Number.pow2 (la - lb - 1) <= a # b).
  { rewrite (Qmake_Qdiv a b); apply Qle_shift_div_l; [exact HB|].
    apply Qle_trans with (Number.pow2 (la - lb - 1) * Number.pow2 (lb + 1));
      [|rewrite Em; exact A1].
    apply Qmult_le_l; [exact Pm | apply Qlt_le_weak; exact B2]. }
  assert (C2 : a # b < Number.pow2 (la - lb + 1)).
  { rewrite (Qmake_Qdiv a b); apply Qlt_shift_div_r; [exact HB|].
    apply Qlt_le_trans with (Number.pow2 (la - lb + 1) * Number.pow2 lb);
      [rewrite Ep; exact A2|].
    apply Qmult_le_l; [exact Pp | exact B1]. }
  destruct (Qle_bool (Number.pow2 (la - lb)) (a # b)) eqn:E.
  - apply Qle_bool_iff in E; split; assumption.
  - split.
    + exact C1.
    + replace (la - lb - 1 + 1)%Z with (la - lb)%Z by lia.
      apply Qnot_le_lt; intros H; apply Qle_bool_iff in H; congruence.
Qed.


Lemma ilog2_le :
  forall p q, 0 < p -> p <= q -> (Number.ilog2 p <= Number.ilog2 q)%Z.
Proof.
  intros p q Hp Hpq.
  destruct (ilog2_spec p Hp) as [P1 _].
  destruct (ilog2_spec q (Qlt_le_trans _ _ _ Hp Hpq)) as [_ Q2].
  assert (H : Number.pow2 (Number.ilog2 p) < Number.pow2 (Number.ilog2 q + 1)) by lra.
  apply pow2_lt_inv in H; lia.
Qed.

(** *** Rounding to the nearest integer *)

Lemma roundHalfEven_cases :
  forall q,
    (Number.roundHalfEven q = Qfloor q /\ q - inject_Z (Qfloor q) <= 1 # 2) \/
    (Number.roundHalfEven q = (Qfloor q + 1)%Z /\ 1 # 2 <= q - inject_Z (Qfloor q)).
Proof.
  intros q; unfold Number.roundHalfEven.
  destruct (Qcompare_spec (q - inject_Z (Qfloor q)) (1 # 2)) as [E | E | E].
  - destruct (Z.even (Qfloor q)); [left | right]; split; try reflexivity; lra.
  - left; split; [reflexivity | lra].
  - right; split; [reflexivity | lra].
Qed.

Lemma roundHalfEven_upper : forall q, inject_Z (Number.roundHalfEven q) <= q + (1 # 2).
Proof.
  intros q; pose proof (Qfloor_le q) as Hf.
  destruct (roundHalfEven_cases q) as [[-> H] | [-> H]].
  - lra.
  - rewrite inject_Z_plus; change (inject_Z 1) with 1; lra.
Qed.

Lemma roundHalfEven_le_int :
  forall q n, q <= inject_Z n -> (Number.roundHalfEven q <= n)%Z.
Proof.
  intros q n Hq; pose proof (Qfloor_le q) as Hf.
  destruct (roundHalfEven_cases q) as [[-> H] | [-> H]].
  - rewrite Zle_Qle; lra.
  - assert (Hlt : (Qfloor q < n)%Z) by (rewrite Zlt_Qlt; lra).
    lia.
Qed.

Lemma roundHalfEven_ge_int :
  forall q n, inject_Z n <= q -> (n <= Number.roundHalfEven q)%Z.
Proof.
  intros q n Hq.
  assert (Hn : (n <= Qfloor q)%Z)
    by (rewrite <- (Qfloor_Z n); apply Qfloor_resp_le; exact Hq).
  destruct (roundHalfEven_cases q) as [[-> _] | [-> _]]; lia.
Qed.

Lemma roundHalfEven_mono :
  forall p q, p <= q -> (Number.roundHalfEven p <= Number.roundHalfEven q)%Z.
Proof.
  intros p q Hpq.
  pose proof (Qfloor_resp_le p q Hpq) as Hf.
  destruct (Z.eq_dec (Qfloor p) (Qfloor q)) as [E | E].
  - unfold Number.roundHalfEven; rewrite E.
    destruct (Qcompare_spec (p - inject_Z (Qfloor q)) (1 # 2)) as [Ep | Ep | Ep];
      destruct (Qcompare_spec (q - inject_Z (Qfloor q)) (1 # 2)) as [Eq | Eq | Eq];
      try lra; destruct (Z.even (Qfloor q)); lia.
  - assert (Hlt : (Qfloor p + 1 <= Qfloor q)%Z) by lia.
    destruct (roundHalfEven_cases p) as [[-> _] | [-> _]];
      destruct (roundHalfEven_cases q) as [[-> _] | [-> _]]; lia.
Qed.

(** *** Rounding to the nearest number *)

Lemma Qabs_nonneg_eq : forall q, 0 <= q -> Qabs q = q.
Proof.
  intros [a b] H; unfold Qabs; f_equal.
  apply Z.abs_eq; unfold Qle in H; simpl in H; lia.
Qed.

Lemma round_zero : forall q, q == 0 -> Number.round q = 0.
Proof.
  intros q H; unfold Number.round.
  destruct (Qeq_bool q 0) eqn:E; [reflexivity|].
  apply Qeq_bool_neq in E; contradiction.
Qed.

Lemma round_pos :
  forall q, 0 < q ->
    Number.round q
    = inject_Z (Number.roundHalfEven
                  (q / Number.pow2 (Z.max (Number.ilog2 q - 52) (-1074))))
      * Number.pow2 (Z.max (Number.ilog2 q - 52) (-1074)).
Proof.
  intros q H; unfold Number.round, Number.ulpExponent.
  rewrite (Qabs_nonneg_eq q (Qlt_le_weak _ _ H)).
  destruct (Qeq_bool q 0) eqn:E; [|reflexivity].
  apply Qeq_bool_iff in E; lra.
Qed.

Lemma round_nonneg : forall q, 0 <= q -> 0 <= Number.round q.
Proof.
  intros q H.
  destruct (Qeq_bool q 0) eqn:E.
  - apply Qeq_bool_iff in E; rewrite (round_zero q E); lra.
  - apply Qeq_bool_neq in E.
    assert (Hq : 0 < q) by (apply Qle_lteq in H as [H | H]; [exact H | symmetry in H; contradiction]).
    rewrite (round_pos q Hq).
    set (p := Number.pow2 _); pose proof (pow2_pos (Z.max (Number.ilog2 q - 52) (-1074))) as Hp.
    fold p in Hp.
    apply Qmult_le_0_compat; [|lra].
    change 0 with (inject_Z 0); rewrite <- Zle_Qle.
    apply roundHalfEven_ge_int; change (inject_Z 0) with 0.
    apply Qle_shift_div_l; [exact Hp | lra].
Qed.

(** The rounding error is at most half a unit in the last place. *)
Lemma round_upper :
  forall q, 0 < q ->
    Number.round q
    <= q + Number.pow2 (Z.max (Number.ilog2 q - 52) (-1074)) * (1 # 2).
Proof.
  intros q Hq; rewrite (round_pos q Hq).
  set (p := Number.pow2 _); pose proof (pow2_pos (Z.max (Number.ilog2 q - 52) (-1074))) as Hp.
  fold p in Hp.
  pose proof (roundHalfEven_upper (q / p)) as Hr.
  assert (E : q / p * p == q) by (field; lra).
  apply Qle_trans with ((q / p + (1 # 2)) * p).
  - apply Qmult_le_compat_r; [exact Hr | lra].
  - rewrite <- E at 2; ring_simplify; lra.
Qed.

Lemma round_mono :
  forall p q, 0 <= p -> p <= q -> Number.round p <= Number.round q.
Proof.
  intros p q Hp Hpq.
  destruct (Qeq_bool p 0) eqn:E0.
  - apply Qeq_bool_iff in E0; rewrite (round_zero p E0).
    apply round_nonneg; lra.
  - apply Qeq_bool_neq in E0.
    assert (Hp0 : 0 < p) by (apply Qle_lteq in Hp as [H | H]; [exact H | symmetry in H; contradiction]).
    assert (Hq0 : 0 < q) by lra.
    pose proof (ilog2_le p q Hp0 Hpq) as He.
    destruct (ilog2_spec p Hp0) as [P1 P2].
    destruct (ilog2_spec q Hq0) as [Q1 Q2].
    rewrite (round_pos p Hp0), (round_pos q Hq0).
    set (ep := Number.ilog2 p) in *; set (eq := Number.ilog2 q) in *.
    set (sp := Z.max (ep - 52) (-1074)); set (sq := Z.max (eq - 52) (-1074)).
    pose proof (pow2_pos sp) as Psp; pose proof (pow2_pos sq) as Psq.
    destruct (Z.eq_dec sp sq) as [Es | Es].
    + rewrite <- Es.
      apply Qmult_le_compat_r; [|lra].
      rewrite <- Zle_Qle; apply roundHalfEven_mono.
      apply Qmult_le_compat_r; [exact Hpq|].
      apply Qlt_le_weak, Qinv_lt_0_compat; exact Psp.
    + assert (Hs : (sp < sq)%Z) by (unfold sp, sq in *; lia).
      assert (Hsq : sq = (eq - 52)%Z) by (unfold sp, sq in *; lia).
      set (K := Z.max (ep + 1 - sp) 0).
      assert (HK : (K + sp <= eq)%Z) by (unfold K, sp, sq in *; lia).
      apply Qle_trans with (Number.pow2 eq).
      * apply Qle_trans with (Number.pow2 (K + sp)); [|apply pow2_le; exact HK].
        rewrite pow2_add, (pow2_Z K) by (unfold K; lia).
        apply Qmult_le_compat_r; [|lra].
        rewrite <- Zle_Qle; apply roundHalfEven_le_int.
        rewrite <- (pow2_Z K) by (unfold K; lia).
        apply Qle_shift_div_r; [exact Psp|].
        rewrite <- pow2_add.
        apply Qle_trans with (Number.pow2 (ep + 1)); [lra|].
        apply pow2_le; unfold K; lia.
      * assert (E52 : Number.pow2 eq == inject_Z (2 ^ 52) * Number.pow2 sq)
          by (rewrite <- (pow2_Z 52), <- pow2_add by lia;
              replace (52 + sq)%Z with eq by lia; reflexivity).
        rewrite E52.
        apply Qmult_le_compat_r; [|lra].
        rewrite <- Zle_Qle; apply roundHalfEven_ge_int.
        apply Qle_shift_div_l; [exact Psq|].
        rewrite <- E52; exact Q1.
Qed.


(** *** Rounding is odd and monotone *)

Lemma Qopp_opp : forall q : Q, - - q = q.
Proof. intros [a b]; unfold Qopp; simpl; rewrite Z.opp_involutive; reflexivity. Qed.

Lemma Qabs_opp_eq : forall q : Q, Qabs (- q) = Qabs q.
Proof. intros [a b]; unfold Qabs, Qopp; simpl; rewrite Z.abs_opp; reflexivity. Qed.

Lemma roundHalfEven_comp :
  forall p q, p == q -> Number.roundHalfEven p = Number.roundHalfEven q.
Proof.
  intros p q E; apply Z.le_antisymm; apply roundHalfEven_mono; lra.
Qed.

Lemma Qfloor_opp_int :
  forall q, q == inject_Z (Qfloor q) -> Qfloor (- q) = (- Qfloor q)%Z.
Proof.
  intros q E.
  assert (H : - q == inject_Z (- Qfloor q)) by (rewrite inject_Z_opp; lra).
  rewrite (Qfloor_comp _ _ H); apply Qfloor_Z.
Qed.

Lemma Qfloor_opp_frac :
  forall q, ~ q == inject_Z (Qfloor q) -> Qfloor (- q) = (- Qfloor q - 1)%Z.
Proof.
  intros q E.
  pose proof (Qfloor_le q) as H1; pose proof (Qlt_floor q) as H2.
  assert (Hlt : inject_Z (Qfloor q) < q).
  { apply Qle_lteq in H1 as [H | H]; [exact H | symmetry in H; contradiction]. }
  rewrite inject_Z_plus in H2; change (inject_Z 1) with 1 in H2.
  apply Z.le_antisymm.
  - assert (H : (Qfloor (- q) < - Qfloor q)%Z).
    { rewrite Zlt_Qlt, inject_Z_opp.
      apply Qle_lt_trans with (- q); [apply Qfloor_le | lra]. }
    lia.
  - rewrite <- (Qfloor_Z (- Qfloor q - 1)); apply Qfloor_resp_le.
    unfold Z.sub; rewrite inject_Z_plus, !inject_Z_opp; change (inject_Z 1) with 1; lra.
Qed.

Lemma roundHalfEven_opp :
  forall q, Number.roundHalfEven (- q) = (- Number.roundHalfEven q)%Z.
Proof.
  intros q.
  destruct (Qeq_dec q (inject_Z (Qfloor q))) as [E | E].
  - unfold Number.roundHalfEven; rewrite (Qfloor_opp_int q E).
    destruct (Qcompare_spec (- q - inject_Z (- Qfloor q)) (1 # 2)) as [H | H | H];
      rewrite inject_Z_opp in H; try lra.
    destruct (Qcompare_spec (q - inject_Z (Qfloor q)) (1 # 2)) as [H' | H' | H'];
      try lra.
    reflexivity.
  - pose proof (Qfloor_le q) as H1; pose proof (Qlt_floor q) as H2.
    rewrite inject_Z_plus in H2; change (inject_Z 1) with 1 in H2.
    unfold Number.roundHalfEven; rewrite (Qfloor_opp_frac q E).
    assert (Ei : inject_Z (- Qfloor q - 1) == - inject_Z (Qfloor q) - 1)
      by (unfold Z.sub; rewrite inject_Z_plus, !inject_Z_opp; reflexivity).
    assert (Hev : Z.even (- Qfloor q - 1) = negb (Z.even (Qfloor q))).
    { replace (- Qfloor q - 1)%Z with (- (Qfloor q + 1))%Z by lia.
      rewrite Z.even_opp, Z.even_add; simpl.
      destruct (Z.even (Qfloor q)); reflexivity. }
    destruct (Qcompare_spec (- q - inject_Z (- Qfloor q - 1)) (1 # 2)) as [H | H | H];
      rewrite Ei in H;
      destruct (Qcompare_spec (q - inject_Z (Qfloor q)) (1 # 2)) as [H' | H' | H'];
      try lra; rewrite ?Hev; destruct (Z.even (Qfloor q)); simpl; lia.
Qed.

Lemma round_opp : forall q, Number.round (- q) == - Number.round q.
Proof.
  intros q; unfold Number.round, Number.ulpExponent.
  rewrite Qabs_opp_eq.
  destruct (Qeq_bool q 0) eqn:E.
  - apply Qeq_bool_iff in E.
    assert (E' : Qeq_bool (- q) 0 = true) by (apply Qeq_bool_iff; lra).
    rewrite E'; reflexivity.
  - apply Qeq_bool_neq in E.
    assert (E' : Qeq_bool (- q) 0 = false).
    { destruct (Qeq_bool (- q) 0) eqn:F; [|reflexivity].
      apply Qeq_bool_iff in F; exfalso; apply E; lra. }
    rewrite E'.
    set (p := Number.pow2 _).
    assert (Hp : 0 < p) by apply pow2_pos.
    assert (Ed : - q / p == - (q / p)) by (field; lra).
    rewrite (roundHalfEven_comp _ _ Ed), roundHalfEven_opp, inject_Z_opp; ring.
Qed.

Lemma round_nonpos : forall q, q <= 0 -> Number.round q <= 0.
Proof.
  intros q H.
  assert (H' : 0 <= - q) by lra.
  pose proof (round_nonneg _ H') as Hr; rewrite round_opp in Hr; lra.
Qed.

Lemma round_monotone : forall p q, p <= q -> Number.round p <= Number.round q.
Proof.
  intros p q Hpq.
  destruct (Qlt_le_dec p 0) as [Hp | Hp]; [|apply round_mono; assumption].
  destruct (Qlt_le_dec 0 q) as [Hq | Hq].
  - apply Qle_trans with 0; [apply round_nonpos | apply round_nonneg]; lra.
  - assert (H : Number.round (- q) <= Number.round (- p)) by (apply round_mono; lra).
    rewrite !round_opp in H; lra.
Qed.
Lemma round_comp :
  forall p q, 0 <= p -> p == q -> Number.round p == Number.round q.
Proof.
  intros p q Hp E; apply Qle_antisym; apply round_mono; lra.
Qed.

(** A number below [1] is at most [1 - 2^-53]. *)
Lemma isNumber_below_one :
  forall u,
    Number.isNumber u = true -> 0 <= u -> u < 1 ->
    u <= 1 - (1 # 9007199254740992).
Proof.
  intros u Hn H0 H1; unfold Number.isNumber in Hn; apply Qeq_bool_iff in Hn.
  destruct (Qeq_bool u 0) eqn:E0; [apply Qeq_bool_iff in E0; lra|].
  apply Qeq_bool_neq in E0.
  assert (Hu : 0 < u) by (apply Qle_lteq in H0 as [H | H]; [exact H | symmetry in H; contradiction]).
  destruct (ilog2_spec u Hu) as [P1 P2].
  rewrite (round_pos u Hu) in Hn.
  set (e := Number.ilog2 u) in *.
  assert (He : (e < 0)%Z) by (apply pow2_lt_inv; change (Number.pow2 0) with 1; lra).
  destruct (Z.eq_dec e (-1)) as [E | E].
  - rewrite E in Hn; change (Z.max (-1 - 52) (-1074)) with (-53)%Z in Hn.
    change (Number.pow2 (-53)) with (1 # 9007199254740992) in Hn.
    set (n := Number.roundHalfEven _) in Hn.
    assert (Hlt : (n < 9007199254740992)%Z).
    { rewrite Zlt_Qlt.
      assert (inject_Z n * (1 # 9007199254740992) < 1) by lra.
      change (inject_Z 9007199254740992) with (9007199254740992 # 1); lra. }
    assert (Hle : (n <= 9007199254740991)%Z) by lia.
    rewrite Zle_Qle in Hle.
    change (inject_Z 9007199254740991) with (9007199254740991 # 1) in Hle; lra.
  - assert (Hle : Number.pow2 (e + 1) <= Number.pow2 (-1)) by (apply pow2_le; lia).
    change (Number.pow2 (-1)) with (1 # 2) in Hle; lra.
Qed.

(** [Math.floor(u * n)] for a number [u] of the unit interval and a
    positive integer [n] is one of [0], ..., [n - 1]. *)
Lemma floor_mul_range :
  forall (u : Q) (n : Z),
    Number.isNumber u = true -> 0 <= u -> u < 1 -> (0 < n)%Z ->
    (0 <= Qfloor (Number.mul u (inject_Z n)) < n)%Z.
Proof.
  intros u n Hn H0 H1 Hpos.
  pose proof (isNumber_below_one u Hn H0 H1) as Hu.
  assert (HC : 1 <= inject_Z n)
    by (change 1 with (inject_Z 1); rewrite <- Zle_Qle; lia).
  set (C := inject_Z n) in *.
  assert (Hx0 : 0 <= u * C) by (apply Qmult_le_0_compat; lra).
  assert (Hx1 : u * C <= (1 - (1 # 9007199254740992)) * C)
    by (apply Qmult_le_compat_r; lra).
  unfold Number.mul; split.
  - rewrite <- (Qfloor_Z 0); apply Qfloor_resp_le.
    apply round_nonneg; exact Hx0.
  - assert (Hr : Number.round (u * C) < C).
    { destruct (Qeq_bool (u * C) 0) eqn:E0.
      - apply Qeq_bool_iff in E0; rewrite (round_zero _ E0); lra.
      - apply Qeq_bool_neq in E0.
        assert (Hx : 0 < u * C)
          by (apply Qle_lteq in Hx0 as [H | H]; [exact H | symmetry in H; contradiction]).
        pose proof (round_upper (u * C) Hx) as Hup.
        destruct (ilog2_spec (u * C) Hx) as [P1 _].
        set (e := Number.ilog2 (u * C)) in *.
        destruct (Z.max_spec (e - 52) (-1074)) as [[_ ->] | [_ ->]] in Hup.
        + assert (Hs : Number.pow2 (-1074) <= Number.pow2 (-53)) by (apply pow2_le; lia).
          change (Number.pow2 (-53)) with (1 # 9007199254740992) in Hs.
          set (t := Number.pow2 (-1074)) in *.
          lra.
        + assert (E52 : Number.pow2 (e - 52) == Number.pow2 e * (1 # 4503599627370496))
            by (unfold Z.sub; rewrite pow2_add; reflexivity).
          rewrite E52 in Hup.
          set (t := Number.pow2 e) in *.
          lra. }
    rewrite Zlt_Qlt.
    apply Qle_lt_trans with (Number.round (u * C)); [apply Qfloor_le | exact Hr].
Qed.

End NumberFacts.

(** ** Agreement with the Standard Library's binary64 *)

(** The literals [0.1], [0.3] and [0.05] of the source. *)
Example literals_agree_with_binary64 :
  Binary64.denotes (Binary64.literal 1 10) (Number.round (1 # 10)) = true /\
  Binary64.denotes (Binary64.literal 3 10) (Number.round (3 # 10)) = true /\
  Binary64.denotes (Binary64.literal 5 100) (Number.round (5 # 100)) = true.
Proof. repeat split; vm_compute; reflexivity. Qed.

(** The sum [Math.min] caps in [checkForSpecialFood], at scores on both
    sides of the cap. *)
Example chance_agrees_with_binary64 :
  forallb
    (fun sc =>
       Binary64.denotes
         (Binary64.rawChance sc)
         (Number.add (Number.round (1 # 10))
                     (Number.mul (Number.div (inject_Z sc) (inject_Z 1000))
                                 (Number.round (5 # 100)))))
    [0; 10; 20; 90; 100; 470; 480; 490; 1000; 3990; 4000; 4010; 12340; 100000]
  = true.
Proof. vm_compute; reflexivity. Qed.

(** The products [Math.random() * 30] and [Math.random() * 3], at the
    least and the greatest draw and at draws whose exact product lies
    within rounding of an integer. *)
Example products_agree_with_binary64 :
  forallb
    (fun m =>
       Number.isNumber (Zpos m # 9007199254740992) &&
       Binary64.denotes (Binary64.draw m) (Zpos m # 9007199254740992) &&
       Binary64.denotes
         (SFmul 53 1024 (Binary64.draw m) (Binary64.ofInt 30))
         (Number.mul (Zpos m # 9007199254740992) (inject_Z 30)) &&
       Binary64.denotes
         (SFmul 53 1024 (Binary64.draw m) (Binary64.ofInt 3))
         (Number.mul (Zpos m # 9007199254740992) (inject_Z 3)))
    [1; 3; 4803839602528529; 9007199254740991; 4503599627370496;
     3002399751580331; 6004799503160661; 1116892707587883]%positive
  = true.
Proof. vm_compute; reflexivity. Qed.

(** The floor is taken of the rounded product: at the draw nearest to
    [16/30], which lies below it, the product rounds to [16] and the
    column drawn is [16], where the exact product has floor [15]. *)
Example floor_is_of_the_rounded_product :
  Qfloor (Number.mul (4803839602528529 # 9007199254740992) (inject_Z 30)) = 16 /\
  Qfloor ((4803839602528529 # 9007199254740992) * inject_Z 30)%Q = 15 /\
  Qfloor (Number.mul (6004799503160661 # 9007199254740992) (inject_Z 3)) = 2 /\
  Qfloor ((6004799503160661 # 9007199254740992) * inject_Z 3)%Q = 1.
Proof. repeat split; vm_compute; reflexivity. Qed.


(** ** Equality tests *)

Lemma positionsEqual_eq : forall p q, utils.positionsEqual p q = true <-> p = q.
Proof.
  intros [px py] [qx qy]; unfold utils.positionsEqual; simpl.
  rewrite andb_true_iff, !Z.eqb_eq.
  split; [intros [-> ->]; reflexivity | intros H; inversion H; auto].
Qed.

Lemma positionsEqual_refl : forall p, utils.positionsEqual p p = true.
Proof. intros p; apply positionsEqual_eq; reflexivity. Qed.

Lemma positionsEqual_neq : forall p q, utils.positionsEqual p q = false <-> p <> q.
Proof.
  intros p q; rewrite <- positionsEqual_eq.
  destruct (utils.positionsEqual p q); split; congruence.
Qed.

Lemma Direction_eqb_eq : forall a b, Direction_eqb a b = true <-> a = b.
Proof. intros [] []; simpl; split; congruence. Qed.

Lemma GameState_eqb_eq : forall a b, GameState_eqb a b = true <-> a = b.
Proof. intros [] []; simpl; split; congruence. Qed.

Lemma GameState_eqb_neq : forall a b, GameState_eqb a b = false <-> a <> b.
Proof. intros [] []; simpl; split; congruence. Qed.

(** ** Directions *)

Lemma getOppositeDirection_involutive :
  forall d, utils.getOppositeDirection (utils.getOppositeDirection d) = d.
Proof. intros []; reflexivity. Qed.

Lemma areDirectionsOpposite_iff :
  forall d current,
    utils.areDirectionsOpposite d current = true
    <-> d = utils.getOppositeDirection current.
Proof.
  intros d current; unfold utils.areDirectionsOpposite.
  rewrite Direction_eqb_eq; split; intros H.
  - rewrite <- H; symmetry; apply getOppositeDirection_involutive.
  - rewrite H; apply getOppositeDirection_involutive.
Qed.

(** ** The snake *)

(** The test the source makes on the direction objects,
    [getOppositeDirection(dir1) === dir2], holds exactly when the step of
    the one direction is the step of the other negated. *)
Lemma areDirectionsOpposite_reversal :
  forall d current,
    utils.areDirectionsOpposite d current = true
    <-> dir_x d = - dir_x current /\ dir_y d = - dir_y current.
Proof.
  intros [] []; cbn; split; intros H; try reflexivity; try discriminate H;
    try (split; reflexivity); destruct H as [H1 H2];
    try discriminate H1; try discriminate H2.
Qed.

(** C4. [changeDirection d] returns [false] exactly when [d] reverses the
    direction the snake currently moves in, that is, when the step of [d]
    is the step of the current direction negated: down against up, up
    against down, right against left, left against right, and no other
    pair, whatever direction is queued. A refused call leaves the snake as
    it is; any other [d] returns [true] and the snake differs only in that
    [d] is queued; a second accepted call before the snake moves replaces
    the queued direction. *)
Theorem changeDirection_rejects_exactly_reversal :
  forall (s : Snake.t) (d : Direction),
    (fst (Snake.changeDirection s d) = false
     <-> dir_x d = - dir_x (Snake.direction s) /\
         dir_y d = - dir_y (Snake.direction s)) /\
    (fst (Snake.changeDirection s d) = false
     <-> (d = DOWN /\ Snake.direction s = UP) \/
         (d = UP /\ Snake.direction s = DOWN) \/
         (d = RIGHT /\ Snake.direction s = LEFT) \/
         (d = LEFT /\ Snake.direction s = RIGHT)) /\
    (fst (Snake.changeDirection s d) = false ->
     Snake.changeDirection s d = (false, s)) /\
    (fst (Snake.changeDirection s d) = true ->
     Snake.changeDirection s d
     = (true, Snake.mk (Snake.body s) (Snake.direction s) d
                       (Snake.growing s) (Snake.length s))) /\
    (forall d2,
        fst (Snake.changeDirection s d) = true ->
        fst (Snake.changeDirection s d2) = true ->
        Snake.changeDirection (snd (Snake.changeDirection s d)) d2
        = (true, Snake.mk (Snake.body s) (Snake.direction s) d2
                          (Snake.growing s) (Snake.length s))).
Proof.
  intros s d.
  assert (Hf : forall e, fst (Snake.changeDirection s e)
                         = negb (utils.areDirectionsOpposite e (Snake.direction s))).
  { intros e; unfold Snake.changeDirection.
    destruct (utils.areDirectionsOpposite e (Snake.direction s)); reflexivity. }
  assert (Hacc : forall e, fst (Snake.changeDirection s e) = true ->
                           Snake.changeDirection s e
                           = (true, Snake.mk (Snake.body s) (Snake.direction s) e
                                             (Snake.growing s) (Snake.length s))).
  { intros e; unfold Snake.changeDirection.
    destruct (utils.areDirectionsOpposite e (Snake.direction s));
      [discriminate | reflexivity]. }
  split; [|split; [|split; [|split]]].
  - rewrite Hf, negb_false_iff; apply areDirectionsOpposite_reversal.
  - rewrite Hf, negb_false_iff, areDirectionsOpposite_reversal.
    destruct d, (Snake.direction s); cbn; split;
      try (intros [H1 H2]; discriminate H1 || discriminate H2);
      try (intros [[H1 H2]|[[H1 H2]|[[H1 H2]|[H1 H2]]]];
           discriminate H1 || discriminate H2);
      intros _; try (split; reflexivity); tauto.
  - unfold Snake.changeDirection.
    destruct (utils.areDirectionsOpposite d (Snake.direction s));
      [reflexivity | discriminate].
  - apply Hacc.
  - intros d2 Hd Hd2; rewrite (Hacc d Hd); cbn [snd].
    rewrite Hf, negb_true_iff in Hd2.
    unfold Snake.changeDirection; cbn [Snake.direction].
    rewrite Hd2; reflexivity.
Qed.

(** A reversal of the queued direction is accepted when it is no reversal
    of the current one. *)
Example changeDirection_ignores_queued :
  Snake.changeDirection Sample.curled RIGHT = (true, queued Sample.curled RIGHT).
Proof. reflexivity. Qed.

Lemma removelast_length :
  forall (A : Type) (a : A) (l : list A),
    List.length (List.removelast (a :: l)) = List.length l.
Proof.
  intros A a l; revert a; induction l as [|b l IH]; intros a.
  - reflexivity.
  - change (S (List.length (List.removelast (b :: l))) = S (List.length l)).
    f_equal; apply IH.
Qed.

Lemma removelast_cons :
  forall (A : Type) (a b : A) (l : list A),
    List.removelast (a :: b :: l) = a :: List.removelast (b :: l).
Proof. reflexivity. Qed.

Lemma move_cons :
  forall s head rest,
    Snake.body s = head :: rest ->
    Snake.move s =
    Some (let d := Snake.nextDirection s in
          let newHead := utils.createPosition (x head + dir_x d) (y head + dir_y d) in
          if Snake.growing s
          then Snake.mk (newHead :: head :: rest) d d false (Snake.length s + 1)
          else Snake.mk (newHead :: List.removelast (head :: rest)) d d
                        false (Snake.length s)).
Proof.
  intros s head rest Hb; unfold Snake.move, Snake.getHead; rewrite Hb; simpl.
  destruct (Snake.growing s); reflexivity.
Qed.

Lemma direction_is_unit_step :
  forall d, Z.abs (dir_x d) + Z.abs (dir_y d) = 1.
Proof. intros []; reflexivity. Qed.

(** C5. One [move] of a snake with a head succeeds; afterwards the current
    direction is the one that was queued, the head is the old head shifted
    by that direction, which is one cell along one axis, and the body is
    as long as before when no growth was pending and one longer when it
    was. *)
Theorem move_steps_once_and_grows_at_most_one :
  forall (s : Snake.t) (head : Position),
    Snake.getHead s = Some head ->
    exists s' head',
      Snake.move s = Some s' /\
      Snake.direction s' = Snake.nextDirection s /\
      Snake.getHead s' = Some head' /\
      head' = utils.createPosition (x head + dir_x (Snake.direction s'))
                                   (y head + dir_y (Snake.direction s')) /\
      Z.abs (x head' - x head) + Z.abs (y head' - y head) = 1 /\
      List.length (Snake.body s') =
        (List.length (Snake.body s) + if Snake.growing s then 1 else 0)%nat /\
      Snake.growing s' = false.
Proof.
  intros s head Hh.
  destruct (Snake.body s) as [|h rest] eqn:Hb;
    unfold Snake.getHead in Hh; rewrite Hb in Hh; simpl in Hh; [discriminate|].
  injection Hh as ->.
  rewrite (move_cons s head rest Hb); cbv zeta.
  assert (Hunit : forall d,
             Z.abs (x (utils.createPosition (x head + dir_x d) (y head + dir_y d)) - x head)
             + Z.abs (y (utils.createPosition (x head + dir_x d) (y head + dir_y d)) - y head)
             = 1).
  { intros d; cbn [utils.createPosition x y].
    replace (x head + dir_x d - x head) with (dir_x d) by lia.
    replace (y head + dir_y d - y head) with (dir_y d) by lia.
    apply direction_is_unit_step. }
  eexists; eexists; split; [reflexivity|].
  destruct (Snake.growing s); cbn [Snake.direction Snake.growing];
    unfold Snake.getHead; cbn [Snake.body List.hd_error].
  - repeat split; [apply Hunit | simpl; lia].
  - repeat split; [apply Hunit|].
    pose proof (removelast_length _ head rest) as E.
    simpl in E |- *; lia.
Qed.

Lemma move_steps_once_witness :
  exists s',
    Snake.move Sample.curled = Some s' /\
    Snake.direction s' = LEFT /\
    Snake.getHead s' = Some (Sample.at_ 4 5) /\
    List.length (Snake.body s') = 5%nat /\
    Snake.growing s' = false.
Proof.
  destruct (move_steps_once_and_grows_at_most_one Sample.curled (Sample.at_ 5 5) eq_refl)
    as (s' & head' & Hm & Hd & Hh & He & _ & Hl & Hg).
  exists s'; rewrite Hd in He; rewrite He in Hh; repeat split; assumption.
Defined.

Lemma growTimes_S : forall n s, growTimes (S n) s = Snake.grow s.
Proof.
  induction n as [|n IH]; intros s.
  - reflexivity.
  - change (growTimes (S (S n)) s) with (Snake.grow (growTimes (S n) s)).
    rewrite IH; reflexivity.
Qed.

(** C7. Calling [grow] [n] times, [n] at least one, before a [move] leaves
    the snake in the state one call leaves it in, and that [move] makes the
    body exactly one segment longer and clears the pending growth. *)
Theorem grow_is_idempotent_before_move :
  forall (s : Snake.t) (head : Position) (n : nat),
    (1 <= n)%nat ->
    Snake.getHead s = Some head ->
    growTimes n s = Snake.grow s /\
    exists s',
      Snake.move (growTimes n s) = Some s' /\
      List.length (Snake.body s') = S (List.length (Snake.body s)) /\
      Snake.growing s' = false.
Proof.
  intros s head n Hn Hh.
  destruct n as [|n]; [lia|].
  rewrite growTimes_S; split; [reflexivity|].
  destruct (Snake.body s) as [|h rest] eqn:Hb;
    unfold Snake.getHead in Hh; rewrite Hb in Hh; [discriminate|].
  rewrite (move_cons (Snake.grow s) h rest Hb); cbv zeta.
  cbn [Snake.grow Snake.growing].
  eexists; split; [reflexivity|]; split; reflexivity.
Qed.

Lemma grow_is_idempotent_witness :
  growTimes 3 Sample.straight = Snake.grow Sample.straight /\
  exists s',
    Snake.move (growTimes 3 Sample.straight) = Some s' /\
    List.length (Snake.body s') = 6%nat /\
    Snake.growing s' = false.
Proof.
  apply (grow_is_idempotent_before_move Sample.straight (Sample.at_ 18 15) 3).
  - lia.
  - reflexivity.
Defined.

(** ** The boundary classifier *)

Lemma checkBoundaryCollision_isValidPosition :
  forall cfg p,
    CollisionDetector.boundary_detected (CollisionDetector.checkBoundaryCollision cfg p)
    = negb (utils.isValidPosition cfg p).
Proof.
  intros cfg p; unfold CollisionDetector.checkBoundaryCollision, utils.isValidPosition.
  destruct (x p <? 0) eqn:E1; destruct (x p >=? board_columns cfg) eqn:E2;
    destruct (y p <? 0) eqn:E3; destruct (y p >=? board_rows cfg) eqn:E4;
    destruct (x p >=? 0) eqn:E5; destruct (x p <? board_columns cfg) eqn:E6;
    destruct (y p >=? 0) eqn:E7; destruct (y p <? board_rows cfg) eqn:E8;
    simpl; try reflexivity; lia.
Qed.

(** C8. The boundary classifier reports a collision exactly for the
    positions outside the rectangle of [columns] by [rows] cells: a
    position in column [columns] is a collision, and on a board with at
    least one column a position in column [columns - 1] and a valid row is
    not. *)
Theorem boundary_collision_iff_off_board :
  forall (cfg : GameConfig) (p : Position),
    (CollisionDetector.boundary_detected (CollisionDetector.checkBoundaryCollision cfg p) = true
     <-> ~ (0 <= x p < board_columns cfg /\ 0 <= y p < board_rows cfg)) /\
    CollisionDetector.boundary_detected
      (CollisionDetector.checkBoundaryCollision
         cfg (utils.createPosition (board_columns cfg) (y p))) = true /\
    (0 < board_columns cfg ->
     0 <= y p < board_rows cfg ->
     CollisionDetector.boundary_detected
       (CollisionDetector.checkBoundaryCollision
          cfg (utils.createPosition (board_columns cfg - 1) (y p))) = false).
Proof.
  intros cfg p; repeat split.
  - unfold CollisionDetector.checkBoundaryCollision.
    destruct (x p <? 0) eqn:E1; [lia|].
    destruct (x p >=? board_columns cfg) eqn:E2; [lia|].
    destruct (y p <? 0) eqn:E3; [lia|].
    destruct (y p >=? board_rows cfg) eqn:E4; [lia|].
    simpl; discriminate.
  - intros Hout; unfold CollisionDetector.checkBoundaryCollision.
    destruct (x p <? 0) eqn:E1; [reflexivity|].
    destruct (x p >=? board_columns cfg) eqn:E2; [reflexivity|].
    destruct (y p <? 0) eqn:E3; [reflexivity|].
    destruct (y p >=? board_rows cfg) eqn:E4; [reflexivity|].
    exfalso; apply Hout; lia.
  - unfold CollisionDetector.checkBoundaryCollision; simpl.
    destruct (board_columns cfg <? 0) eqn:E1; [reflexivity|].
    destruct (board_columns cfg >=? board_columns cfg) eqn:E2; [reflexivity|lia].
  - intros Hc Hy; unfold CollisionDetector.checkBoundaryCollision; simpl.
    destruct (board_columns cfg - 1 <? 0) eqn:E1; [lia|].
    destruct (board_columns cfg - 1 >=? board_columns cfg) eqn:E2; [lia|].
    destruct (y p <? 0) eqn:E3; [lia|].
    destruct (y p >=? board_rows cfg) eqn:E4; [lia|].
    reflexivity.
Qed.

(** On the board of the source: column 30 is off the board, column 29 is
    on it. *)
Example boundary_at_last_columns :
  CollisionDetector.boundary_detected
    (CollisionDetector.checkBoundaryCollision gameConfig (Sample.at_ 30 12)) = true /\
  CollisionDetector.side
    (CollisionDetector.checkBoundaryCollision gameConfig (Sample.at_ 30 12))
    = Some "right"%string /\
  CollisionDetector.boundary_detected
    (CollisionDetector.checkBoundaryCollision gameConfig (Sample.at_ 29 12)) = false.
Proof. repeat split. Qed.

(** ** Pause and resume *)

(** C9. [pause] from a state other than Playing and [resume] from a state
    other than Paused return without raising and leave the whole
    controller, session state, score, snake and food included, as it was;
    so a [pause] that changes anything started in Playing and ends in
    Paused, and a [resume] that changes anything started in Paused. *)
Theorem pause_resume_are_noops_outside_their_state :
  forall (cfg : GameConfig) (g : Game.t) (r : Rng) (now : Z),
    (Game.state g <> PLAYING -> Game.pause g = g) /\
    (Game.state g <> PAUSED -> Game.resume cfg g r now = Some (g, r)) /\
    (Game.pause g <> g ->
     Game.state g = PLAYING /\ Game.state (Game.pause g) = PAUSED) /\
    (Game.resume cfg g r now <> Some (g, r) -> Game.state g = PAUSED).
Proof.
  intros cfg g r now.
  assert (Hp : Game.state g <> PLAYING -> Game.pause g = g).
  { intros Hs; unfold Game.pause.
    apply GameState_eqb_neq in Hs; rewrite Hs; reflexivity. }
  assert (Hr : Game.state g <> PAUSED -> Game.resume cfg g r now = Some (g, r)).
  { intros Hs; unfold Game.resume.
    apply GameState_eqb_neq in Hs; rewrite Hs; reflexivity. }
  repeat split; try assumption.
  - destruct (Game.state g) eqn:Hs; try reflexivity;
      exfalso; apply H, Hp; congruence.
  - destruct (Game.state g) eqn:Hs;
      try (exfalso; apply H, Hp; congruence).
    unfold Game.pause; rewrite Hs; simpl.
    unfold Game.stopGameLoop; simpl.
    destruct (Game.gameLoopId g); reflexivity.
  - intros H; destruct (Game.state g) eqn:Hs; try reflexivity;
      exfalso; apply H, Hr; congruence.
Qed.

(** From the menu and after the game has ended neither call does
    anything. *)
Example pause_resume_from_menu :
  Game.pause (Game.new gameConfig 70) = Game.new gameConfig 70 /\
  Game.resume gameConfig (Game.new gameConfig 70) Sample.half 5
  = Some (Game.new gameConfig 70, Sample.half).
Proof. split; reflexivity. Qed.

(** ** Placement of the food *)

Lemma isPositionOccupied_In :
  forall s p, Snake.isPositionOccupied s p = true <-> In p (Snake.body s).
Proof.
  intros s p; unfold Snake.isPositionOccupied.
  rewrite existsb_exists; split.
  - intros (q & Hq & He); apply positionsEqual_eq in He; subst; assumption.
  - intros Hin; exists p; split; [assumption | apply positionsEqual_refl].
Qed.

Lemma isPositionOccupied_not_In :
  forall s p, Snake.isPositionOccupied s p = false <-> ~ In p (Snake.body s).
Proof.
  intros s p; rewrite <- isPositionOccupied_In.
  destruct (Snake.isPositionOccupied s p); split; congruence.
Qed.

Lemma In_range : forall n z, In z (Food.range n) <-> 0 <= z < n.
Proof.
  intros n z; unfold Food.range; rewrite in_map_iff; split.
  - intros (k & <- & Hk); apply in_seq in Hk; lia.
  - intros Hz; exists (Z.to_nat z); split; [lia | apply in_seq; lia].
Qed.

Lemma In_scanOrder :
  forall cfg p, In p (Food.scanOrder cfg) <-> utils.isValidPosition cfg p = true.
Proof.
  intros cfg p; unfold Food.scanOrder, utils.isValidPosition.
  rewrite in_flat_map; split.
  - intros (py & Hy & Hin); apply in_map_iff in Hin as (px & <- & Hx).
    apply In_range in Hy; apply In_range in Hx; simpl.
    rewrite !andb_true_iff; repeat split; lia.
  - rewrite !andb_true_iff; intros [[[H1 H2] H3] H4].
    exists (y p); split; [apply In_range; lia|].
    apply in_map_iff; exists (x p); split; [destruct p; reflexivity|].
    apply In_range; lia.
Qed.


Lemma findAvailablePosition_placed :
  forall cfg f snake now,
    placed cfg f snake now (Food.findAvailablePosition cfg f snake now).
Proof.
  intros cfg f snake now; unfold Food.findAvailablePosition.
  destruct (find _ (Food.scanOrder cfg)) as [p|] eqn:E.
  - apply find_some in E as [_ Hfree]; apply negb_true_iff in Hfree.
    constructor; assumption.
  - constructor.
Qed.

Lemma findAvailablePosition_complete :
  forall cfg f snake now p,
    utils.isValidPosition cfg p = true ->
    Snake.isPositionOccupied snake p = false ->
    fst (Food.findAvailablePosition cfg f snake now) = true.
Proof.
  intros cfg f snake now p Hv Hfree; unfold Food.findAvailablePosition.
  destruct (find _ (Food.scanOrder cfg)) as [q|] eqn:E; [reflexivity|].
  apply In_scanOrder in Hv.
  pose proof (find_none _ _ E p Hv) as Hn; simpl in Hn.
  rewrite Hfree in Hn; discriminate.
Qed.

Lemma findAvailablePosition_full :
  forall cfg f snake now,
    (forall p, utils.isValidPosition cfg p = true ->
               Snake.isPositionOccupied snake p = true) ->
    Food.findAvailablePosition cfg f snake now = (false, f).
Proof.
  intros cfg f snake now Hfull; unfold Food.findAvailablePosition.
  destruct (find _ (Food.scanOrder cfg)) as [q|] eqn:E; [|reflexivity].
  apply find_some in E as [Hin Hfree].
  apply In_scanOrder, Hfull in Hin; rewrite Hin in Hfree; discriminate.
Qed.

Lemma attemptLoop_S :
  forall cfg k f snake r now,
    Food.attemptLoop cfg (S k) f snake r now =
    let (newPosition, r') := utils.getRandomPosition cfg r in
    if negb (Snake.isPositionOccupied snake newPosition)
    then ((true, Food.placeAt cfg f newPosition now), r')
    else Food.attemptLoop cfg k f snake r' now.
Proof. reflexivity. Qed.

Lemma attemptLoop_placed :
  forall cfg remaining f snake r now,
    placed cfg f snake now (fst (Food.attemptLoop cfg remaining f snake r now)).
Proof.
  intros cfg remaining f snake; induction remaining as [|k IH]; intros r now.
  - apply findAvailablePosition_placed.
  - rewrite attemptLoop_S.
    destruct (utils.getRandomPosition cfg r) as [p r'].
    destruct (Snake.isPositionOccupied snake p) eqn:E; cbn [negb fst].
    + apply IH.
    + constructor; assumption.
Qed.

Lemma attemptLoop_complete :
  forall cfg remaining f snake r now p,
    utils.isValidPosition cfg p = true ->
    Snake.isPositionOccupied snake p = false ->
    fst (fst (Food.attemptLoop cfg remaining f snake r now)) = true.
Proof.
  intros cfg remaining f snake r now p Hv Hfree; revert r.
  induction remaining as [|k IH]; intros r.
  - eapply findAvailablePosition_complete; eassumption.
  - rewrite attemptLoop_S.
    destruct (utils.getRandomPosition cfg r) as [q r'].
    destruct (Snake.isPositionOccupied snake q); cbn [negb fst];
      [apply IH | reflexivity].
Qed.

(** The draws a placement consumes: two for each attempt made. *)
Lemma attemptLoop_draws :
  forall cfg remaining f snake r now,
    exists k, (k <= 2 * remaining)%nat /\
              forall n, snd (Food.attemptLoop cfg remaining f snake r now) n = r (k + n)%nat.
Proof.
  intros cfg remaining f snake; induction remaining as [|j IH]; intros r now.
  - exists 0%nat; split; [lia | reflexivity].
  - rewrite attemptLoop_S.
    unfold utils.getRandomPosition, Math_random.
    destruct (Snake.isPositionOccupied snake _); cbn [negb snd].
    + destruct (IH (fun n => r (S (S n))) now) as (k & Hk & Hr).
      exists (S (S k)); split; [lia|].
      intros n; rewrite Hr; reflexivity.
    + exists 2%nat; split; [lia | reflexivity].
Qed.

Lemma getRandomPosition_valid :
  forall cfg r,
    0 < board_columns cfg -> 0 < board_rows cfg -> Rng_ok r ->
    utils.isValidPosition cfg (fst (utils.getRandomPosition cfg r)) = true /\
    Rng_ok (snd (utils.getRandomPosition cfg r)).
Proof.
  intros cfg r Hc Hr Hok; unfold utils.getRandomPosition, Math_random; cbn [fst snd].
  split; [| intros n; apply Hok].
  destruct (Hok 0%nat) as (An & A0 & A1); destruct (Hok 1%nat) as (Bn & B0 & B1).
  pose proof (floor_mul_range _ _ An A0 A1 Hc) as Hx.
  pose proof (floor_mul_range _ _ Bn B0 B1 Hr) as Hy.
  unfold utils.isValidPosition, utils.createPosition; cbn [x y].
  rewrite !andb_true_iff; repeat split; lia.
Qed.

Lemma attemptLoop_full :
  forall cfg remaining f snake r now,
    0 < board_columns cfg -> 0 < board_rows cfg -> Rng_ok r ->
    (forall p, utils.isValidPosition cfg p = true ->
               Snake.isPositionOccupied snake p = true) ->
    fst (Food.attemptLoop cfg remaining f snake r now) = (false, f).
Proof.
  intros cfg remaining f snake r now Hc Hr Hok Hfull; revert r Hok.
  induction remaining as [|k IH]; intros r Hok.
  - apply findAvailablePosition_full; assumption.
  - rewrite attemptLoop_S.
    destruct (getRandomPosition_valid cfg r Hc Hr Hok) as [Hv Hok'].
    destruct (utils.getRandomPosition cfg r) as [q r']; cbn [fst snd] in Hv, Hok'.
    rewrite (Hfull q Hv); cbn [negb]; apply IH; assumption.
Qed.

(** *** The fallback scan is row-major *)

Lemma StronglySorted_app :
  forall (A : Type) (R : A -> A -> Prop) (l1 l2 : list A),
    StronglySorted R l1 -> StronglySorted R l2 ->
    (forall a b, In a l1 -> In b l2 -> R a b) ->
    StronglySorted R (l1 ++ l2).
Proof.
  intros A R l1 l2 H1 H2 Hcross; induction H1 as [|a l Hl IH Ha]; simpl.
  - assumption.
  - constructor.
    + apply IH; intros c d Hc Hd; apply Hcross; [right|]; assumption.
    + apply Forall_app; split; [assumption|].
      apply Forall_forall; intros d Hd; apply Hcross; [left; reflexivity | assumption].
Qed.

Lemma StronglySorted_map :
  forall (A B : Type) (R : A -> A -> Prop) (S : B -> B -> Prop) (g : A -> B) (l : list A),
    (forall a b, R a b -> S (g a) (g b)) ->
    StronglySorted R l -> StronglySorted S (List.map g l).
Proof.
  intros A B R S g l Hmono Hs; induction Hs as [|a l Hl IH Ha]; simpl; constructor.
  - assumption.
  - apply Forall_map; eapply Forall_impl; [|exact Ha]; intros b; apply Hmono.
Qed.

Lemma seq_sorted : forall len start, StronglySorted lt (List.seq start len).
Proof.
  induction len as [|len IH]; intros start; simpl; constructor.
  - apply IH.
  - apply Forall_forall; intros k Hk; apply in_seq in Hk; lia.
Qed.

Lemma range_sorted : forall n, StronglySorted Z.lt (Food.range n).
Proof.
  intros n; unfold Food.range.
  apply StronglySorted_map with (R := lt); [intros; lia | apply seq_sorted].
Qed.

Lemma flat_map_sorted :
  forall (A B : Type) (R : A -> A -> Prop) (S : B -> B -> Prop)
         (g : A -> list B) (l : list A),
    (forall a, StronglySorted S (g a)) ->
    (forall a b c d, R a b -> In c (g a) -> In d (g b) -> S c d) ->
    StronglySorted R l -> StronglySorted S (List.flat_map g l).
Proof.
  intros A B R S g l Hrow Hcross Hs; induction Hs as [|a l Hl IH Ha]; simpl.
  - constructor.
  - apply StronglySorted_app; [apply Hrow | assumption |].
    intros c d Hc Hd; apply in_flat_map in Hd as (b & Hb & Hd).
    rewrite Forall_forall in Ha; eapply Hcross; eauto.
Qed.

Lemma scanOrder_sorted :
  forall cfg, StronglySorted rowMajorBefore (Food.scanOrder cfg).
Proof.
  intros cfg; unfold Food.scanOrder.
  apply flat_map_sorted with (R := Z.lt).
  - intros py; apply StronglySorted_map with (R := Z.lt); [|apply range_sorted].
    intros a b Hab; right; simpl; split; [reflexivity | assumption].
  - intros a b c d Hab Hc Hd.
    apply in_map_iff in Hc as (? & <- & _); apply in_map_iff in Hd as (? & <- & _).
    left; simpl; assumption.
  - apply range_sorted.
Qed.

Lemma find_split :
  forall (A : Type) (t : A -> bool) (l : list A) (a : A),
    List.find t l = Some a ->
    exists l1 l2, l = l1 ++ a :: l2 /\ forall b, In b l1 -> t b = false.
Proof.
  intros A t l a; induction l as [|c l IH]; simpl; [discriminate|].
  destruct (t c) eqn:E.
  - intros H; injection H as ->; exists [], l; split; [reflexivity | intros b []].
  - intros H; destruct (IH H) as (l1 & l2 & -> & Hl1).
    exists (c :: l1), l2; split; [reflexivity|].
    intros b [<- | Hb]; [assumption | apply Hl1; assumption].
Qed.

Lemma sorted_after_middle :
  forall (A : Type) (R : A -> A -> Prop) (l1 l2 : list A) (a : A),
    StronglySorted R (l1 ++ a :: l2) -> forall b, In b l2 -> R a b.
Proof.
  intros A R l1 l2 a; induction l1 as [|c l1 IH]; simpl; intros Hs b Hb.
  - apply StronglySorted_inv in Hs as [_ Hall].
    rewrite Forall_forall in Hall; apply Hall; assumption.
  - apply StronglySorted_inv in Hs as [Hs _]; apply IH; assumption.
Qed.

(** The cell the fallback scan settles on is a free cell of the board, and
    every other free cell of the board comes after it in row-major
    order. *)
Lemma findAvailablePosition_first_free :
  forall cfg f snake now,
    fst (Food.findAvailablePosition cfg f snake now) = true ->
    exists p,
      snd (Food.findAvailablePosition cfg f snake now) = Food.placeAt cfg f p now /\
      utils.isValidPosition cfg p = true /\
      Snake.isPositionOccupied snake p = false /\
      forall q, utils.isValidPosition cfg q = true ->
                Snake.isPositionOccupied snake q = false ->
                q <> p -> rowMajorBefore p q.
Proof.
  intros cfg f snake now; unfold Food.findAvailablePosition.
  destruct (find _ (Food.scanOrder cfg)) as [p|] eqn:E; [intros _ | discriminate].
  exists p; split; [reflexivity|].
  pose proof (find_some _ _ E) as [Hin Hfree]; apply negb_true_iff in Hfree.
  split; [apply In_scanOrder; assumption|]; split; [assumption|].
  intros q Hv Hq Hne.
  destruct (find_split _ _ _ _ E) as (l1 & l2 & Hl & Hl1).
  pose proof (scanOrder_sorted cfg) as Hs; rewrite Hl in Hs.
  apply In_scanOrder in Hv; rewrite Hl in Hv.
  apply in_app_or in Hv as [Hv | [Hv | Hv]].
  - apply Hl1 in Hv; rewrite Hq in Hv; discriminate.
  - congruence.
  - eapply sorted_after_middle; eassumption.
Qed.

(** *** The random attempts *)

Lemma getRandomPosition_candidate :
  forall cfg r, fst (utils.getRandomPosition cfg r) = candidate cfg r 0.
Proof. reflexivity. Qed.

Lemma candidate_tail :
  forall cfg r i, candidate cfg (fun n => r (S (S n))) i = candidate cfg r (S i).
Proof.
  intros cfg r i; unfold candidate.
  replace (2 * S i)%nat with (S (S (2 * i))) by lia.
  replace (S (S (2 * i)) + 1)%nat with (S (S (2 * i + 1))) by lia.
  reflexivity.
Qed.

Lemma attemptLoop_exhausted :
  forall cfg remaining f snake r now,
    (forall i, (i < remaining)%nat ->
               Snake.isPositionOccupied snake (candidate cfg r i) = true) ->
    fst (Food.attemptLoop cfg remaining f snake r now)
    = Food.findAvailablePosition cfg f snake now.
Proof.
  intros cfg remaining f snake r now; revert r.
  induction remaining as [|k IH]; intros r Hocc; [reflexivity|].
  rewrite attemptLoop_S.
  pose proof (Hocc 0%nat ltac:(lia)) as H0.
  rewrite <- getRandomPosition_candidate in H0.
  unfold utils.getRandomPosition, Math_random in *; cbn [fst] in H0.
  rewrite H0; cbn [negb].
  apply IH; intros i Hi; rewrite candidate_tail; apply Hocc; lia.
Qed.

Lemma placed_inv :
  forall cfg f snake now res,
    placed cfg f snake now res ->
    (fst res = true ->
     Food.active (snd res) = true /\
     exists p, Food.position (snd res) = Some p /\
               Snake.isPositionOccupied snake p = false) /\
    (fst res = false -> snd res = f).
Proof.
  intros cfg f snake now res [|p Hfree]; cbn [fst snd]; split; intros H;
    try discriminate; try reflexivity.
  split; [reflexivity | exists p; split; [reflexivity | assumption]].
Qed.

(** The first attempt that draws a cell off the snake ends the loop: the
    food is placed on that cell and the stream has lost the two draws of
    each attempt made. *)
Lemma attemptLoop_first_free_candidate :
  forall cfg remaining f snake now r i,
    (i < remaining)%nat ->
    (forall j, (j < i)%nat ->
               Snake.isPositionOccupied snake (candidate cfg r j) = true) ->
    Snake.isPositionOccupied snake (candidate cfg r i) = false ->
    fst (Food.attemptLoop cfg remaining f snake r now)
    = (true, Food.placeAt cfg f (candidate cfg r i) now) /\
    forall n, snd (Food.attemptLoop cfg remaining f snake r now) n
              = r (2 * (i + 1) + n)%nat.
Proof.
  intros cfg remaining f snake now.
  induction remaining as [|k IH]; intros r i Hi Hocc Hfree; [lia|].
  rewrite attemptLoop_S.
  destruct i as [|i].
  - rewrite <- getRandomPosition_candidate in Hfree.
    unfold utils.getRandomPosition, Math_random in *; cbn [fst] in Hfree.
    rewrite Hfree; cbn [negb fst snd].
    split; [reflexivity | intros n; reflexivity].
  - pose proof (Hocc 0%nat ltac:(lia)) as H0.
    rewrite <- getRandomPosition_candidate in H0.
    unfold utils.getRandomPosition, Math_random in *; cbn [fst] in H0.
    rewrite H0; cbn [negb].
    destruct (IH (fun n => r (S (S n))) i ltac:(lia)) as [Hres Hrng].
    + intros j Hj; rewrite candidate_tail; apply Hocc; lia.
    + rewrite candidate_tail; exact Hfree.
    + split.
      * rewrite Hres, candidate_tail; reflexivity.
      * intros n; rewrite Hrng; f_equal; lia.
Qed.

(** When every attempt draws a cell of the snake, all the draws of the
    loop are spent. *)
Lemma attemptLoop_exhausted_draws :
  forall cfg remaining f snake now r,
    (forall i, (i < remaining)%nat ->
               Snake.isPositionOccupied snake (candidate cfg r i) = true) ->
    forall n, snd (Food.attemptLoop cfg remaining f snake r now) n
              = r (2 * remaining + n)%nat.
Proof.
  intros cfg remaining f snake now.
  induction remaining as [|k IH]; intros r Hocc n; [reflexivity|].
  rewrite attemptLoop_S.
  pose proof (Hocc 0%nat ltac:(lia)) as H0.
  rewrite <- getRandomPosition_candidate in H0.
  unfold utils.getRandomPosition, Math_random in *; cbn [fst] in H0.
  rewrite H0; cbn [negb].
  rewrite IH; [f_equal; lia|].
  intros i Hi; rewrite candidate_tail; apply Hocc; lia.
Qed.

Lemma isValidPosition_bounds :
  forall cfg p,
    utils.isValidPosition cfg p = true
    <-> 0 <= x p < board_columns cfg /\ 0 <= y p < board_rows cfg.
Proof.
  intros cfg p; unfold utils.isValidPosition.
  rewrite !andb_true_iff, !Z.geb_le, !Z.ltb_lt; lia.
Qed.

Lemma rowMajorBefore_asym :
  forall p q, rowMajorBefore p q -> rowMajorBefore q p -> False.
Proof. intros p q; unfold rowMajorBefore; lia. Qed.

(** The scan places the food on the free cell of the board that comes
    first in row-major order. *)
Lemma findAvailablePosition_at_first_free :
  forall cfg f snake now p,
    utils.isValidPosition cfg p = true ->
    Snake.isPositionOccupied snake p = false ->
    (forall q, utils.isValidPosition cfg q = true ->
               Snake.isPositionOccupied snake q = false ->
               q = p \/ rowMajorBefore p q) ->
    Food.findAvailablePosition cfg f snake now = (true, Food.placeAt cfg f p now).
Proof.
  intros cfg f snake now p Hv Hfree Hfirst.
  pose proof (findAvailablePosition_complete cfg f snake now p Hv Hfree) as Hyes.
  destruct (findAvailablePosition_first_free cfg f snake now Hyes)
    as (p' & Hsnd & Hv' & Hfree' & Hfirst').
  assert (Heq : p' = p).
  { destruct (Hfirst p' Hv' Hfree') as [E | Hlt]; [exact E|].
    destruct (utils.positionsEqual p p') eqn:Ep.
    - apply positionsEqual_eq in Ep; symmetry; exact Ep.
    - apply positionsEqual_neq in Ep.
      exfalso; apply (rowMajorBefore_asym p p' Hlt).
      apply Hfirst'; assumption. }
  subst p'.
  destruct (Food.findAvailablePosition cfg f snake now) as [ok f'].
  cbn [fst snd] in *; subst; reflexivity.
Qed.

(** With draws from the unit interval on a board with a cell, a placement
    that succeeds is on a free cell of the board. *)
Lemma attemptLoop_valid :
  forall cfg remaining f snake r now,
    0 < board_columns cfg -> 0 < board_rows cfg -> Rng_ok r ->
    fst (Food.attemptLoop cfg remaining f snake r now) = (false, f) \/
    exists p,
      fst (Food.attemptLoop cfg remaining f snake r now)
      = (true, Food.placeAt cfg f p now) /\
      utils.isValidPosition cfg p = true /\
      Snake.isPositionOccupied snake p = false.
Proof.
  intros cfg remaining f snake r now Hc Hr; revert r.
  induction remaining as [|k IH]; intros r Hok.
  - change (fst (Food.attemptLoop cfg 0 f snake r now))
      with (Food.findAvailablePosition cfg f snake now).
    pose proof (findAvailablePosition_first_free cfg f snake now) as Hyes.
    destruct (placed_inv _ _ _ _ _ (findAvailablePosition_placed cfg f snake now))
      as [_ Hno].
    destruct (Food.findAvailablePosition cfg f snake now) as [[|] f']; cbn [fst snd] in *.
    + right; destruct (Hyes eq_refl) as (p & -> & Hv & Hfree & _).
      exists p; auto.
    + left; rewrite (Hno eq_refl); reflexivity.
  - rewrite attemptLoop_S.
    destruct (getRandomPosition_valid cfg r Hc Hr Hok) as [Hv Hok'].
    destruct (utils.getRandomPosition cfg r) as [q r']; cbn [fst snd] in Hv, Hok'.
    destruct (Snake.isPositionOccupied snake q) eqn:E; cbn [negb].
    + apply IH; assumption.
    + right; exists q; auto.
Qed.

(** C6. [generateNewPosition] makes at most [maxAttempts], that is 100,
    random attempts and then scans the board. Attempt [i] draws two
    numbers [u] and [v] and proposes the cell
    [(floor (u * columns), floor (v * rows))]. The first attempt whose cell
    is not a segment of the snake ends the call: the food is placed on
    that cell, and two draws have been taken for each attempt made. When
    all 100 attempts propose cells of the snake, 200 draws have been
    taken and the board is scanned row by row, each row by column: the
    food is placed on the free cell of the board that comes first in that
    order, and when no cell of the board is free the call returns [false].
    A call that returns [true] leaves the food active on a cell that is no
    segment of the snake; a call that returns [false] leaves the food
    exactly as it was. The call returns [true] whenever some cell of the
    board is free, and with draws from the unit interval on a board with
    at least one cell the cell it places the food on is a cell of the
    board. When the snake covers every cell of a board with at
    least one cell, the call returns [false] on every stream of draws, and
    a food that was inactive stays inactive. The call never raises: the
    function is total. *)
Theorem generateNewPosition_succeeds_iff_a_cell_is_free :
  forall (cfg : GameConfig) (f : Food.t) (snake : Snake.t) (r : Rng) (now : Z),
    Food.maxAttempts = 100%nat /\
    (forall i,
        candidate cfg r i
        = mkPosition
            (Qfloor (Number.mul (r (2 * i)%nat) (inject_Z (board_columns cfg))))
            (Qfloor (Number.mul (r (2 * i + 1)%nat) (inject_Z (board_rows cfg))))) /\
    (forall i,
        (i < 100)%nat ->
        (forall j, (j < i)%nat -> In (candidate cfg r j) (Snake.body snake)) ->
        ~ In (candidate cfg r i) (Snake.body snake) ->
        fst (Food.generateNewPosition cfg f snake r now)
        = (true, Food.placeAt cfg f (candidate cfg r i) now) /\
        forall n, snd (Food.generateNewPosition cfg f snake r now) n
                  = r (2 * (i + 1) + n)%nat) /\
    ((forall i, (i < 100)%nat -> In (candidate cfg r i) (Snake.body snake)) ->
     (forall n, snd (Food.generateNewPosition cfg f snake r now) n
                = r (200 + n)%nat) /\
     (forall p,
         0 <= x p < board_columns cfg -> 0 <= y p < board_rows cfg ->
         ~ In p (Snake.body snake) ->
         (forall q,
             0 <= x q < board_columns cfg -> 0 <= y q < board_rows cfg ->
             ~ In q (Snake.body snake) ->
             q = p \/ y p < y q \/ (y p = y q /\ x p < x q)) ->
         fst (Food.generateNewPosition cfg f snake r now)
         = (true, Food.placeAt cfg f p now)) /\
     ((forall p,
          0 <= x p < board_columns cfg -> 0 <= y p < board_rows cfg ->
          In p (Snake.body snake)) ->
      fst (Food.generateNewPosition cfg f snake r now) = (false, f))) /\
    (forall p,
        Food.position (Food.placeAt cfg f p now) = Some p /\
        Food.active (Food.placeAt cfg f p now) = true /\
        Food.spawnTime (Food.placeAt cfg f p now) = now) /\
    (fst (fst (Food.generateNewPosition cfg f snake r now)) = true ->
     Food.active (snd (fst (Food.generateNewPosition cfg f snake r now))) = true /\
     exists p,
       Food.position (snd (fst (Food.generateNewPosition cfg f snake r now))) = Some p /\
       ~ In p (Snake.body snake)) /\
    (fst (fst (Food.generateNewPosition cfg f snake r now)) = false ->
     snd (fst (Food.generateNewPosition cfg f snake r now)) = f) /\
    ((exists p,
         (0 <= x p < board_columns cfg /\ 0 <= y p < board_rows cfg) /\
         ~ In p (Snake.body snake)) ->
     fst (fst (Food.generateNewPosition cfg f snake r now)) = true) /\
    (0 < board_columns cfg -> 0 < board_rows cfg -> Rng_ok r ->
     fst (fst (Food.generateNewPosition cfg f snake r now)) = true ->
     exists p,
       fst (Food.generateNewPosition cfg f snake r now)
       = (true, Food.placeAt cfg f p now) /\
       (0 <= x p < board_columns cfg /\ 0 <= y p < board_rows cfg) /\
       ~ In p (Snake.body snake)) /\
    (0 < board_columns cfg -> 0 < board_rows cfg -> Rng_ok r ->
     (forall p,
         0 <= x p < board_columns cfg -> 0 <= y p < board_rows cfg ->
         In p (Snake.body snake)) ->
     fst (Food.generateNewPosition cfg f snake r now) = (false, f) /\
     (Food.active f = false ->
      Food.active (snd (fst (Food.generateNewPosition cfg f snake r now))) = false)).
Proof.
  intros cfg f snake r now; unfold Food.generateNewPosition.
  destruct (placed_inv _ _ _ _ _ (attemptLoop_placed cfg Food.maxAttempts f snake r now))
    as [Hyes Hno].
  assert (Hfull : (forall p,
                      0 <= x p < board_columns cfg -> 0 <= y p < board_rows cfg ->
                      In p (Snake.body snake)) ->
                  forall p, utils.isValidPosition cfg p = true ->
                            Snake.isPositionOccupied snake p = true).
  { intros H p Hv; apply isValidPosition_bounds in Hv as [Hx Hy].
    apply isPositionOccupied_In; apply H; assumption. }
  split; [reflexivity|].
  split; [intros i; reflexivity|].
  split; [|split; [|split; [|split; [|split; [|split; [|split]]]]]].
  - intros i Hi Hocc Hfree.
    apply attemptLoop_first_free_candidate.
    + exact Hi.
    + intros j Hj; apply isPositionOccupied_In; apply Hocc; exact Hj.
    + apply isPositionOccupied_not_In; exact Hfree.
  - intros Hocc.
    assert (Hocc' : forall i, (i < Food.maxAttempts)%nat ->
                              Snake.isPositionOccupied snake (candidate cfg r i) = true).
    { intros i Hi; apply isPositionOccupied_In; apply Hocc; exact Hi. }
    rewrite (attemptLoop_exhausted cfg Food.maxAttempts f snake r now Hocc').
    split; [|split].
    + intros n.
      rewrite (attemptLoop_exhausted_draws cfg Food.maxAttempts f snake now r Hocc' n).
      reflexivity.
    + intros p Hx Hy Hfree Hfirst.
      apply findAvailablePosition_at_first_free.
      * apply isValidPosition_bounds; split; assumption.
      * apply isPositionOccupied_not_In; exact Hfree.
      * intros q Hv Hq; apply isValidPosition_bounds in Hv as [Hqx Hqy].
        apply isPositionOccupied_not_In in Hq.
        exact (Hfirst q Hqx Hqy Hq).
    + intros H; apply findAvailablePosition_full; apply Hfull; exact H.
  - intros p; repeat split.
  - intros Hok; destruct (Hyes Hok) as (Ha & p & Hp & Hfree).
    split; [exact Ha|].
    exists p; split; [exact Hp | apply isPositionOccupied_not_In; exact Hfree].
  - exact Hno.
  - intros (p & [Hx Hy] & Hfree).
    apply (attemptLoop_complete cfg Food.maxAttempts f snake r now p).
    + apply isValidPosition_bounds; split; assumption.
    + apply isPositionOccupied_not_In; exact Hfree.
  - intros Hc Hr Hok Hyes'.
    destruct (attemptLoop_valid cfg Food.maxAttempts f snake r now Hc Hr Hok)
      as [E | (p & E & Hv & Hfree)].
    + rewrite E in Hyes'; discriminate Hyes'.
    + exists p; split; [exact E|].
      split; [apply isValidPosition_bounds; exact Hv|].
      apply isPositionOccupied_not_In; exact Hfree.
  - intros Hc Hr Hok H.
    rewrite (attemptLoop_full cfg Food.maxAttempts f snake r now Hc Hr Hok (Hfull H)).
    split; [reflexivity | intros Ha; exact Ha].
Qed.

(** On the full small board placement fails and the food stays inactive;
    with one cell left the scan finds it although every random attempt
    lands on the snake. *)
Example placement_on_full_board :
  fst (Food.generateNewPosition Sample.small (Food.new Sample.small)
                                Sample.filling Sample.half 0)
  = (false, Food.new Sample.small) /\
  Food.position
    (snd (fst (Food.generateNewPosition Sample.small (Food.new Sample.small)
                                        Sample.almostFilling Sample.zeros 0)))
  = Some (Sample.at_ 0 1).
Proof. split; vm_compute; reflexivity. Qed.

(** The same on the board of the source, all 900 cells taken. *)
Example placement_on_full_source_board :
  fst (Food.generateNewPosition gameConfig (Food.new gameConfig)
                                Sample.covering Sample.half 0)
  = (false, Food.new gameConfig).
Proof. vm_compute; reflexivity. Qed.

(** An attempt at a draw whose product with the number of columns rounds
    up to an integer: the draw nearest to [16/30] proposes column 16, next
    to the head of the snake at (15,15), and the food is placed there. *)
Example placement_at_a_rounding_boundary :
  Snake.body (Snake.reset gameConfig)
  = [Sample.at_ 15 15; Sample.at_ 14 15; Sample.at_ 13 15] /\
  fst (Food.generateNewPosition
         gameConfig (Food.new gameConfig) (Snake.reset gameConfig)
         (Sample.draws [4803839602528529 # 9007199254740992; 1 # 2] (1 # 2)) 0)
  = (true, Food.placeAt gameConfig (Food.new gameConfig) (Sample.at_ 16 15) 0).
Proof. split; vm_compute; reflexivity. Qed.

(** ** Variants of the food *)

Lemma generateNewPosition_placed :
  forall cfg f snake r now,
    placed cfg f snake now (fst (Food.generateNewPosition cfg f snake r now)).
Proof. intros; apply attemptLoop_placed. Qed.


Lemma consume_fields :
  forall f,
    Food.type (snd (Food.consume f)) = Food.type f /\
    (Food.active f = true ->
     fst (Food.consume f) = Food.value f /\
     Food.active (snd (Food.consume f)) = false /\
     Food.position (snd (Food.consume f)) = None) /\
    (Food.active f = false -> Food.consume f = (0, f)).
Proof.
  intros f; unfold Food.consume; destruct (Food.active f); simpl;
    repeat split; intros; try discriminate; reflexivity.
Qed.





(** What [handleFoodCollision] does to the controller. *)
Lemma handleFoodCollision_fields :
  forall cfg g fc r now,
    let g' := fst (Game.handleFoodCollision cfg g fc r now) in
    Game.snake g' = Snake.grow (Game.snake g) /\
    Game.state g' = Game.state g /\
    Game.paused g' = Game.paused g /\
    Game.gameLoopId g' = Game.gameLoopId g /\
    Game.score g' = Game.score g + fst (Food.consume (Game.food g)) /\
    placed cfg (snd (Food.consume (Game.food g))) (Snake.grow (Game.snake g)) now
           (fst (Food.generateNewPosition cfg (snd (Food.consume (Game.food g)))
                                          (Snake.grow (Game.snake g)) r now)) /\
    Game.food g' = snd (fst (Food.generateNewPosition cfg (snd (Food.consume (Game.food g)))
                                                      (Snake.grow (Game.snake g)) r now)).
Proof.
  intros cfg g fc r now; unfold Game.handleFoodCollision.
  pose proof (generateNewPosition_placed cfg (snd (Food.consume (Game.food g)))
                (Snake.grow (Game.snake g)) r now) as Hp.
  destruct (Food.consume (Game.food g)) as [pts f1]; cbn [fst snd] in *.
  cbn [Game.with_food Game.with_score Game.with_snake Game.snake Game.food].
  destruct (Food.generateNewPosition cfg f1 (Snake.grow (Game.snake g)) r now)
    as [[ok f2] r'].
  cbn [fst snd] in *.
  destruct (CollisionDetector.specialEffect fc) as [effect|];
    [unfold Game.handleSpecialEffect; destruct (String.eqb _ _)|];
    simpl; repeat split; assumption.
Qed.


(** ** The tick *)

(** The shape of a tick that returns: either the controller is not running
    and nothing happens, or the snake moves, the collisions are classified
    on the moved snake and the food as it was, the food collision is
    handled first, and then the game ends or the food and the speed are
    updated. *)
Lemma update_inv :
  forall cfg g r now g' r',
    Game.update cfg g r now = Some (g', r') ->
    (g' = g /\ r' = r /\ (Game.state g <> PLAYING \/ Game.paused g = true)) \/
    (Game.state g = PLAYING /\ Game.paused g = false /\
     exists moved c g2 r2,
       Snake.move (Game.snake g) = Some moved /\
       CollisionDetector.checkAllCollisions cfg moved (Game.food g) = Some c /\
       (g2, r2) =
         (if CollisionDetector.food_detected (CollisionDetector.food c)
          then Game.handleFoodCollision cfg (Game.with_snake g moved)
                                        (CollisionDetector.food c) r now
          else (Game.with_snake g moved, r)) /\
       ((CollisionDetector.gameEnding c = true /\
         g' = Game.gameOver g2 now /\ r' = r2) \/
        (CollisionDetector.gameEnding c = false /\
         g' = Game.updateGameSpeed cfg
                (Game.with_food g2 (fst (Food.update cfg (Game.food g2) (Game.score g2) r2 now))) /\
         r' = snd (Food.update cfg (Game.food g2) (Game.score g2) r2 now)))).
Proof.
  intros cfg g r now g' r'; unfold Game.update.
  destruct (GameState_eqb (Game.state g) PLAYING) eqn:Es; cbn [negb orb].
  - apply GameState_eqb_eq in Es.
    destruct (Game.paused g) eqn:Ep.
    + intros H; injection H as <- <-; left; auto.
    + destruct (Snake.move (Game.snake g)) as [moved|] eqn:Em; [|discriminate].
      cbn [Game.with_snake Game.snake Game.food].
      destruct (CollisionDetector.checkAllCollisions cfg moved (Game.food g)) as [c|] eqn:Ec;
        [|discriminate].
      intros H; right; split; [assumption|]; split; [reflexivity|].
      destruct (if CollisionDetector.food_detected (CollisionDetector.food c)
                then Game.handleFoodCollision cfg (Game.with_snake g moved)
                                              (CollisionDetector.food c) r now
                else (Game.with_snake g moved, r)) as [g2 r2] eqn:E2.
      exists moved, c, g2, r2; split; [reflexivity|]; split; [exact Ec|].
      split; [symmetry; exact E2|].
      destruct (CollisionDetector.gameEnding c).
      * injection H as <- <-; left; auto.
      * destruct (Food.update cfg (Game.food g2) (Game.score g2) r2 now) as [f3 r3].
        injection H as <- <-; right; auto.
  - apply GameState_eqb_neq in Es.
    intros H; injection H as <- <-; left; auto.
Qed.


(** ** Frames and entry points *)

(** A frame is a tick or nothing, then the clock and the frame request are
    written. *)
Lemma gameLoop_inv :
  forall cfg g r t g' r',
    Game.gameLoop cfg g r t = Some (g', r') ->
    exists g1,
      ((g1 = g /\ r' = r) \/
       (exists gu, Game.update cfg g r t = Some (gu, r') /\
                   g1 = Game.with_lastUpdateTime gu t)) /\
      (g' = g1 \/ g' = Game.with_gameLoopId g1 true).
Proof.
  intros cfg g r t g' r'; unfold Game.gameLoop.
  destruct (t - Game.lastUpdateTime g >=? Game.speed g).
  - destruct (Game.update cfg g r t) as [[gu ru]|] eqn:Eu; [|discriminate].
    intros H; exists (Game.with_lastUpdateTime gu t); split.
    + right; exists gu; split; [|reflexivity].
      destruct (_ && _); injection H as _ <-; reflexivity.
    + destruct (_ && _); injection H as <- _; auto.
  - intros H; exists g; split.
    + left; destruct (_ && _); injection H as _ <-; auto.
    + destruct (_ && _); injection H as <- _; auto.
Qed.

Lemma startGameLoop_inv :
  forall cfg g r t g' r',
    Game.startGameLoop cfg g r t = Some (g', r') ->
    Game.gameLoop cfg (Game.with_lastUpdateTime (Game.with_gameLoopId g false) t) r t
    = Some (g', r').
Proof.
  intros cfg g r t g' r'; unfold Game.startGameLoop, Game.stopGameLoop.
  destruct g as [sn fd sc hs st lu [|] sp pa gs ge tm sto]; simpl; auto.
Qed.







(** A tick in which the food is eaten, placed again and upgraded: the
    food placed by the first frame of [Sample.speedSession] is mega at the
    end of that frame. *)
Example tick_upgrades_the_placed_food :
  option_map (fun g => (Food.type (Game.food g), Food.value (Game.food g),
                        Food.position (Game.food g)))
             (run gameConfig (Game.new gameConfig 0)
                  (List.firstn 2 Sample.speedSession))
  = Some (Food.mega, 50, Some (Sample.at_ 17 15)).
Proof. vm_compute; reflexivity. Qed.

(** ** Collisions of a tick *)

Lemma checkAllCollisions_inv :
  forall cfg s f c,
    CollisionDetector.checkAllCollisions cfg s f = Some c ->
    exists head,
      Snake.getHead s = Some head /\
      CollisionDetector.boundary c = CollisionDetector.checkBoundaryCollision cfg head /\
      CollisionDetector.self c = CollisionDetector.checkSelfCollision s /\
      CollisionDetector.checkFoodCollision s f = Some (CollisionDetector.food c) /\
      CollisionDetector.gameEnding c =
        CollisionDetector.boundary_detected (CollisionDetector.boundary c)
        || CollisionDetector.self_detected (CollisionDetector.self c).
Proof.
  intros cfg s f c; unfold CollisionDetector.checkAllCollisions.
  destruct (Snake.getHead s) as [head|]; [|discriminate].
  destruct (CollisionDetector.checkFoodCollision s f) as [fc|]; [|discriminate].
  intros H; injection H as <-; exists head; repeat split.
Qed.

Lemma checkFoodCollision_detected :
  forall s f fc,
    CollisionDetector.checkFoodCollision s f = Some fc ->
    CollisionDetector.food_detected fc = true ->
    Food.active f = true /\
    (exists p, Food.position f = Some p /\ Snake.getHead s = Some p) /\
    CollisionDetector.points fc = Food.value f /\
    CollisionDetector.specialEffect fc = Food.specialFood f.
Proof.
  intros s f fc; unfold CollisionDetector.checkFoodCollision, Food.isEaten.
  destruct (Food.active f); [|intros H; injection H as <-; discriminate].
  destruct (Food.position f) as [p|]; [|intros H; injection H as <-; discriminate].
  destruct (Snake.getHead s) as [h|]; [|discriminate].
  destruct (utils.positionsEqual p h) eqn:E;
    intros H; injection H as <-; [|discriminate].
  intros _; apply positionsEqual_eq in E; subst h.
  repeat split; exists p; auto.
Qed.

Lemma checkFoodCollision_undetected :
  forall s f fc p h,
    CollisionDetector.checkFoodCollision s f = Some fc ->
    CollisionDetector.food_detected fc = false ->
    Food.active f = true -> Food.position f = Some p -> Snake.getHead s = Some h ->
    p <> h.
Proof.
  intros s f fc p h; unfold CollisionDetector.checkFoodCollision, Food.isEaten.
  intros H Hd Ha Hp Hh; rewrite Ha, Hp, Hh in H.
  destruct (utils.positionsEqual p h) eqn:E; injection H as <-; [discriminate|].
  apply positionsEqual_neq; assumption.
Qed.

Lemma gameOver_fields :
  forall g now,
    Game.state (Game.gameOver g now) = GAME_OVER /\
    Game.score (Game.gameOver g now) = Game.score g /\
    Game.snake (Game.gameOver g now) = Game.snake g /\
    Game.food (Game.gameOver g now) = Game.food g /\
    Game.speed (Game.gameOver g now) = Game.speed g /\
    Game.timers (Game.gameOver g now) = Game.timers g.
Proof.
  intros g now; unfold Game.gameOver, Game.stopGameLoop.
  destruct (Game.gameLoopId g); repeat split.
Qed.

(** The order of the two handlers in [update]: on any controller state,
    reached in a session or not, a tick whose collision check reports both
    a food collision and a game-ending one handles the food first and then
    ends the game. No session reaches such a tick (see
    [lethal_step_is_never_on_food_in_a_session] below); it takes a food put
    under the snake with the hook [setPosition]. *)
Lemma food_collision_is_handled_before_the_end :
  forall (cfg : GameConfig) (g : Game.t) (r : Rng) (now : Z)
         (moved : Snake.t) (c : CollisionDetector.Results),
    Game.state g = PLAYING ->
    Game.paused g = false ->
    Snake.move (Game.snake g) = Some moved ->
    CollisionDetector.checkAllCollisions cfg moved (Game.food g) = Some c ->
    CollisionDetector.food_detected (CollisionDetector.food c) = true ->
    CollisionDetector.gameEnding c = true ->
    exists g' r',
      Game.update cfg g r now = Some (g', r') /\
      Game.state g' = GAME_OVER /\
      Game.score g' = Game.score g + Food.value (Game.food g).
Proof.
  intros cfg g r now moved c Hs Hp Hm Hc Hf He.
  unfold Game.update; rewrite Hs, Hp, Hm; cbn [GameState_eqb negb orb].
  cbn [Game.with_snake Game.snake Game.food]; rewrite Hc, Hf, He.
  pose proof (handleFoodCollision_fields cfg (Game.with_snake g moved)
                (CollisionDetector.food c) r now) as (_ & _ & _ & _ & Hsc & _).
  unfold Game.with_snake in Hsc at 2 3; cbn [Game.score Game.food] in Hsc.
  destruct (Game.handleFoodCollision cfg (Game.with_snake g moved)
              (CollisionDetector.food c) r now) as [g2 r2]; cbn [fst] in Hsc.
  exists (Game.gameOver g2 now), r2; split; [reflexivity|].
  destruct (gameOver_fields g2 now) as (Hst & Hscore & _).
  split; [assumption|]; rewrite Hscore, Hsc; f_equal.
  apply checkAllCollisions_inv in Hc as (head & _ & _ & _ & Hfc & _).
  apply checkFoodCollision_detected in Hfc as (Ha & _); [|assumption].
  apply consume_fields; assumption.
Qed.

(** The hook [setPosition], which the controller never calls, puts the food
    on the curled snake's fourth segment: the tick then ends the game with
    the score gone from 40 to 50. *)
Example forced_food_under_the_snake :
  exists g' r',
    Game.update gameConfig Sample.curledGame Sample.half 1150 = Some (g', r') /\
    Game.state g' = GAME_OVER /\
    Game.score g' = 50.
Proof. eexists; eexists; split; [vm_compute; reflexivity | split; reflexivity]. Qed.

(** ** The speed effect *)


(** The speed variant carries the effect of 5000 milliseconds. *)
Lemma makeSpecial_speed_effect :
  forall cfg f,
    Food.specialFood (Food.makeSpecial cfg f (Some Food.speed))
    = Some {| Food.effect_type := "speed"; Food.duration := 5000 |} /\
    Food.value (Food.makeSpecial cfg f (Some Food.speed)) = food_points cfg.
Proof. intros; split; reflexivity. Qed.

(** Lowering a score-derived interval by 50, not below 50, takes it below
    the interval derived from the score after fewer than 900 more
    points. *)
Lemma boosted_below_scoreSpeed :
  forall cfg old v,
    0 <= v < 900 ->
    Z.max 50 (scoreSpeed cfg old - 50) < scoreSpeed cfg (old + v).
Proof.
  intros cfg old v Hv; unfold scoreSpeed.
  assert (H : (old + v) / 100 <= old / 100 + 9).
  { replace (old / 100 + 9) with ((old + 9 * 100) / 100)
      by (rewrite Z.div_add by lia; reflexivity).
    apply Z.div_le_mono; lia. }
  lia.
Qed.

(** [handleSpecialEffect] on its own: a speed effect lowers the interval by
    50 milliseconds, not below 50, and registers a callback due after the
    effect's duration that holds the interval of before; when that
    callback is the oldest one registered and runs, it sets the interval
    to the captured value and touches nothing else. *)
Lemma handleSpecialEffect_speed :
  forall (cfg : GameConfig) (g : Game.t) (effect : Food.SpecialEffect) (now : Z),
    Food.effect_type effect = "speed"%string ->
    Game.speed (Game.handleSpecialEffect g effect now) = Z.max 50 (Game.speed g - 50) /\
    (50 < Game.speed g ->
     Game.speed (Game.handleSpecialEffect g effect now) < Game.speed g) /\
    (forall old v,
        Game.speed g = scoreSpeed cfg old -> 0 <= v < 900 ->
        Game.speed (Game.handleSpecialEffect g effect now) < scoreSpeed cfg (old + v)) /\
    Game.timers (Game.handleSpecialEffect g effect now)
    = Game.timers g ++ [(now + Food.duration effect, Game.speed g)] /\
    Game.score (Game.handleSpecialEffect g effect now) = Game.score g /\
    (forall (later : Game.t) (pending : list (Z * Z)),
        Game.timers later = (now + Food.duration effect, Game.speed g) :: pending ->
        Game.speed (Game.runTimer later) = Game.speed g /\
        Game.timers (Game.runTimer later) = pending /\
        Game.score (Game.runTimer later) = Game.score later /\
        Game.state (Game.runTimer later) = Game.state later).
Proof.
  intros cfg g effect now He; unfold Game.handleSpecialEffect; rewrite He.
  cbn [String.eqb Ascii.eqb Bool.eqb andb].
  cbn [Game.with_timers Game.with_speed Game.speed Game.timers Game.score].
  split; [reflexivity|].
  split; [intros; lia|].
  split; [intros old v -> Hv; apply boosted_below_scoreSpeed; assumption|].
  split; [reflexivity|].
  split; [reflexivity|].
  intros later pending Ht; unfold Game.runTimer; rewrite Ht.
  repeat split.
Qed.

(** ** The random stream across a tick *)

Lemma Rng_suffix_refl : forall r, Rng_suffix r r.
Proof. intros r; exists 0%nat; reflexivity. Qed.

Lemma Rng_suffix_trans :
  forall r1 r2 r3, Rng_suffix r1 r2 -> Rng_suffix r2 r3 -> Rng_suffix r1 r3.
Proof.
  intros r1 r2 r3 [k Hk] [j Hj]; exists (k + j)%nat; intros n.
  rewrite Hj, Hk; f_equal; lia.
Qed.

Lemma Rng_suffix_ok : forall r r', Rng_suffix r r' -> Rng_ok r -> Rng_ok r'.
Proof. intros r r' [k Hk] Hok n; rewrite Hk; apply Hok. Qed.

Lemma generateNewPosition_suffix :
  forall cfg f snake r now,
    Rng_suffix r (snd (Food.generateNewPosition cfg f snake r now)).
Proof.
  intros cfg f snake r now.
  destruct (attemptLoop_draws cfg Food.maxAttempts f snake r now) as (k & _ & Hk).
  exists k; exact Hk.
Qed.

Lemma checkForSpecialFood_suffix :
  forall cfg f sc r, Rng_suffix r (snd (Food.checkForSpecialFood cfg f sc r)).
Proof.
  intros cfg f sc r; unfold Food.checkForSpecialFood.
  destruct (negb (Food.FoodType_eqb (Food.type f) Food.normal)); [apply Rng_suffix_refl|].
  unfold Math_random.
  destruct (negb (Qle_bool (Food.specialChance sc) (r 0%nat))); cbn [snd].
  - exists 2%nat; reflexivity.
  - exists 1%nat; reflexivity.
Qed.

Lemma update_food_suffix :
  forall cfg f sc r now, Rng_suffix r (snd (Food.update cfg f sc r now)).
Proof.
  intros cfg f sc r now; unfold Food.update.
  destruct (negb (Food.active f)); [apply Rng_suffix_refl|].
  pose proof (checkForSpecialFood_suffix cfg
                (if Food.hasExpired f now then Food.resetToNormal cfg f else f) sc r) as H.
  destruct (Food.checkForSpecialFood cfg _ sc r) as [[b f2] r']; exact H.
Qed.

Lemma handleFoodCollision_suffix :
  forall cfg g fc r now,
    Rng_suffix r (snd (Game.handleFoodCollision cfg g fc r now)).
Proof.
  intros cfg g fc r now; unfold Game.handleFoodCollision.
  destruct (Food.consume (Game.food g)) as [pts f1].
  match goal with
  | |- context [Food.generateNewPosition cfg ?f ?s r now] =>
      pose proof (generateNewPosition_suffix cfg f s r now) as H;
      destruct (Food.generateNewPosition cfg f s r now) as [[ok f2] r']
  end.
  exact H.
Qed.

Lemma update_suffix :
  forall cfg g r now g' r',
    Game.update cfg g r now = Some (g', r') -> Rng_suffix r r'.
Proof.
  intros cfg g r now g' r' H.
  apply update_inv in H
    as [(_ & -> & _) | (_ & _ & moved & c & g2 & r2 & _ & _ & E2 & Hend)];
    [apply Rng_suffix_refl|].
  assert (H2 : Rng_suffix r r2).
  { destruct (CollisionDetector.food_detected (CollisionDetector.food c)).
    - pose proof (handleFoodCollision_suffix cfg (Game.with_snake g moved)
                    (CollisionDetector.food c) r now) as Hs.
      rewrite <- E2 in Hs; exact Hs.
    - injection E2 as _ ->; apply Rng_suffix_refl. }
  destruct Hend as [(_ & _ & ->) | (_ & _ & ->)]; [assumption|].
  eapply Rng_suffix_trans; [exact H2 | apply update_food_suffix].
Qed.

(** ** Invariants of a session *)

Section InvariantRule.

Variable cfg : GameConfig.
Variable P : Game.t -> Prop.

Hypothesis P_tick :
  forall g r t g' r', P g -> Rng_ok r -> Game.update cfg g r t = Some (g', r') -> P g'.
Hypothesis P_clock : forall g t, P g -> P (Game.with_lastUpdateTime g t).
Hypothesis P_loop : forall g b, P g -> P (Game.with_gameLoopId g b).
Hypothesis P_place :
  forall g r t, P g -> Rng_ok r ->
    P (Game.with_food g (snd (fst (Food.generateNewPosition
                                     cfg (Game.food g) (Game.snake g) r t)))).
Hypothesis P_entered : forall g t, P (Game.entered cfg g t).
Hypothesis P_pause :
  forall g, P g -> Game.state g = PLAYING -> P (Game.with_state g PAUSED true).
Hypothesis P_resume :
  forall g, P g -> Game.state g = PAUSED -> P (Game.with_state g PLAYING false).
Hypothesis P_turn : forall g d, P g -> P (Game.changeDirection g d).
Hypothesis P_timer : forall g, P g -> P (Game.runTimer g).

Lemma gameLoop_preserves :
  forall g r t g' r',
    P g -> Rng_ok r -> Game.gameLoop cfg g r t = Some (g', r') ->
    P g' /\ Rng_ok r'.
Proof.
  intros g r t g' r' Hg Hr H.
  apply gameLoop_inv in H as (g1 & Hu & Hl).
  assert (H1 : P g1 /\ Rng_ok r').
  { destruct Hu as [[-> ->] | (gu & Hu & ->)]; [auto|].
    split; [apply P_clock; eapply P_tick; eassumption|].
    eapply Rng_suffix_ok; [eapply update_suffix; eassumption | assumption]. }
  destruct H1 as [H1 Hr']; split; [|assumption].
  destruct Hl as [-> | ->]; [assumption | apply P_loop; assumption].
Qed.

Lemma stopGameLoop_preserves : forall g, P g -> P (Game.stopGameLoop g).
Proof.
  intros g Hg; unfold Game.stopGameLoop.
  destruct (Game.gameLoopId g); [apply P_loop|]; assumption.
Qed.

Lemma pause_preserves : forall g, P g -> P (Game.pause g).
Proof.
  intros g Hg; unfold Game.pause.
  destruct (GameState_eqb (Game.state g) PLAYING) eqn:E; cbn [negb]; [|assumption].
  apply GameState_eqb_eq in E.
  apply stopGameLoop_preserves, P_pause; assumption.
Qed.

Lemma resume_preserves :
  forall g r t g' r',
    P g -> Rng_ok r -> Game.resume cfg g r t = Some (g', r') -> P g'.
Proof.
  intros g r t g' r' Hg Hr; unfold Game.resume.
  destruct (GameState_eqb (Game.state g) PAUSED) eqn:E; cbn [negb].
  - apply GameState_eqb_eq in E; intros H.
    apply startGameLoop_inv in H.
    eapply gameLoop_preserves; [| eassumption | eassumption].
    apply P_clock, P_loop, P_resume; assumption.
  - intros H; injection H as <- _; assumption.
Qed.

Lemma start_preserves :
  forall g r t g' r', Rng_ok r -> Game.start cfg g r t = Some (g', r') -> P g'.
Proof.
  intros g r t g' r' Hr; unfold Game.start.
  destruct (Game.startGameLoop cfg (Game.entered cfg g t) r t) as [[g3 r3]|] eqn:E3;
    [|discriminate].
  apply startGameLoop_inv in E3.
  apply gameLoop_preserves in E3 as [H3 Hr3];
    [| apply P_clock, P_loop, P_entered | assumption].
  pose proof (P_place g3 r3 t H3 Hr3) as Hp.
  destruct (Food.generateNewPosition cfg (Game.food g3) (Game.snake g3) r3 t)
    as [[ok f] r4].
  intros H; injection H as <- _; exact Hp.
Qed.

Lemma step_preserves :
  forall g e g', P g -> Event_ok e -> step cfg g e = Some g' -> P g'.
Proof.
  intros g e g' Hg; destruct e as [r t | | r t | r t | r t | d | r t | ]; simpl; intros Hr.
  - destruct (Game.start cfg g r t) as [[g1 r1]|] eqn:E; [|discriminate].
    intros H; injection H as <-; eapply start_preserves; eassumption.
  - intros H; injection H as <-; apply pause_preserves; assumption.
  - destruct (Game.resume cfg g r t) as [[g1 r1]|] eqn:E; [|discriminate].
    intros H; injection H as <-; eapply resume_preserves; eassumption.
  - unfold Game.togglePause.
    destruct (GameState_eqb (Game.state g) PLAYING).
    + intros H; injection H as <-; apply pause_preserves; assumption.
    + destruct (GameState_eqb (Game.state g) PAUSED).
      * destruct (Game.resume cfg g r t) as [[g1 r1]|] eqn:E; [|discriminate].
        intros H; injection H as <-; eapply resume_preserves; eassumption.
      * intros H; injection H as <-; assumption.
  - unfold Game.restart.
    destruct (Game.start cfg (Game.stopGameLoop g) r t) as [[g1 r1]|] eqn:E; [|discriminate].
    intros H; injection H as <-; eapply start_preserves; eassumption.
  - intros H; injection H as <-; apply P_turn; assumption.
  - destruct (Game.gameLoopId g).
    + destruct (Game.gameLoop cfg g r t) as [[g1 r1]|] eqn:E; [|discriminate].
      intros H; injection H as <-.
      eapply gameLoop_preserves; eassumption.
    + intros H; injection H as <-; assumption.
  - intros H; injection H as <-; apply P_timer; assumption.
Qed.

Hypothesis P_new : forall stored, P (Game.new cfg stored).

(** A property that holds of a new controller and is kept by the nine
    building blocks of the entry points holds of every reachable
    state. *)
Lemma reachable_invariant : forall g, reachable cfg g -> P g.
Proof.
  intros g H; induction H as [stored | g e g' _ IH Hok Hstep].
  - apply P_new.
  - eapply step_preserves; eassumption.
Qed.

End InvariantRule.

Lemma run_reachable :
  forall cfg es g g',
    reachable cfg g -> Forall Event_ok es -> run cfg g es = Some g' -> reachable cfg g'.
Proof.
  intros cfg es; induction es as [|e es IH]; intros g g' Hg Hok; simpl.
  - intros H; injection H as <-; assumption.
  - destruct (step cfg g e) as [g1|] eqn:E; [|discriminate].
    inversion Hok as [|? ? He Hes]; subst.
    apply IH; [eapply reachable_step; eassumption | assumption].
Qed.

Lemma draws_ok : forall l d, Forall inUnit l -> inUnit d -> Rng_ok (Sample.draws l d).
Proof.
  intros l d Hl Hd n; unfold Sample.draws.
  destruct (nth_in_or_default n l d) as [Hin | ->]; [|exact Hd].
  rewrite Forall_forall in Hl; apply Hl; assumption.
Qed.

(** ** Distinct segments *)

Lemma In_initialBody :
  forall startX startY n i p,
    In p (Snake.initialBody startX startY i n) ->
    startX - i - Z.of_nat n < x p <= startX - i.
Proof.
  intros startX startY n; induction n as [|n IH]; intros i p; simpl; [intros []|].
  intros [<- | Hin]; [simpl; lia|].
  apply IH in Hin; lia.
Qed.

Lemma initialBody_NoDup :
  forall startX startY n i, NoDup (Snake.initialBody startX startY i n).
Proof.
  intros startX startY n; induction n as [|n IH]; intros i; simpl; constructor.
  - intros Hin; apply In_initialBody in Hin; simpl in Hin; lia.
  - apply IH.
Qed.

Lemma In_removelast : forall (A : Type) (l : list A) (a : A), In a (List.removelast l) -> In a l.
Proof.
  intros A l a; induction l as [|b l IH]; [intros []|].
  destruct l as [|c l]; [intros []|].
  rewrite removelast_cons; intros [<- | Hin]; [left; reflexivity | right; apply IH; assumption].
Qed.

Lemma NoDup_removelast : forall (A : Type) (l : list A), NoDup l -> NoDup (List.removelast l).
Proof.
  intros A l H; induction H as [|a l Hn Hl IH]; [constructor|].
  destruct l as [|c l]; [constructor|].
  rewrite removelast_cons; constructor; [|assumption].
  intros Hin; apply Hn, In_removelast; assumption.
Qed.

Lemma firstMatch_None :
  forall head body i,
    CollisionDetector.firstMatch head body i = None <-> ~ In head body.
Proof.
  intros head body; induction body as [|seg rest IH]; intros i; simpl.
  - split; [intros _ [] | reflexivity].
  - destruct (utils.positionsEqual head seg) eqn:E.
    + apply positionsEqual_eq in E; subst seg.
      split; [discriminate | intros H; exfalso; apply H; left; reflexivity].
    + apply positionsEqual_neq in E; rewrite IH.
      split; [intros H [Heq | Hin]; [congruence | contradiction] | intros H Hin; apply H; right; assumption].
Qed.

Lemma checkSelfCollision_cons :
  forall s head rest,
    Snake.body s = head :: rest ->
    (CollisionDetector.self_detected (CollisionDetector.checkSelfCollision s) = false
     <-> ~ In head rest).
Proof.
  intros s head rest Hb.
  unfold CollisionDetector.checkSelfCollision, Snake.getHead, Snake.getBodyWithoutHead.
  rewrite Hb; simpl.
  rewrite <- (firstMatch_None head rest 0).
  destruct (CollisionDetector.firstMatch head rest 0); simpl; split; congruence.
Qed.

(** After a move of a snake without duplicates the body has a duplicate
    exactly when the head has run into the body. *)
Lemma move_NoDup :
  forall s moved,
    NoDup (Snake.body s) ->
    Snake.move s = Some moved ->
    (NoDup (Snake.body moved)
     <-> CollisionDetector.self_detected (CollisionDetector.checkSelfCollision moved) = false).
Proof.
  intros s moved Hn Hm.
  destruct (Snake.body s) as [|head rest] eqn:Hb;
    [unfold Snake.move, Snake.getHead in Hm; rewrite Hb in Hm; discriminate|].
  rewrite (move_cons s head rest Hb) in Hm; cbv zeta in Hm.
  destruct (Snake.growing s); injection Hm as <-.
  - match goal with
    | |- context [CollisionDetector.checkSelfCollision ?m] =>
        rewrite (checkSelfCollision_cons m _ (head :: rest) eq_refl)
    end.
    cbn [Snake.body]; rewrite NoDup_cons_iff; tauto.
  - match goal with
    | |- context [CollisionDetector.checkSelfCollision ?m] =>
        rewrite (checkSelfCollision_cons m _ (List.removelast (head :: rest)) eq_refl)
    end.
    cbn [Snake.body]; rewrite NoDup_cons_iff.
    pose proof (NoDup_removelast _ _ Hn); tauto.
Qed.

Lemma reset_NoDup : forall cfg, NoDup (Snake.body (Snake.reset cfg)).
Proof. intros cfg; apply initialBody_NoDup. Qed.

(** While the game is not over the snake's segments are distinct. *)
Lemma distinct_while_alive :
  forall cfg g,
    reachable cfg g ->
    Game.state g <> GAME_OVER -> NoDup (Snake.body (Game.snake g)).
Proof.
  intros cfg.
  apply (reachable_invariant
           cfg (fun g => Game.state g <> GAME_OVER -> NoDup (Snake.body (Game.snake g))));
    cbv beta.
  - intros g r t g' r' Hg _ H.
    apply update_inv in H
      as [(-> & _ & _) | (Hs & _ & moved & c & g2 & r2 & Hm & Hc & E2 & Hend)];
      [assumption|].
    assert (H2 : Game.snake g2 = moved \/ Game.snake g2 = Snake.grow moved).
    { destruct (CollisionDetector.food_detected (CollisionDetector.food c)).
      - right.
        destruct (handleFoodCollision_fields cfg (Game.with_snake g moved)
                    (CollisionDetector.food c) r t) as (Hsn & _).
        rewrite <- E2 in Hsn; exact Hsn.
      - left; injection E2 as -> _; reflexivity. }
    destruct Hend as [(_ & -> & _) | (He & -> & _)].
    + intros Hne; exfalso; apply Hne, gameOver_fields.
    + intros _.
      cbn [Game.updateGameSpeed Game.with_speed Game.with_food Game.snake].
      assert (Hb : Snake.body (Game.snake g2) = Snake.body moved)
        by (destruct H2 as [-> | ->]; reflexivity).
      rewrite Hb; apply (move_NoDup (Game.snake g) moved); [|assumption|].
      * apply Hg; congruence.
      * apply checkAllCollisions_inv in Hc as (_ & _ & _ & Hself & _ & Hge).
        rewrite Hge in He; apply orb_false_iff in He as [_ He].
        rewrite <- Hself; exact He.
  - intros g t Hg; exact Hg.
  - intros g b Hg; exact Hg.
  - intros g r t Hg _; exact Hg.
  - intros g t _; apply reset_NoDup.
  - intros g Hg Hs _; apply Hg; congruence.
  - intros g Hg Hs _; apply Hg; congruence.
  - intros g d Hg; unfold Game.changeDirection.
    destruct (_ && _); [|assumption].
    unfold Snake.changeDirection.
    destruct (utils.areDirectionsOpposite d (Snake.direction (Game.snake g))); exact Hg.
  - intros g Hg; unfold Game.runTimer.
    destruct (Game.timers g) as [|[due sp] rest]; exact Hg.
  - intros stored _; apply reset_NoDup.
Qed.

(** ** The sample sessions *)

Ltac in_unit :=
  split; [vm_compute; reflexivity | split; [unfold Qle; simpl; lia | unfold Qlt; simpl; lia]].

Ltac rng_ok := apply draws_ok; [repeat (constructor; [in_unit|]); constructor | in_unit].

Ltac events_ok :=
  repeat (constructor; [simpl; first [exact I | rng_ok] |]); constructor.

Lemma biting_ok : Forall Event_ok Sample.biting.
Proof. unfold Sample.biting, Sample.opening, Sample.half; events_ok. Qed.

Lemma speedSession_ok : Forall Event_ok Sample.speedSession.
Proof. unfold Sample.speedSession; events_ok. Qed.

Lemma opening_ok : Forall Event_ok Sample.opening.
Proof. unfold Sample.opening, Sample.half; events_ok. Qed.

Lemma opening_runs :
  run gameConfig (Game.new gameConfig 0) Sample.opening = Some Sample.coiled.
Proof. vm_compute; reflexivity. Qed.

Lemma coiled_reachable : reachable gameConfig Sample.coiled.
Proof.
  apply (run_reachable gameConfig Sample.opening (Game.new gameConfig 0));
    [apply reachable_new | apply opening_ok | apply opening_runs].
Qed.

Lemma biting_runs :
  run gameConfig (Game.new gameConfig 0) Sample.biting = Some Sample.bitten.
Proof. vm_compute; reflexivity. Qed.

Lemma speedSession_runs :
  run gameConfig (Game.new gameConfig 0) Sample.speedSession = Some Sample.boosted.
Proof. vm_compute; reflexivity. Qed.

Lemma bitten_reachable : reachable gameConfig Sample.bitten.
Proof.
  apply (run_reachable gameConfig Sample.biting (Game.new gameConfig 0));
    [apply reachable_new | apply biting_ok | apply biting_runs].
Qed.

Lemma boosted_reachable : reachable gameConfig Sample.boosted.
Proof.
  apply (run_reachable gameConfig Sample.speedSession (Game.new gameConfig 0));
    [apply reachable_new | apply speedSession_ok | apply speedSession_runs].
Qed.

(** The session [Sample.biting] ends with the game over and the head's
    cell in the body twice. *)
Lemma bitten_body :
  Game.state Sample.bitten = GAME_OVER /\
  Snake.body (Game.snake Sample.bitten)
  = [Sample.at_ 17 15; Sample.at_ 17 16; Sample.at_ 18 16; Sample.at_ 18 15;
     Sample.at_ 17 15].
Proof. split; vm_compute; reflexivity. Qed.

(** The claim as the specification states it fails: the session
    [Sample.biting] ends with the move in which the snake bites itself,
    and in the state it reaches the head's cell is in the body twice. *)
Lemma body_has_duplicate_after_self_collision :
  ~ (forall g, reachable gameConfig g -> NoDup (Snake.body (Game.snake g))).
Proof.
  intros H.
  specialize (H Sample.bitten bitten_reachable).
  destruct bitten_body as [_ Hb]; rewrite Hb in H.
  apply NoDup_cons_iff in H as [Hin _]; apply Hin.
  right; right; right; left; reflexivity.
Qed.


(** ** Sessions never raise *)

Lemma move_total :
  forall s,
    Snake.body s <> [] ->
    exists moved, Snake.move s = Some moved /\ Snake.body moved <> [].
Proof.
  intros s Hb; destruct (Snake.body s) as [|head rest] eqn:E; [contradiction|].
  rewrite (move_cons s head rest E); cbv zeta.
  eexists; split; [reflexivity|].
  destruct (Snake.growing s); discriminate.
Qed.

Lemma checkAllCollisions_total :
  forall cfg s f,
    Snake.body s <> [] ->
    exists c, CollisionDetector.checkAllCollisions cfg s f = Some c.
Proof.
  intros cfg s f Hb.
  unfold CollisionDetector.checkAllCollisions, CollisionDetector.checkFoodCollision,
    Food.isEaten, Snake.getHead.
  destruct (Snake.body s) as [|head rest]; [contradiction|]; cbn [List.hd_error].
  destruct (Food.active f); [|eexists; reflexivity].
  destruct (Food.position f) as [p|]; [|eexists; reflexivity].
  destruct (utils.positionsEqual p head); eexists; reflexivity.
Qed.

Lemma update_total :
  forall cfg g r t,
    Snake.body (Game.snake g) <> [] ->
    exists g' r', Game.update cfg g r t = Some (g', r').
Proof.
  intros cfg g r t Hb; unfold Game.update.
  destruct (negb (GameState_eqb (Game.state g) PLAYING) || Game.paused g);
    [eexists; eexists; reflexivity|].
  destruct (move_total _ Hb) as (moved & -> & Hm).
  cbn [Game.with_snake Game.snake Game.food].
  destruct (checkAllCollisions_total cfg moved (Game.food g) Hm) as (c & ->).
  destruct (if CollisionDetector.food_detected (CollisionDetector.food c)
            then _ else _) as [g2 r2].
  destruct (CollisionDetector.gameEnding c); [eexists; eexists; reflexivity|].
  destruct (Food.update cfg (Game.food g2) (Game.score g2) r2 t) as [f3 r3].
  eexists; eexists; reflexivity.
Qed.

(** The snake a tick leaves behind: the moved snake, marked as growing
    when it ate. *)
Lemma update_snake :
  forall cfg g r t g' r',
    Game.update cfg g r t = Some (g', r') ->
    Game.snake g' = Game.snake g \/
    exists moved,
      Snake.move (Game.snake g) = Some moved /\
      (Game.snake g' = moved \/ Game.snake g' = Snake.grow moved).
Proof.
  intros cfg g r t g' r' H.
  apply update_inv in H
    as [(-> & _ & _) | (_ & _ & moved & c & g2 & r2 & Hm & _ & E2 & Hend)];
    [left; reflexivity|].
  right; exists moved; split; [assumption|].
  assert (H2 : Game.snake g2 = moved \/ Game.snake g2 = Snake.grow moved).
  { destruct (CollisionDetector.food_detected (CollisionDetector.food c)).
    - right.
      destruct (handleFoodCollision_fields cfg (Game.with_snake g moved)
                  (CollisionDetector.food c) r t) as (Hsn & _).
      rewrite <- E2 in Hsn; exact Hsn.
    - left; injection E2 as -> _; reflexivity. }
  destruct Hend as [(_ & -> & _) | (_ & -> & _)].
  - destruct (gameOver_fields g2 t) as (_ & _ & -> & _); exact H2.
  - exact H2.
Qed.

Lemma initialBody_nonempty :
  forall cfg, (1 <= snake_initialLength cfg)%nat -> Snake.body (Snake.reset cfg) <> [].
Proof.
  intros cfg H; unfold Snake.reset; cbn [Snake.body].
  destruct (snake_initialLength cfg); [lia | discriminate].
Qed.

(** With an initial length of at least one the snake always has a head. *)
Lemma snake_has_head :
  forall cfg g,
    (1 <= snake_initialLength cfg)%nat ->
    reachable cfg g -> Snake.body (Game.snake g) <> [].
Proof.
  intros cfg g Hlen.
  apply (reachable_invariant cfg (fun g => Snake.body (Game.snake g) <> [])); cbv beta.
  - intros g0 r t g' r' Hg _ H.
    apply update_snake in H as [-> | (moved & Hm & Hs)]; [assumption|].
    destruct (move_total _ Hg) as (moved' & Hm' & Hne).
    rewrite Hm in Hm'; injection Hm' as <-.
    destruct Hs as [-> | ->]; exact Hne.
  - intros g0 t Hg; exact Hg.
  - intros g0 b Hg; exact Hg.
  - intros g0 r t Hg _; exact Hg.
  - intros g0 t; apply initialBody_nonempty; assumption.
  - intros g0 Hg _; exact Hg.
  - intros g0 Hg _; exact Hg.
  - intros g0 d Hg; unfold Game.changeDirection.
    destruct (_ && _); [|assumption].
    unfold Snake.changeDirection.
    destruct (utils.areDirectionsOpposite d (Snake.direction (Game.snake g0))); exact Hg.
  - intros g0 Hg; unfold Game.runTimer.
    destruct (Game.timers g0) as [|[due sp] rest]; exact Hg.
  - intros stored; apply initialBody_nonempty; assumption.
Qed.

Lemma gameLoop_total :
  forall cfg g r t,
    Snake.body (Game.snake g) <> [] ->
    exists g' r', Game.gameLoop cfg g r t = Some (g', r').
Proof.
  intros cfg g r t Hb; unfold Game.gameLoop.
  destruct (t - Game.lastUpdateTime g >=? Game.speed g);
    [|eexists; eexists; reflexivity].
  destruct (update_total cfg g r t Hb) as (g1 & r1 & ->).
  eexists; eexists; reflexivity.
Qed.

Lemma startGameLoop_total :
  forall cfg g r t,
    Snake.body (Game.snake g) <> [] ->
    exists g' r', Game.startGameLoop cfg g r t = Some (g', r').
Proof.
  intros cfg g r t Hb; unfold Game.startGameLoop.
  apply gameLoop_total.
  unfold Game.stopGameLoop; destruct (Game.gameLoopId g); exact Hb.
Qed.

Lemma start_total :
  forall cfg g r t,
    (1 <= snake_initialLength cfg)%nat ->
    exists g' r', Game.start cfg g r t = Some (g', r').
Proof.
  intros cfg g r t Hlen; unfold Game.start.
  destruct (startGameLoop_total cfg (Game.entered cfg g t) r t) as (g3 & r3 & ->);
    [apply initialBody_nonempty; assumption|].
  destruct (Food.generateNewPosition cfg (Game.food g3) (Game.snake g3) r3 t)
    as [[ok f] r4].
  eexists; eexists; reflexivity.
Qed.

Lemma resume_total :
  forall cfg g r t,
    Snake.body (Game.snake g) <> [] ->
    exists g' r', Game.resume cfg g r t = Some (g', r').
Proof.
  intros cfg g r t Hb; unfold Game.resume.
  destruct (negb (GameState_eqb (Game.state g) PAUSED));
    [eexists; eexists; reflexivity|].
  apply startGameLoop_total; exact Hb.
Qed.

(** No entry point raises in a session: from a reachable state every event
    leads to a state. *)
Lemma step_total :
  forall cfg g e,
    (1 <= snake_initialLength cfg)%nat ->
    reachable cfg g ->
    exists g', step cfg g e = Some g'.
Proof.
  intros cfg g e Hlen Hr.
  pose proof (snake_has_head cfg g Hlen Hr) as Hb.
  destruct e as [r t | | r t | r t | r t | d | r t | ]; simpl;
    try (eexists; reflexivity).
  - destruct (start_total cfg g r t Hlen) as (g' & r' & ->); eexists; reflexivity.
  - destruct (resume_total cfg g r t Hb) as (g' & r' & ->); eexists; reflexivity.
  - unfold Game.togglePause.
    destruct (GameState_eqb (Game.state g) PLAYING); [eexists; reflexivity|].
    destruct (GameState_eqb (Game.state g) PAUSED); [|eexists; reflexivity].
    destruct (resume_total cfg g r t Hb) as (g' & r' & ->); eexists; reflexivity.
  - unfold Game.restart.
    destruct (start_total cfg (Game.stopGameLoop g) r t Hlen) as (g' & r' & ->);
      eexists; reflexivity.
  - destruct (Game.gameLoopId g); [|eexists; reflexivity].
    destruct (gameLoop_total cfg g r t Hb) as (g' & r' & ->); eexists; reflexivity.
Qed.

(** ** Distinct segments in a session *)

(** C3, as the code has it. In every reachable state of a session that is
    not GameOver the snake's body has no duplicate position. From a
    reachable Playing state a move succeeds, when the configured initial
    length is at least one, and after it the body has no duplicate exactly
    when the collision check on the moved snake reports no self collision:
    the move that ends the game by a self collision leaves the head on a
    cell the body also holds. *)
Theorem body_is_distinct_unless_self_collision :
  forall (cfg : GameConfig) (g : Game.t),
    reachable cfg g ->
    (Game.state g <> GAME_OVER -> NoDup (Snake.body (Game.snake g))) /\
    ((1 <= snake_initialLength cfg)%nat ->
     exists moved, Snake.move (Game.snake g) = Some moved) /\
    (Game.state g = PLAYING ->
     forall moved,
       Snake.move (Game.snake g) = Some moved ->
       (NoDup (Snake.body moved)
        <-> CollisionDetector.self_detected
              (CollisionDetector.checkSelfCollision moved) = false)).
Proof.
  intros cfg g Hr; split; [|split].
  - apply (distinct_while_alive cfg); assumption.
  - intros Hlen.
    destruct (move_total _ (snake_has_head cfg g Hlen Hr)) as (moved & Hm & _).
    exists moved; exact Hm.
  - intros Hs moved Hm; apply (move_NoDup (Game.snake g)); [|assumption].
    apply (distinct_while_alive cfg); [assumption | congruence].
Qed.

Lemma body_is_distinct_witness :
  NoDup (Snake.body (Game.snake Sample.coiled)) /\
  exists moved,
    Snake.move (Game.snake Sample.coiled) = Some moved /\
    (NoDup (Snake.body moved)
     <-> CollisionDetector.self_detected
           (CollisionDetector.checkSelfCollision moved) = false).
Proof.
  destruct (body_is_distinct_unless_self_collision
              gameConfig Sample.coiled coiled_reachable) as (Hd & Hm & Hiff).
  assert (Hs : Game.state Sample.coiled = PLAYING) by (vm_compute; reflexivity).
  split; [apply Hd; rewrite Hs; discriminate|].
  destruct (Hm ltac:(simpl; lia)) as (moved & Hmoved).
  exists moved; split; [exact Hmoved | exact (Hiff Hs moved Hmoved)].
Defined.

(** ** The food is never under the snake *)

Lemma update_food_position :
  forall cfg f sc r now,
    Food.position (fst (Food.update cfg f sc r now)) = Food.position f /\
    Food.active (fst (Food.update cfg f sc r now)) = Food.active f.
Proof.
  intros cfg f sc r now; unfold Food.update.
  destruct (negb (Food.active f)); [split; reflexivity|].
  assert (H : forall f0,
             Food.position (snd (fst (Food.checkForSpecialFood cfg f0 sc r)))
             = Food.position f0 /\
             Food.active (snd (fst (Food.checkForSpecialFood cfg f0 sc r)))
             = Food.active f0).
  { intros f0; unfold Food.checkForSpecialFood.
    destruct (negb (Food.FoodType_eqb (Food.type f0) Food.normal)); [split; reflexivity|].
    unfold Math_random.
    destruct (negb (Qle_bool (Food.specialChance sc) (r 0%nat))); [|split; reflexivity].
    cbn [fst snd]; unfold Food.makeSpecial.
    destruct (Food.specialTypes _) as [[| | |]|]; split; reflexivity. }
  specialize (H (if Food.hasExpired f now then Food.resetToNormal cfg f else f)).
  destruct (Food.checkForSpecialFood cfg _ sc r) as [[b f2] r']; cbn [fst snd] in *.
  destruct (Food.hasExpired f now); exact H.
Qed.

Lemma In_moved :
  forall s moved q,
    Snake.move s = Some moved ->
    In q (Snake.body moved) ->
    Snake.getHead moved = Some q \/ In q (Snake.body s).
Proof.
  intros s moved q Hm Hin.
  destruct (Snake.body s) as [|head rest] eqn:Hb;
    [unfold Snake.move, Snake.getHead in Hm; rewrite Hb in Hm; discriminate|].
  rewrite (move_cons s head rest Hb) in Hm; cbv zeta in Hm.
  destruct (Snake.growing s); injection Hm as <-;
    cbn [Snake.body Snake.getHead List.hd_error] in *;
    destruct Hin as [<- | Hin]; auto.
  right; apply In_removelast; assumption.
Qed.

Section FoodClear.

Variable cfg : GameConfig.
Hypothesis columns_positive : 0 < board_columns cfg.
Hypothesis rows_positive : 0 < board_rows cfg.

Lemma place_foodClear :
  forall g r t,
    foodClear cfg g -> Rng_ok r ->
    foodClear cfg
      (Game.with_food g (snd (fst (Food.generateNewPosition
                                     cfg (Game.food g) (Game.snake g) r t)))).
Proof.
  intros g r t Hg Hr; unfold foodClear; cbn [Game.with_food Game.food Game.snake].
  unfold Food.generateNewPosition.
  destruct (attemptLoop_valid cfg Food.maxAttempts (Game.food g) (Game.snake g) r t
              columns_positive rows_positive Hr) as [-> | (p & -> & Hv & Hfree)];
    cbn [fst snd].
  - exact Hg.
  - intros _; exists p; auto.
Qed.

Lemma tick_foodClear :
  forall g r t g' r',
    foodClear cfg g -> Rng_ok r ->
    Game.update cfg g r t = Some (g', r') -> foodClear cfg g'.
Proof.
  intros g r t g' r' Hg Hr H.
  apply update_inv in H
    as [(-> & _ & _) | (_ & _ & moved & c & g2 & r2 & Hm & Hc & E2 & Hend)];
    [assumption|].
  assert (H2 : foodClear cfg g2 /\ Snake.body (Game.snake g2) = Snake.body moved).
  { apply checkAllCollisions_inv in Hc as (head & Hh & _ & _ & Hfc & _).
    destruct (CollisionDetector.food_detected (CollisionDetector.food c)) eqn:Ed.
    - destruct (handleFoodCollision_fields cfg (Game.with_snake g moved)
                  (CollisionDetector.food c) r t) as (Hsn & _ & _ & _ & _ & _ & Hf).
      rewrite <- E2 in Hsn, Hf; cbn [fst] in Hsn, Hf.
      cbn [Game.with_snake Game.snake Game.food] in Hsn, Hf.
      split; [|rewrite Hsn; reflexivity].
      unfold foodClear; rewrite Hf, Hsn.
      apply checkFoodCollision_detected in Hfc as (Ha & _); [|assumption].
      destruct (consume_fields (Game.food g)) as (_ & Hcons & _).
      destruct (Hcons Ha) as (_ & Hinactive & _).
      unfold Food.generateNewPosition.
      destruct (attemptLoop_valid cfg Food.maxAttempts (snd (Food.consume (Game.food g)))
                  (Snake.grow moved) r t columns_positive rows_positive Hr)
        as [-> | (p & -> & Hv & Hfree)]; cbn [fst snd].
      + rewrite Hinactive; discriminate.
      + intros _; exists p; auto.
    - injection E2 as -> _; cbn [Game.with_snake Game.snake].
      split; [|reflexivity].
      unfold foodClear; cbn [Game.with_snake Game.snake Game.food].
      intros Ha; destruct (Hg Ha) as (p & Hp & Hv & Hfree).
      exists p; split; [assumption|]; split; [assumption|].
      apply isPositionOccupied_not_In; intros Hin.
      apply (In_moved _ _ _ Hm) in Hin as [Hhead | Hin].
      + rewrite Hh in Hhead; injection Hhead as ->.
        exact (checkFoodCollision_undetected _ _ _ _ _ Hfc Ed Ha Hp Hh eq_refl).
      + apply isPositionOccupied_not_In in Hfree; contradiction. }
  destruct H2 as [H2 Hb].
  assert (Hocc : forall s1 s2 q, Snake.body s1 = Snake.body s2 ->
                                 Snake.isPositionOccupied s1 q = Snake.isPositionOccupied s2 q)
    by (intros s1 s2 q Heq; unfold Snake.isPositionOccupied; rewrite Heq; reflexivity).
  destruct Hend as [(_ & -> & _) | (_ & -> & _)].
  - destruct (gameOver_fields g2 t) as (_ & _ & Hsn & Hf & _).
    unfold foodClear; rewrite Hsn, Hf; exact H2.
  - unfold foodClear.
    cbn [Game.updateGameSpeed Game.with_speed Game.with_food Game.food Game.snake].
    destruct (update_food_position cfg (Game.food g2) (Game.score g2) r2 t) as [-> ->].
    exact H2.
Qed.

(** In every reachable state the food, when active, lies on the board and
    off the snake. *)
Lemma food_never_under_snake :
  forall g, reachable cfg g -> foodClear cfg g.
Proof.
  apply (reachable_invariant cfg (foodClear cfg)).
  - intros g r t g' r' Hg Hr H; eapply tick_foodClear; eassumption.
  - intros g t Hg; exact Hg.
  - intros g b Hg; exact Hg.
  - intros g r t Hg Hr; apply place_foodClear; assumption.
  - intros g t; unfold foodClear; cbn; discriminate.
  - intros g Hg _; exact Hg.
  - intros g Hg _; exact Hg.
  - intros g d Hg; unfold Game.changeDirection.
    destruct (_ && _); [|assumption].
    unfold Snake.changeDirection.
    destruct (utils.areDirectionsOpposite d (Snake.direction (Game.snake g))); exact Hg.
  - intros g Hg; unfold Game.runTimer.
    destruct (Game.timers g) as [|[due sp] rest]; exact Hg.
  - intros stored; unfold foodClear; cbn; discriminate.
Qed.

(** Hence in a session the step that ends the game is never also a step
    onto the food: the two collisions coincide only when the food has been
    put under the snake or off the board from outside the controller. *)
Lemma lethal_step_is_never_on_food_in_a_session :
  forall g moved c,
    reachable cfg g ->
    Snake.move (Game.snake g) = Some moved ->
    CollisionDetector.checkAllCollisions cfg moved (Game.food g) = Some c ->
    CollisionDetector.food_detected (CollisionDetector.food c) = true ->
    CollisionDetector.gameEnding c = false.
Proof.
  intros g moved c Hr Hm Hc Hd.
  apply checkAllCollisions_inv in Hc as (head & Hh & Hb & Hs & Hfc & ->).
  apply checkFoodCollision_detected in Hfc as (Ha & (p & Hp & Hhp) & _); [|assumption].
  rewrite Hh in Hhp; injection Hhp as ->.
  destruct (food_never_under_snake g Hr Ha) as (q & Hq & Hv & Hfree).
  rewrite Hp in Hq; injection Hq as <-.
  apply orb_false_iff; split.
  - rewrite Hb, checkBoundaryCollision_isValidPosition, Hv; reflexivity.
  - rewrite Hs.
    destruct (Snake.body moved) as [|h rest] eqn:Ebody;
      [unfold Snake.getHead in Hh; rewrite Ebody in Hh; discriminate|].
    unfold Snake.getHead in Hh; rewrite Ebody in Hh; injection Hh as ->.
    apply (checkSelfCollision_cons moved p rest Ebody).
    intros Hin.
    assert (Hin' : In p (Snake.body moved)) by (rewrite Ebody; right; assumption).
    (* the cells behind the head are cells of the snake before the move *)
    destruct (Snake.body (Game.snake g)) as [|h0 rest0] eqn:E0;
      [unfold Snake.move, Snake.getHead in Hm; rewrite E0 in Hm; discriminate|].
    rewrite (move_cons _ h0 rest0 E0) in Hm; cbv zeta in Hm.
    apply isPositionOccupied_not_In in Hfree; rewrite E0 in Hfree.
    destruct (Snake.growing (Game.snake g)); injection Hm as <-;
      cbn [Snake.body] in Ebody; injection Ebody as _ <-.
    + contradiction.
    + apply Hfree, In_removelast; assumption.
Qed.

End FoodClear.

(** * Further properties *)

(** ** Directions and positions *)

(** X1. The opposite of a direction is a different direction whose step
    is the negated step, taking the opposite twice gives the direction
    back, and two directions are opposite whichever is asked first. *)
Theorem opposite_direction_negates_the_step :
  forall d e : Direction,
    utils.getOppositeDirection (utils.getOppositeDirection d) = d /\
    utils.getOppositeDirection d <> d /\
    dir_x (utils.getOppositeDirection d) = - dir_x d /\
    dir_y (utils.getOppositeDirection d) = - dir_y d /\
    utils.areDirectionsOpposite d e = utils.areDirectionsOpposite e d /\
    (utils.areDirectionsOpposite d e = true
     <-> dir_x d + dir_x e = 0 /\ dir_y d + dir_y e = 0).
Proof.
  intros [] []; repeat split; try reflexivity; try discriminate;
    try (intros _; split; reflexivity);
    try (intros [H1 H2]; simpl in H1, H2; discriminate).
Qed.

Lemma Qdiv_inject_Z_mult :
  forall a c : Z, 0 < c -> (inject_Z (a * c) / inject_Z c == inject_Z a)%Q.
Proof.
  intros a c Hc.
  rewrite inject_Z_mult.
  apply Qdiv_mult_l.
  intros H; unfold Qeq in H; simpl in H; lia.
Qed.

(** X2. With a positive cell size, converting a cell to pixels and back
    gives the cell; and the cell found for any pixel is the one whose
    square holds it: the pixel is at or after the cell's corner and before
    the corner of the next cell, on both axes. *)
Theorem pixelToGrid_inverts_gridToPixel :
  forall (size : Z) (p : Position) (q : utils.Pixel),
    0 < size ->
    utils.pixelToGrid size (utils.gridToPixel size p) = p /\
    (utils.pixel_x (utils.gridToPixel size (utils.pixelToGrid size q))
       <= utils.pixel_x q)%Q /\
    (utils.pixel_x q
       < utils.pixel_x (utils.gridToPixel size (utils.pixelToGrid size q))
         + inject_Z size)%Q /\
    (utils.pixel_y (utils.gridToPixel size (utils.pixelToGrid size q))
       <= utils.pixel_y q)%Q /\
    (utils.pixel_y q
       < utils.pixel_y (utils.gridToPixel size (utils.pixelToGrid size q))
         + inject_Z size)%Q.
Proof.
  intros size p q Hs.
  assert (Hq : (0 < inject_Z size)%Q)
    by (change (inject_Z 0 < inject_Z size)%Q; rewrite <- Zlt_Qlt; exact Hs).
  assert (Hne : ~ (inject_Z size == 0)%Q)
    by (intros H; rewrite H in Hq; apply (Qlt_irrefl 0); exact Hq).
  assert (Hlow : forall v : Q,
             (inject_Z (Qfloor (v / inject_Z size) * size) <= v)%Q).
  { intros v; rewrite inject_Z_mult.
    apply Qle_trans with (v / inject_Z size * inject_Z size)%Q.
    - apply Qmult_le_compat_r; [apply Qfloor_le | apply Qlt_le_weak; exact Hq].
    - rewrite Qmult_comm, Qmult_div_r by exact Hne; apply Qle_refl. }
  assert (Hhigh : forall v : Q,
             (v < inject_Z (Qfloor (v / inject_Z size) * size) + inject_Z size)%Q).
  { intros v.
    apply Qle_lt_trans with (v / inject_Z size * inject_Z size)%Q.
    - rewrite Qmult_comm, Qmult_div_r by exact Hne; apply Qle_refl.
    - apply Qlt_le_trans
        with (inject_Z (Qfloor (v / inject_Z size) + 1) * inject_Z size)%Q.
      + apply Qmult_lt_compat_r; [exact Hq | apply Qlt_floor].
      + rewrite inject_Z_plus, inject_Z_mult, Qmult_plus_distr_l, Qmult_1_l.
        apply Qle_refl. }
  split; [|repeat split; cbn [utils.gridToPixel utils.pixelToGrid utils.createPosition
                               utils.pixel_x utils.pixel_y x y];
           first [apply Hlow | apply Hhigh]].
  unfold utils.pixelToGrid, utils.gridToPixel, utils.createPosition; cbn [utils.pixel_x utils.pixel_y].
  rewrite (Qfloor_comp _ _ (Qdiv_inject_Z_mult (x p) size Hs)).
  rewrite (Qfloor_comp _ _ (Qdiv_inject_Z_mult (y p) size Hs)).
  rewrite !Qfloor_Z; destruct p; reflexivity.
Qed.

Lemma pixelToGrid_inverts_witness :
  utils.pixelToGrid utils.cellSize (utils.gridToPixel utils.cellSize (Sample.at_ 7 29))
  = Sample.at_ 7 29.
Proof.
  apply (pixelToGrid_inverts_gridToPixel
           utils.cellSize (Sample.at_ 7 29) (utils.mkPixel (3 # 2) (0 # 1))).
  reflexivity.
Defined.

(** X3. The side the boundary check reports is the edge the position is
    beyond, the horizontal edges taking precedence over the vertical ones:
    left for a negative column, right for a column at or past the last,
    top and bottom only for a column on the board; and no side exactly
    when no collision is detected. *)
Theorem boundary_side_names_the_edge :
  forall (cfg : GameConfig) (p : Position),
    (CollisionDetector.side (CollisionDetector.checkBoundaryCollision cfg p)
     = Some "left"%string <-> x p < 0) /\
    (CollisionDetector.side (CollisionDetector.checkBoundaryCollision cfg p)
     = Some "right"%string <-> 0 <= x p /\ board_columns cfg <= x p) /\
    (CollisionDetector.side (CollisionDetector.checkBoundaryCollision cfg p)
     = Some "top"%string <-> 0 <= x p < board_columns cfg /\ y p < 0) /\
    (CollisionDetector.side (CollisionDetector.checkBoundaryCollision cfg p)
     = Some "bottom"%string
     <-> 0 <= x p < board_columns cfg /\ 0 <= y p /\ board_rows cfg <= y p) /\
    (CollisionDetector.side (CollisionDetector.checkBoundaryCollision cfg p) = None
     <-> CollisionDetector.boundary_detected
           (CollisionDetector.checkBoundaryCollision cfg p) = false) /\
    CollisionDetector.boundary_position (CollisionDetector.checkBoundaryCollision cfg p) = p.
Proof.
  intros cfg p; unfold CollisionDetector.checkBoundaryCollision.
  destruct (x p <? 0) eqn:E1;
    [|destruct (x p >=? board_columns cfg) eqn:E2;
      [|destruct (y p <? 0) eqn:E3;
        [|destruct (y p >=? board_rows cfg) eqn:E4]]];
    cbn [CollisionDetector.side CollisionDetector.boundary_detected
         CollisionDetector.boundary_position];
    repeat split; intros; try discriminate; try reflexivity; try lia.
Qed.

(** X4. The distance to the nearest edge is negative exactly for the
    positions off the board, those the boundary check reports. *)
Theorem nearest_distance_is_negative_off_board :
  forall (cfg : GameConfig) (p : Position),
    (0 <= CollisionDetector.nearest (CollisionDetector.getDistanceToBoundaries cfg p)
     <-> utils.isValidPosition cfg p = true) /\
    (CollisionDetector.nearest (CollisionDetector.getDistanceToBoundaries cfg p) < 0
     <-> CollisionDetector.boundary_detected
           (CollisionDetector.checkBoundaryCollision cfg p) = true).
Proof.
  intros cfg p; rewrite checkBoundaryCollision_isValidPosition.
  unfold CollisionDetector.getDistanceToBoundaries, utils.isValidPosition;
    cbn [CollisionDetector.nearest].
  destruct (x p >=? 0) eqn:E1; destruct (x p <? board_columns cfg) eqn:E2;
    destruct (y p >=? 0) eqn:E3; destruct (y p <? board_rows cfg) eqn:E4;
    cbn [andb negb]; split; split; intros; try discriminate; try reflexivity; lia.
Qed.

(** ** The food *)

(** X5. Points are handed out once: [consume] on an active food returns
    its value and leaves it inactive without a position, keeping its
    variant and value; [consume] on an inactive food, and so a second
    [consume], returns [0] and changes nothing. *)
Theorem consume_pays_once :
  forall f : Food.t,
    (Food.active f = true ->
     fst (Food.consume f) = Food.value f /\
     Food.active (snd (Food.consume f)) = false /\
     Food.position (snd (Food.consume f)) = None /\
     Food.type (snd (Food.consume f)) = Food.type f /\
     Food.value (snd (Food.consume f)) = Food.value f) /\
    (Food.active f = false -> Food.consume f = (0, f)) /\
    Food.consume (snd (Food.consume f)) = (0, snd (Food.consume f)).
Proof.
  intros f; unfold Food.consume.
  destruct (Food.active f) eqn:E; cbn [negb fst snd Food.active]; repeat split;
    intros; try discriminate; try reflexivity.
  rewrite E; reflexivity.
Qed.

Lemma specialChance_le_cap :
  forall sc, (Food.specialChance sc <= Number.round (3 # 10))%Q.
Proof.
  intros sc; unfold Food.specialChance.
  destruct (Qle_bool _ (Number.round (3 # 10))) eqn:E;
    [apply Qle_bool_iff; exact E | apply Qle_refl].
Qed.

(** The sum [Math.min] caps grows with the score: each of its three
    operations does, and so does rounding. *)
Lemma specialChance_raw_mono :
  forall a b : Z,
    a <= b ->
    (Number.add (Number.round (1 # 10))
                (Number.mul (Number.div (inject_Z a) (inject_Z 1000))
                            (Number.round (5 # 100)))
     <= Number.add (Number.round (1 # 10))
                   (Number.mul (Number.div (inject_Z b) (inject_Z 1000))
                               (Number.round (5 # 100))))%Q.
Proof.
  intros a b Hab.
  assert (Hq : (inject_Z a / inject_Z 1000 <= inject_Z b / inject_Z 1000)%Q).
  { unfold Qdiv; apply Qmult_le_compat_r; [|discriminate].
    rewrite <- Zle_Qle; exact Hab. }
  pose proof (round_monotone _ _ Hq) as Hd.
  assert (H05 : (0 <= Number.round (5 # 100))%Q) by (apply round_nonneg; discriminate).
  unfold Number.add, Number.mul, Number.div.
  set (da := Number.round (inject_Z a / inject_Z 1000)) in *.
  set (db := Number.round (inject_Z b / inject_Z 1000)) in *.
  set (c05 := Number.round (5 # 100)) in *.
  set (c01 := Number.round (1 # 10)) in *.
  assert (Hm : (da * c05 <= db * c05)%Q) by (apply Qmult_le_compat_r; assumption).
  pose proof (round_monotone _ _ Hm) as Hr.
  apply round_monotone; lra.
Qed.

Lemma specialChance_ge_tenth :
  forall sc, 0 <= sc -> (Number.round (1 # 10) <= Food.specialChance sc)%Q.
Proof.
  intros sc Hsc; unfold Food.specialChance.
  assert (H0 : (Number.round (1 # 10)
                <= Number.add (Number.round (1 # 10))
                              (Number.mul (Number.div (inject_Z 0) (inject_Z 1000))
                                          (Number.round (5 # 100))))%Q)
    by (vm_compute; discriminate).
  pose proof (specialChance_raw_mono 0 sc Hsc) as Hm.
  destruct (Qle_bool _ (Number.round (3 # 10)));
    [eapply Qle_trans; [exact H0 | exact Hm] | vm_compute; discriminate].
Qed.

Lemma specialChance_mono :
  forall a b,
    a <= b -> (Food.specialChance a <= Food.specialChance b)%Q.
Proof.
  intros a b Hab; pose proof (specialChance_raw_mono a b Hab) as Hm.
  pose proof (specialChance_le_cap a) as Hcap.
  unfold Food.specialChance in *.
  set (ra := Number.add _ (Number.mul (Number.div (inject_Z a) _) _)) in *.
  set (rb := Number.add _ (Number.mul (Number.div (inject_Z b) _) _)) in *.
  destruct (Qle_bool rb (Number.round (3 # 10))) eqn:Eb; [|exact Hcap].
  destruct (Qle_bool ra (Number.round (3 # 10))) eqn:Ea; [exact Hm|].
  apply Qle_bool_iff in Eb.
  assert (Ea' : Qle_bool ra (Number.round (3 # 10)) = true)
    by (apply Qle_bool_iff; eapply Qle_trans; [exact Hm | exact Eb]).
  congruence.
Qed.

(** X6. The chance of an upgrade grows with the score and never exceeds
    the number [0.3], the binary64 value just below three tenths; for a
    score that is not negative it is at least the number [0.1], the
    binary64 value just above one tenth; from a score of 4000 on it is the
    number [0.3]. *)
Theorem upgrade_chance_grows_to_its_cap :
  forall a b : Z,
    (a <= b -> (Food.specialChance a <= Food.specialChance b)%Q) /\
    (Food.specialChance a <= Number.round (3 # 10))%Q /\
    (0 <= a -> (Number.round (1 # 10) <= Food.specialChance a)%Q) /\
    (4000 <= a -> (Food.specialChance a == Number.round (3 # 10))%Q) /\
    (Number.round (3 # 10) == 5404319552844595 # 18014398509481984)%Q /\
    (Number.round (1 # 10) == 3602879701896397 # 36028797018963968)%Q.
Proof.
  intros a b.
  split; [apply specialChance_mono|].
  split; [apply specialChance_le_cap|].
  split; [apply specialChance_ge_tenth|].
  split; [|split; vm_compute; reflexivity].
  intros Ha; unfold Food.specialChance.
  pose proof (specialChance_raw_mono 4000 a Ha) as Hm.
  assert (H4 : (Number.round (3 # 10)
                < Number.add (Number.round (1 # 10))
                             (Number.mul (Number.div (inject_Z 4000) (inject_Z 1000))
                                         (Number.round (5 # 100))))%Q)
    by (vm_compute; reflexivity).
  destruct (Qle_bool _ (Number.round (3 # 10))) eqn:E; [|reflexivity].
  apply Qle_bool_iff in E; lra.
Qed.

Lemma makeSpecial_fields :
  forall cfg f ty,
    Food.position (Food.makeSpecial cfg f ty) = Food.position f /\
    Food.active (Food.makeSpecial cfg f ty) = Food.active f /\
    Food.spawnTime (Food.makeSpecial cfg f ty) = Food.spawnTime f.
Proof. intros cfg f [[| | |]|]; repeat split. Qed.

Lemma specialTypes_not_normal : forall i, Food.specialTypes i <> Some Food.normal.
Proof.
  intros i; unfold Food.specialTypes.
  destruct i as [|p|p]; try discriminate.
  destruct p as [p|p|]; try discriminate; destruct p; discriminate.
Qed.

(** The variant and value an upgrade gives. *)
Lemma makeSpecial_variant :
  forall cfg f i,
    (Food.type (Food.makeSpecial cfg f (Food.specialTypes i)) = Food.bonus /\
     Food.value (Food.makeSpecial cfg f (Food.specialTypes i)) = food_points cfg * 2) \/
    (Food.type (Food.makeSpecial cfg f (Food.specialTypes i)) = Food.mega /\
     Food.value (Food.makeSpecial cfg f (Food.specialTypes i)) = food_points cfg * 5) \/
    (Food.type (Food.makeSpecial cfg f (Food.specialTypes i)) = Food.speed /\
     Food.value (Food.makeSpecial cfg f (Food.specialTypes i)) = food_points cfg).
Proof.
  intros cfg f i; pose proof (specialTypes_not_normal i) as Hn.
  unfold Food.makeSpecial.
  destruct (Food.specialTypes i) as [[| | |]|]; cbn [Food.type Food.value]; auto.
  contradiction.
Qed.

(** X7. The upgrade check leaves a food that is not normal alone and
    draws nothing for it. For a normal food it draws once and upgrades
    exactly when the draw is below the chance; a draw of the
    number [0.3] or more never upgrades, and a draw below the number
    [0.1] upgrades whenever the score is not negative. An upgrade draws a
    second time, and the upgraded food is bonus, mega or speed, worth
    twice, five times or once the base points, on the same cell, as active
    and as old as before. *)
Theorem upgrade_check_fires_by_the_draw :
  forall (cfg : GameConfig) (f : Food.t) (sc : Z) (r : Rng),
    (Food.type f <> Food.normal ->
     Food.checkForSpecialFood cfg f sc r = ((false, f), r)) /\
    (Food.type f = Food.normal ->
     (fst (fst (Food.checkForSpecialFood cfg f sc r)) = true
      <-> (r 0%nat < Food.specialChance sc)%Q)) /\
    (Food.type f = Food.normal -> (Number.round (3 # 10) <= r 0%nat)%Q ->
     Food.checkForSpecialFood cfg f sc r = ((false, f), snd (Math_random r))) /\
    (Food.type f = Food.normal -> 0 <= sc -> (r 0%nat < Number.round (1 # 10))%Q ->
     fst (fst (Food.checkForSpecialFood cfg f sc r)) = true) /\
    (fst (fst (Food.checkForSpecialFood cfg f sc r)) = true ->
     Food.type f = Food.normal /\
     snd (Food.checkForSpecialFood cfg f sc r) = snd (Math_random (snd (Math_random r))) /\
     ((Food.type (snd (fst (Food.checkForSpecialFood cfg f sc r))) = Food.bonus /\
       Food.value (snd (fst (Food.checkForSpecialFood cfg f sc r))) = food_points cfg * 2) \/
      (Food.type (snd (fst (Food.checkForSpecialFood cfg f sc r))) = Food.mega /\
       Food.value (snd (fst (Food.checkForSpecialFood cfg f sc r))) = food_points cfg * 5) \/
      (Food.type (snd (fst (Food.checkForSpecialFood cfg f sc r))) = Food.speed /\
       Food.value (snd (fst (Food.checkForSpecialFood cfg f sc r))) = food_points cfg)) /\
     Food.position (snd (fst (Food.checkForSpecialFood cfg f sc r))) = Food.position f /\
     Food.active (snd (fst (Food.checkForSpecialFood cfg f sc r))) = Food.active f /\
     Food.spawnTime (snd (fst (Food.checkForSpecialFood cfg f sc r))) = Food.spawnTime f).
Proof.
  intros cfg f sc r; unfold Food.checkForSpecialFood, Math_random.
  split; [|split; [|split; [|split]]].
  - intros Hn; destruct (Food.type f); [contradiction | | |]; reflexivity.
  - intros Hn; rewrite Hn; cbn [Food.FoodType_eqb negb].
    destruct (Qle_bool (Food.specialChance sc) (r 0%nat)) eqn:E; cbn [negb fst].
    + apply Qle_bool_iff in E; split; [discriminate|].
      intros Hlt; exfalso; apply (Qlt_irrefl (r 0%nat)).
      eapply Qlt_le_trans; [exact Hlt | exact E].
    + split; [intros _ | reflexivity].
      apply Qnot_le_lt; intros Hle; apply Qle_bool_iff in Hle; congruence.
  - intros Hn Hu; rewrite Hn; cbn [Food.FoodType_eqb negb].
    assert (E : Qle_bool (Food.specialChance sc) (r 0%nat) = true).
    { apply Qle_bool_iff; eapply Qle_trans; [apply specialChance_le_cap | exact Hu]. }
    rewrite E; reflexivity.
  - intros Hn Hsc Hu; rewrite Hn; cbn [Food.FoodType_eqb negb].
    destruct (Qle_bool (Food.specialChance sc) (r 0%nat)) eqn:E; [|reflexivity].
    exfalso; apply Qle_bool_iff in E.
    apply (Qlt_irrefl (r 0%nat)).
    eapply Qlt_le_trans; [exact Hu|].
    eapply Qle_trans; [apply specialChance_ge_tenth; exact Hsc | exact E].
  - destruct (Food.type f) eqn:Ht; cbn [Food.FoodType_eqb negb fst snd];
      try discriminate.
    destruct (negb (Qle_bool (Food.specialChance sc) (r 0%nat)));
      cbn [fst snd]; [intros _ | discriminate].
    split; [reflexivity|]; split; [reflexivity|].
    split; [apply makeSpecial_variant | apply makeSpecial_fields].
Qed.

(** The check at the chance itself. At a score of 480 the chance is the
    number [0.124], and at a score of 4000 the number [0.3]: a draw of
    that number does not upgrade, the number next below it does. *)
Example upgrade_check_at_the_chance :
  (Food.specialChance 480 == 1116892707587883 # 9007199254740992)%Q /\
  (Food.specialChance 480 == Number.round (124 # 1000))%Q /\
  (Food.specialChance 480 < 124 # 1000)%Q /\
  fst (fst (Food.checkForSpecialFood
              gameConfig (Food.new gameConfig) 480
              (Sample.draws [1116892707587883 # 9007199254740992] (1 # 2))))
  = false /\
  fst (fst (Food.checkForSpecialFood
              gameConfig (Food.new gameConfig) 480
              (Sample.draws [1116892707587882 # 9007199254740992] (1 # 2))))
  = true /\
  fst (fst (Food.checkForSpecialFood
              gameConfig (Food.new gameConfig) 4000
              (Sample.draws [5404319552844595 # 18014398509481984] (1 # 2))))
  = false /\
  fst (fst (Food.checkForSpecialFood
              gameConfig (Food.new gameConfig) 4000
              (Sample.draws [5404319552844594 # 18014398509481984] (1 # 2))))
  = true.
Proof. repeat split; vm_compute; reflexivity. Qed.

Lemma update_food_spawnTime :
  forall cfg f sc r now,
    Food.spawnTime (fst (Food.update cfg f sc r now)) = Food.spawnTime f.
Proof.
  intros cfg f sc r now; unfold Food.update.
  destruct (negb (Food.active f)); [reflexivity|].
  assert (H : forall f0,
             Food.spawnTime (snd (fst (Food.checkForSpecialFood cfg f0 sc r)))
             = Food.spawnTime f0).
  { intros f0; unfold Food.checkForSpecialFood, Math_random.
    destruct (negb (Food.FoodType_eqb (Food.type f0) Food.normal)); [reflexivity|].
    destruct (negb (Qle_bool (Food.specialChance sc) (r 0%nat))); [|reflexivity].
    apply makeSpecial_fields. }
  specialize (H (if Food.hasExpired f now then Food.resetToNormal cfg f else f)).
  destruct (Food.checkForSpecialFood cfg _ sc r) as [[b f2] r']; cbn [fst snd] in *.
  destruct (Food.hasExpired f now); exact H.
Qed.

(** X8. The per-tick update of the food never moves it, deactivates it or
    changes its age. It leaves an inactive food alone, and a special food
    that is at most 10000 ms old as well, drawing nothing. A normal food
    never expires. A special food older than that is reset to the normal
    variant with the base values, and the upgrade check then runs on the
    reset food in the same update. *)
Theorem special_food_is_stable_until_it_expires :
  forall (cfg : GameConfig) (f : Food.t) (sc : Z) (r : Rng) (now : Z),
    (Food.position (fst (Food.update cfg f sc r now)) = Food.position f /\
     Food.active (fst (Food.update cfg f sc r now)) = Food.active f /\
     Food.spawnTime (fst (Food.update cfg f sc r now)) = Food.spawnTime f) /\
    (Food.active f = false -> Food.update cfg f sc r now = (f, r)) /\
    (Food.type f <> Food.normal -> Food.getAge f now <= 10000 ->
     Food.update cfg f sc r now = (f, r)) /\
    (Food.type f = Food.normal -> Food.hasExpired f now = false) /\
    (Food.active f = true -> Food.type f <> Food.normal ->
     Food.spawnTime f <> 0 -> 10000 < now - Food.spawnTime f ->
     Food.update cfg f sc r now
     = (snd (fst (Food.checkForSpecialFood cfg (Food.resetToNormal cfg f) sc r)),
        snd (Food.checkForSpecialFood cfg (Food.resetToNormal cfg f) sc r)) /\
     isBaseNormal cfg (Food.resetToNormal cfg f)).
Proof.
  intros cfg f sc r now.
  split; [|split; [|split; [|split]]].
  - destruct (update_food_position cfg f sc r now) as [Hp Ha].
    repeat split; [exact Hp | exact Ha | apply update_food_spawnTime].
  - intros Ha; unfold Food.update; rewrite Ha; reflexivity.
  - intros Hn Hage; unfold Food.update.
    destruct (negb (Food.active f)); [reflexivity|].
    unfold Food.hasExpired, Food.checkForSpecialFood.
    destruct (Food.type f) eqn:Ht; [contradiction | | |];
      cbn [Food.FoodType_eqb negb];
      (destruct (Food.getAge f now >? 10000) eqn:E; [lia|]);
      rewrite Ht; reflexivity.
  - intros Hn; unfold Food.hasExpired; rewrite Hn; reflexivity.
  - intros Ha Hn H0 Hold; split; [|repeat split].
    unfold Food.update; rewrite Ha; cbn [negb].
    assert (He : Food.hasExpired f now = true).
    { unfold Food.hasExpired, Food.getAge; rewrite Ha; cbn [negb orb].
      destruct (Food.spawnTime f =? 0) eqn:E0; [lia|].
      destruct (Food.type f); [contradiction | | |]; cbn [Food.FoodType_eqb]; lia. }
    rewrite He.
    destruct (Food.checkForSpecialFood cfg (Food.resetToNormal cfg f) sc r) as [[b f2] r'];
      reflexivity.
Qed.

(** ** The snake *)

Lemma firstMatch_Some :
  forall head body i z,
    CollisionDetector.firstMatch head body i = Some z ->
    exists k : nat,
      z = i + 1 + Z.of_nat k /\
      List.nth_error body k = Some head /\
      forall j : nat, (j < k)%nat -> List.nth_error body j <> Some head.
Proof.
  intros head body; induction body as [|seg rest IH]; intros i z; simpl; [discriminate|].
  destruct (utils.positionsEqual head seg) eqn:E.
  - apply positionsEqual_eq in E; subst seg.
    intros H; injection H as <-; exists 0%nat.
    split; [lia|]; split; [reflexivity | intros j Hj; lia].
  - apply positionsEqual_neq in E; intros H.
    destruct (IH _ _ H) as (k & -> & Hk & Hmin).
    exists (S k); split; [lia|]; split; [exact Hk|].
    intros [|j] Hj; simpl; [congruence | apply Hmin; lia].
Qed.

Lemma existsb_firstMatch :
  forall head body i,
    List.existsb (fun segment => utils.positionsEqual head segment) body
    = match CollisionDetector.firstMatch head body i with
      | Some _ => true
      | None => false
      end.
Proof.
  intros head body; induction body as [|seg rest IH]; intros i; simpl; [reflexivity|].
  destruct (utils.positionsEqual head seg); simpl; [reflexivity | apply IH].
Qed.

(** X9. The snake's own self-collision test and the collision resolver's
    give the same answer. When a collision is detected the resolver's
    [segmentIndex] is the index in the body, at least [1], of the first
    segment behind the head that is on the head's cell; otherwise it is
    [-1]. *)
Theorem self_collision_checks_agree :
  forall s : Snake.t,
    Snake.checkSelfCollision s
    = CollisionDetector.self_detected (CollisionDetector.checkSelfCollision s) /\
    (CollisionDetector.self_detected (CollisionDetector.checkSelfCollision s) = true ->
     exists (head : Position) (k : nat),
       Snake.getHead s = Some head /\
       CollisionDetector.segmentIndex (CollisionDetector.checkSelfCollision s) = Z.of_nat k /\
       (1 <= k)%nat /\
       List.nth_error (Snake.body s) k = Some head /\
       forall j : nat, (1 <= j < k)%nat -> List.nth_error (Snake.body s) j <> Some head) /\
    (CollisionDetector.self_detected (CollisionDetector.checkSelfCollision s) = false ->
     CollisionDetector.segmentIndex (CollisionDetector.checkSelfCollision s) = -1).
Proof.
  intros s.
  unfold Snake.checkSelfCollision, CollisionDetector.checkSelfCollision,
    Snake.getHead, Snake.getBodyWithoutHead.
  destruct (Snake.body s) as [|head rest]; cbn [List.hd_error List.tl];
    [repeat split; intros; try discriminate; reflexivity|].
  rewrite (existsb_firstMatch head rest 0).
  destruct (CollisionDetector.firstMatch head rest 0) as [z|] eqn:E;
    cbn [CollisionDetector.self_detected CollisionDetector.segmentIndex];
    repeat split; try discriminate.
  intros _; destruct (firstMatch_Some _ _ _ _ E) as (k & -> & Hk & Hmin).
  exists head, (S k); repeat split; [lia | lia | exact Hk |].
  intros [|j] Hj; [lia|]; simpl; apply Hmin; lia.
Qed.

Lemma direction_vector_injective :
  forall d e, dir_x d = dir_x e -> dir_y d = dir_y e -> d = e.
Proof. intros [] []; simpl; intros; try reflexivity; discriminate. Qed.

Lemma move_head :
  forall s head,
    Snake.getHead s = Some head ->
    exists moved,
      Snake.move s = Some moved /\
      Snake.getHead moved
      = Some (utils.createPosition (x head + dir_x (Snake.nextDirection s))
                                   (y head + dir_y (Snake.nextDirection s))) /\
      Snake.body moved
      = utils.createPosition (x head + dir_x (Snake.nextDirection s))
                             (y head + dir_y (Snake.nextDirection s))
        :: (if Snake.growing s then Snake.body s else List.removelast (Snake.body s)).
Proof.
  intros s head Hh.
  destruct (Snake.body s) as [|h rest] eqn:Hb;
    unfold Snake.getHead in Hh; rewrite Hb in Hh; [discriminate|].
  injection Hh as ->.
  rewrite (move_cons s head rest Hb); cbv zeta.
  eexists; split; [reflexivity|].
  destruct (Snake.growing s); split; reflexivity.
Qed.

(** X10. [getNextHeadPosition] looks one step ahead in the current
    direction, not the queued one: for a snake with a head it returns the
    head the next [move] produces exactly when no other direction is
    queued. *)
Theorem next_head_is_the_moved_head_unless_a_turn_is_queued :
  forall (s : Snake.t) (head : Position),
    Snake.getHead s = Some head ->
    exists moved next,
      Snake.move s = Some moved /\
      Snake.getNextHeadPosition s = Some next /\
      (Snake.getHead moved = Some next
       <-> Snake.nextDirection s = Snake.direction s).
Proof.
  intros s head Hh.
  destruct (move_head s head Hh) as (moved & Hm & Hhm & _).
  exists moved; eexists; split; [exact Hm|].
  unfold Snake.getNextHeadPosition; rewrite Hh; split; [reflexivity|].
  rewrite Hhm; split.
  - intros H; injection H as Hx Hy.
    apply direction_vector_injective; lia.
  - intros ->; reflexivity.
Qed.

Lemma next_head_witness :
  exists moved next,
    Snake.move Sample.curled = Some moved /\
    Snake.getNextHeadPosition Sample.curled = Some next /\
    (Snake.getHead moved = Some next
     <-> Snake.nextDirection Sample.curled = Snake.direction Sample.curled).
Proof.
  exact (next_head_is_the_moved_head_unless_a_turn_is_queued
           Sample.curled (Sample.at_ 5 5) eq_refl).
Defined.

(** With a turn queued the prediction misses: the curled snake is about
    to turn left onto (4,5) and [getNextHeadPosition] says (5,4). *)
Example next_head_misses_a_queued_turn :
  Snake.getNextHeadPosition Sample.curled = Some (Sample.at_ 5 4) /\
  option_map Snake.getHead (Snake.move Sample.curled) = Some (Some (Sample.at_ 4 5)).
Proof. split; reflexivity. Qed.

(** ** Predictions *)

Lemma positionsEqual_sym :
  forall p q, utils.positionsEqual p q = utils.positionsEqual q p.
Proof.
  intros p q; unfold utils.positionsEqual.
  rewrite (Z.eqb_sym (x p)), (Z.eqb_sym (y p)); reflexivity.
Qed.

Lemma checkSelfCollisionAtPosition_In :
  forall p s,
    CollisionDetector.self_detected (CollisionDetector.checkSelfCollisionAtPosition p s) = true
    <-> In p (Snake.body s).
Proof.
  intros p s; unfold CollisionDetector.checkSelfCollisionAtPosition.
  pose proof (firstMatch_None p (Snake.body s) (-1)) as Hnone.
  destruct (CollisionDetector.firstMatch p (Snake.body s) (-1)) as [z|] eqn:E;
    cbn [CollisionDetector.self_detected]; split; intros H; try reflexivity.
  - destruct (firstMatch_Some _ _ _ _ E) as (k & _ & Hk & _).
    eapply nth_error_In; exact Hk.
  - discriminate.
  - exfalso; destruct Hnone as [Hn _]; apply (Hn eq_refl); exact H.
Qed.

Lemma last_cons_default :
  forall (A : Type) (l : list A) (a d : A), List.last (a :: l) d = List.last l a.
Proof.
  intros A l; induction l as [|b l IH]; intros a d; [reflexivity|].
  change (List.last (b :: l) d = List.last (b :: l) a).
  rewrite !IH; reflexivity.
Qed.

Lemma In_not_removelast :
  forall (A : Type) (l : list A) (a : A),
    In a l -> ~ In a (List.removelast l) ->
    exists h r, l = h :: r /\ a = List.last r h.
Proof.
  intros A l a; induction l as [|h r IH]; [intros []|].
  destruct r as [|h2 r2].
  - intros [<- | []] _; exists h, []; split; reflexivity.
  - rewrite removelast_cons; intros Hin Hn.
    destruct Hin as [<- | Hin]; [exfalso; apply Hn; left; reflexivity|].
    destruct IH as (h' & r' & Heq & Hlast);
      [exact Hin | intros H; apply Hn; right; exact H|].
    injection Heq as <- <-.
    exists h, (h2 :: r2); split; [reflexivity|].
    rewrite Hlast; symmetry; apply last_cons_default.
Qed.

(** X11. [predictCollision] raises exactly when the snake has no head or
    the food is active without a position. When no turn is queued its
    prediction never misses the end of the game: its boundary and food
    flags are those the next tick's check finds on the moved snake, and a
    self collision or game end the check finds is predicted. It can raise
    a false alarm, and only one: a self collision predicted but not found
    is the head stepping onto the cell the tail is leaving, with no growth
    pending. *)
Theorem prediction_never_misses_the_end :
  forall (cfg : GameConfig) (s : Snake.t) (f : Food.t),
    (CollisionDetector.predictCollision cfg s f = None
     <-> Snake.body s = [] \/ (Food.active f = true /\ Food.position f = None)) /\
    (forall moved c pr,
        Snake.nextDirection s = Snake.direction s ->
        Snake.move s = Some moved ->
        CollisionDetector.checkAllCollisions cfg moved f = Some c ->
        CollisionDetector.predictCollision cfg s f = Some pr ->
        CollisionDetector.boundary_detected (CollisionDetector.predicted_boundary pr)
        = CollisionDetector.boundary_detected (CollisionDetector.boundary c) /\
        CollisionDetector.food_detected (CollisionDetector.predicted_food pr)
        = CollisionDetector.food_detected (CollisionDetector.food c) /\
        (CollisionDetector.self_detected (CollisionDetector.self c) = true ->
         CollisionDetector.self_detected (CollisionDetector.predicted_self pr) = true) /\
        (CollisionDetector.gameEnding c = true ->
         CollisionDetector.willEndGame pr = true) /\
        (CollisionDetector.self_detected (CollisionDetector.predicted_self pr) = true ->
         CollisionDetector.self_detected (CollisionDetector.self c) = false ->
         Snake.growing s = false /\ Snake.getTail s = Snake.getHead moved)).
Proof.
  intros cfg s f; split.
  - unfold CollisionDetector.predictCollision, Snake.getNextHeadPosition, Snake.getHead,
      CollisionDetector.checkFoodCollisionAtPosition.
    destruct (Snake.body s) as [|head rest]; cbn [List.hd_error];
      [split; [left; reflexivity | reflexivity]|].
    destruct (Food.active f); [|split; [discriminate | intros [H | [H _]]; discriminate]].
    destruct (Food.position f) as [p|];
      [|split; [right; split; reflexivity | reflexivity]].
    destruct (utils.positionsEqual _ p);
      (split; [discriminate | intros [H | [_ H]]; discriminate]).
  - intros moved c pr Hdir Hm Hc Hp.
    apply checkAllCollisions_inv in Hc as (newHead & Hnh & Hb & Hs & Hfc & Hge).
    destruct (Snake.body s) as [|head rest] eqn:Hbody;
      [unfold Snake.move, Snake.getHead in Hm; rewrite Hbody in Hm; discriminate|].
    assert (Hh : Snake.getHead s = Some head)
      by (unfold Snake.getHead; rewrite Hbody; reflexivity).
    destruct (move_head s head Hh) as (moved' & Hm' & Hhm & Hbm).
    rewrite Hm in Hm'; injection Hm' as <-.
    rewrite Hdir in Hhm, Hbm.
    rewrite Hnh in Hhm; injection Hhm as ->.
    unfold CollisionDetector.predictCollision, Snake.getNextHeadPosition in Hp.
    rewrite Hh in Hp.
    set (next := utils.createPosition (x head + dir_x (Snake.direction s))
                                      (y head + dir_y (Snake.direction s))) in *.
    destruct (CollisionDetector.checkFoodCollisionAtPosition next f) as [pf|] eqn:Epf;
      [|discriminate].
    injection Hp as <-.
    cbn [CollisionDetector.predicted_boundary CollisionDetector.predicted_self
         CollisionDetector.predicted_food CollisionDetector.willEndGame].
    assert (Hself : CollisionDetector.self_detected (CollisionDetector.self c) = true ->
                    CollisionDetector.self_detected
                      (CollisionDetector.checkSelfCollisionAtPosition next s) = true).
    { intros Hd; apply checkSelfCollisionAtPosition_In.
      rewrite Hs in Hd.
      destruct (CollisionDetector.self_detected (CollisionDetector.checkSelfCollisionAtPosition next s))
        eqn:E; [apply checkSelfCollisionAtPosition_In; exact E|].
      exfalso.
      assert (Hnin : ~ In next (Snake.body s)).
      { intros Hin; apply checkSelfCollisionAtPosition_In in Hin; congruence. }
      pose proof (proj2 (checkSelfCollision_cons moved next _ Hbm)) as Hno.
      rewrite Hno in Hd; [discriminate|].
      destruct (Snake.growing s); [exact Hnin|].
      intros Hin; apply Hnin, In_removelast; exact Hin. }
    split; [rewrite Hb; reflexivity|].
    split.
    { revert Epf Hfc.
      unfold CollisionDetector.checkFoodCollisionAtPosition,
        CollisionDetector.checkFoodCollision, Food.isEaten.
      rewrite Hnh.
      destruct (Food.active f); [|intros H1 H2; injection H1 as <-; injection H2 as <-; reflexivity].
      destruct (Food.position f) as [p|]; [|discriminate].
      rewrite (positionsEqual_sym next p).
      destruct (utils.positionsEqual p next);
        intros H1 H2; injection H1 as <-; injection H2 as <-; reflexivity. }
    split; [exact Hself|].
    split.
    { rewrite Hge, Hb; intros H; apply orb_true_iff in H as [H | H];
        apply orb_true_iff; [left; exact H | right; apply Hself; exact H]. }
    intros Hpred Hact.
    apply checkSelfCollisionAtPosition_In in Hpred.
    rewrite Hs in Hact.
    apply (checkSelfCollision_cons moved next _ Hbm) in Hact.
    destruct (Snake.growing s); [contradiction|].
    split; [reflexivity|].
    destruct (In_not_removelast _ _ _ Hpred Hact) as (h & r & Heq & Hlast).
    unfold Snake.getTail; rewrite Heq, Hnh, Hlast; reflexivity.
Qed.

(** The false alarm: the snake [Sample.chasing] moves onto the cell its
    tail leaves; a self collision is predicted and none happens. *)
Example prediction_false_alarm_on_the_tail :
  option_map CollisionDetector.willEndGame
             (CollisionDetector.predictCollision gameConfig Sample.chasing
                                                 (Food.new gameConfig))
  = Some true /\
  option_map (fun moved =>
                option_map CollisionDetector.gameEnding
                           (CollisionDetector.checkAllCollisions
                              gameConfig moved (Food.new gameConfig)))
             (Snake.move Sample.chasing)
  = Some (Some false).
Proof. split; reflexivity. Qed.

Lemma isPositionSafe_iff :
  forall cfg p s,
    CollisionDetector.isPositionSafe cfg p s = true
    <-> utils.isValidPosition cfg p = true /\ ~ In p (Snake.body s).
Proof.
  intros cfg p s; unfold CollisionDetector.isPositionSafe.
  rewrite checkBoundaryCollision_isValidPosition, negb_involutive, andb_true_iff.
  rewrite negb_true_iff, <- checkSelfCollisionAtPosition_In.
  destruct (CollisionDetector.self_detected _); split; intros [H1 H2]; split;
    try assumption; try discriminate; try reflexivity.
  exfalso; apply H2; reflexivity.
Qed.

(** X12. [getSafePositions] raises exactly for a snake without a head.
    Otherwise it lists, for each of the four directions in the order up,
    down, left, right, the cell next to the head in that direction when
    that cell is on the board and off the whole body, tagged with the
    direction and with whether the snake may turn that way; nothing else is
    listed, so the list has at most four entries. *)
Theorem safe_positions_are_the_free_neighbours :
  forall (cfg : GameConfig) (s : Snake.t),
    (CollisionDetector.getSafePositions cfg s = None <-> Snake.body s = []) /\
    (forall head l,
        Snake.getHead s = Some head ->
        CollisionDetector.getSafePositions cfg s = Some l ->
        (forall sp,
            In sp l
            <-> exists d,
                sp = CollisionDetector.mkSafe
                       (utils.createPosition (x head + dir_x d) (y head + dir_y d))
                       d (Snake.canMoveInDirection s d) /\
                utils.isValidPosition
                  cfg (utils.createPosition (x head + dir_x d) (y head + dir_y d)) = true /\
                ~ In (utils.createPosition (x head + dir_x d) (y head + dir_y d))
                     (Snake.body s)) /\
        (List.length l <= 4)%nat /\
        List.map CollisionDetector.safe_direction l
        = List.filter
            (fun d => CollisionDetector.isPositionSafe
                        cfg (utils.createPosition (x head + dir_x d) (y head + dir_y d)) s)
            [UP; DOWN; LEFT; RIGHT]).
Proof.
  intros cfg s; split.
  - unfold CollisionDetector.getSafePositions, Snake.getHead.
    destruct (Snake.body s); cbn [List.hd_error]; split; intros H;
      try reflexivity; discriminate.
  - intros head l Hh Hl; unfold CollisionDetector.getSafePositions in Hl.
    rewrite Hh in Hl.
    match type of Hl with
    | Some ?found = Some l => assert (El : l = found) by congruence
    end.
    clear Hl; subst l.
    split; [|split].
    + intros sp; rewrite in_flat_map; split.
      * intros (d & _ & Hin).
        destruct (CollisionDetector.isPositionSafe cfg _ s) eqn:E; [|destruct Hin].
        destruct Hin as [<- | []].
        apply isPositionSafe_iff in E as [Hv Hn].
        exists d; auto.
      * intros (d & -> & Hv & Hn); exists d; split; [destruct d; simpl; auto|].
        assert (E : CollisionDetector.isPositionSafe
                      cfg (utils.createPosition (x head + dir_x d) (y head + dir_y d)) s
                    = true) by (apply isPositionSafe_iff; auto).
        rewrite E; left; reflexivity.
    + cbn [List.flat_map].
      repeat (destruct (CollisionDetector.isPositionSafe cfg _ s)); simpl; lia.
    + cbn [List.flat_map List.filter].
      repeat (destruct (CollisionDetector.isPositionSafe cfg _ s)); reflexivity.
Qed.

(** The curled snake has the cells above and to the right of its head
    free. The chasing snake has none: the wall is to its left, its body
    below and to the right, and the cell above holds its tail, which
    counts although the tail is about to leave it. *)
Example safe_positions_of_the_sample_snakes :
  option_map (List.map CollisionDetector.safe_direction)
             (CollisionDetector.getSafePositions gameConfig Sample.curled)
  = Some [UP; RIGHT] /\
  CollisionDetector.getSafePositions gameConfig Sample.chasing = Some [].
Proof. split; reflexivity. Qed.

(** ** Bounded logs *)

Section BoundedLog.

Variable A : Type.
Variable cap : nat.
Variable push : list A -> A -> list A.

Hypothesis push_spec :
  forall q a,
    push q a = if (cap <? List.length (q ++ [a]))%nat then List.tl (q ++ [a]) else q ++ [a].

(** Pushing entries one after the other onto a log that holds at most
    [cap] leaves the last [cap] of all entries, in their order. *)
Lemma bounded_log_fold :
  forall l q,
    (List.length q <= cap)%nat ->
    List.fold_left push l q
    = List.skipn (List.length (q ++ l) - cap) (q ++ l) /\
    (List.length (List.fold_left push l q) <= cap)%nat.
Proof.
  induction l as [|a l IH]; intros q Hq.
  - rewrite app_nil_r; cbn [List.fold_left].
    replace (List.length q - cap)%nat with 0%nat by lia; split; [reflexivity | exact Hq].
  - cbn [List.fold_left]; rewrite push_spec.
    assert (Hlen : List.length (q ++ [a]) = S (List.length q))
      by (rewrite length_app; simpl; lia).
    replace (q ++ a :: l) with ((q ++ [a]) ++ l) by (rewrite <- app_assoc; reflexivity).
    destruct (cap <? List.length (q ++ [a]))%nat eqn:E.
    + apply Nat.ltb_lt in E.
      destruct (q ++ [a]) as [|h q'] eqn:Eq; [simpl in Hlen; lia|].
      cbn [List.tl]; simpl in Hlen, E.
      assert (Hq' : (List.length q' <= cap)%nat) by lia.
      destruct (IH q' Hq') as [IH1 IH2]; split; [|exact IH2].
      rewrite IH1; cbn [List.app List.length].
      replace (S (List.length (q' ++ l)) - cap)%nat
        with (S (List.length (q' ++ l) - cap))
        by (rewrite length_app; lia).
      reflexivity.
    + apply Nat.ltb_ge in E.
      apply IH; exact E.
Qed.

End BoundedLog.

(** X13. The input queue holds the last ten inputs: queueing inputs one
    after the other onto a queue of at most ten leaves the last ten of the
    old and new inputs together, in their order, and never more than
    ten. *)
Theorem input_queue_keeps_the_last_ten :
  forall (q inputs : list InputHandler.Input),
    (List.length q <= 10)%nat ->
    List.fold_left
      (fun queue i =>
         InputHandler.queueInput queue (InputHandler.input_type i)
                                 (InputHandler.input_value i) (InputHandler.timestamp i))
      inputs q
    = List.skipn (List.length (q ++ inputs) - 10) (q ++ inputs) /\
    (List.length
       (List.fold_left
          (fun queue i =>
             InputHandler.queueInput queue (InputHandler.input_type i)
                                     (InputHandler.input_value i) (InputHandler.timestamp i))
          inputs q)
     <= 10)%nat.
Proof.
  intros q inputs Hq.
  apply (bounded_log_fold InputHandler.Input 10); [|exact Hq].
  intros queue [ty v t]; reflexivity.
Qed.

Lemma input_queue_witness :
  List.map InputHandler.timestamp
           (List.fold_left
              (fun queue i =>
                 InputHandler.queueInput queue (InputHandler.input_type i)
                                         (InputHandler.input_value i)
                                         (InputHandler.timestamp i))
              (List.map (fun n => InputHandler.mkInput "touch" (inr LEFT) (Z.of_nat n))
                        (List.seq 0 13))
              [])
  = [3; 4; 5; 6; 7; 8; 9; 10; 11; 12].
Proof.
  destruct (input_queue_keeps_the_last_ten
              []
              (List.map (fun n => InputHandler.mkInput "touch" (inr LEFT) (Z.of_nat n))
                        (List.seq 0 13))
              ltac:(simpl; lia)) as [-> _].
  reflexivity.
Defined.

Lemma countType_total :
  forall h : list CollisionDetector.LogEntry,
    List.length h
    = (CollisionDetector.countType "boundary" h
       + CollisionDetector.countType "self" h
       + CollisionDetector.countType "food" h)%nat.
Proof.
  unfold CollisionDetector.countType.
  induction h as [|[t [c | c | c]] h IH]; simpl; lia.
Qed.

(** X14. The collision log holds the last fifty collisions: logging
    collisions one after the other onto a history of at most fifty leaves
    the last fifty of all, in their order. In the statistics of any
    history the counts by type add up to the total, and the recent entries
    are the last ten of the history. *)
Theorem collision_log_keeps_the_last_fifty :
  forall (h entries : list CollisionDetector.LogEntry),
    (List.length h <= 50)%nat ->
    List.fold_left (fun history e => CollisionDetector.logCollision history (snd e) (fst e))
                   entries h
    = List.skipn (List.length (h ++ entries) - 50) (h ++ entries) /\
    (List.length
       (List.fold_left (fun history e => CollisionDetector.logCollision history (snd e) (fst e))
                       entries h)
     <= 50)%nat /\
    CollisionDetector.total (CollisionDetector.getStatistics h)
    = (CollisionDetector.byType_boundary (CollisionDetector.getStatistics h)
       + CollisionDetector.byType_self (CollisionDetector.getStatistics h)
       + CollisionDetector.byType_food (CollisionDetector.getStatistics h))%nat /\
    CollisionDetector.recent (CollisionDetector.getStatistics h)
    = List.skipn (List.length h - 10) h /\
    (List.length (CollisionDetector.recent (CollisionDetector.getStatistics h)) <= 10)%nat.
Proof.
  intros h entries Hh.
  destruct (bounded_log_fold
              CollisionDetector.LogEntry 50
              (fun history e => CollisionDetector.logCollision history (snd e) (fst e))
              ltac:(intros q [t c]; reflexivity) entries h Hh) as [H1 H2].
  split; [exact H1|]; split; [exact H2|].
  split; [apply countType_total|].
  split; [reflexivity|].
  cbn [CollisionDetector.getStatistics CollisionDetector.recent].
  rewrite length_skipn; lia.
Qed.

Lemma collision_log_witness :
  List.map fst
           (List.fold_left
              (fun history e => CollisionDetector.logCollision history (snd e) (fst e))
              (List.map (fun n => (Z.of_nat n,
                                   CollisionDetector.SelfOf
                                     (CollisionDetector.mkSelf true None 1)))
                        (List.seq 0 52))
              [])
  = List.map Z.of_nat (List.seq 2 50).
Proof.
  destruct (collision_log_keeps_the_last_fifty
              []
              (List.map (fun n => (Z.of_nat n,
                                   CollisionDetector.SelfOf
                                     (CollisionDetector.mkSelf true None 1)))
                        (List.seq 0 52))
              ltac:(simpl; lia)) as [-> _].
  reflexivity.
Defined.

(** ** The initial snake *)

Lemma nth_error_initialBody :
  forall startX startY n i k,
    (k < n)%nat ->
    List.nth_error (Snake.initialBody startX startY i n) k
    = Some (utils.createPosition (startX - (i + Z.of_nat k)) startY).
Proof.
  intros startX startY n; induction n as [|n IH]; intros i k Hk; [lia|].
  destruct k as [|k]; simpl.
  - replace (i + 0) with i by lia; reflexivity.
  - rewrite IH by lia; do 2 f_equal; lia.
Qed.

Lemma length_initialBody :
  forall startX startY n i, List.length (Snake.initialBody startX startY i n) = n.
Proof.
  intros startX startY n; induction n as [|n IH]; intros i; simpl; [reflexivity|].
  rewrite IH; reflexivity.
Qed.

Lemma Forall_initialBody :
  forall cfg startX startY n i,
    0 <= startY < board_rows cfg ->
    (List.Forall (fun p => utils.isValidPosition cfg p = true)
                 (Snake.initialBody startX startY i n)
     <-> forall k : nat, (k < n)%nat -> 0 <= startX - i - Z.of_nat k < board_columns cfg).
Proof.
  intros cfg startX startY n; induction n as [|n IH]; intros i Hy; simpl.
  - split; [intros _ k Hk; lia | constructor].
  - rewrite Forall_cons_iff, (IH (i + 1) Hy); split.
    + intros [Hv Hrest] [|k] Hk.
      * unfold utils.isValidPosition in Hv; simpl in Hv.
        rewrite !andb_true_iff in Hv; lia.
      * specialize (Hrest k ltac:(lia)); lia.
    + intros H; split.
      * specialize (H 0%nat ltac:(lia)).
        unfold utils.isValidPosition; simpl; rewrite !andb_true_iff.
        repeat split; lia.
      * intros k Hk; specialize (H (S k) ltac:(lia)); lia.
Qed.

Lemma reset_on_board :
  forall cfg : GameConfig,
    0 < board_columns cfg -> 0 < board_rows cfg ->
    (List.Forall (fun p => utils.isValidPosition cfg p = true)
                 (Snake.body (Snake.reset cfg))
     <-> Z.of_nat (snake_initialLength cfg) <= board_columns cfg / 2 + 1).
Proof.
  intros cfg Hc Hr; unfold Snake.reset; cbn [Snake.body].
  assert (Hy : 0 <= board_rows cfg / 2 < board_rows cfg)
    by (split; [apply Z.div_pos; lia | apply Z.div_lt_upper_bound; lia]).
  assert (Hx : 0 <= board_columns cfg / 2 < board_columns cfg)
    by (split; [apply Z.div_pos; lia | apply Z.div_lt_upper_bound; lia]).
  rewrite (Forall_initialBody cfg _ _ _ 0 Hy); split.
  - intros H; destruct (snake_initialLength cfg) as [|n]; [lia|].
    specialize (H n ltac:(lia)); lia.
  - intros H k Hk; lia.
Qed.

(** X15. A reset snake has the configured number of segments, laid in the
    middle row from the middle column leftwards, one column apart, and
    heads right with the same direction queued and no growth pending. On a
    board with at least one cell all its segments are on the board exactly
    when the initial length is at most one more than the middle column's
    index: a longer snake starts with segments off the board. *)
Theorem reset_lays_the_snake_left_of_the_centre :
  forall cfg : GameConfig,
    List.length (Snake.body (Snake.reset cfg)) = snake_initialLength cfg /\
    (forall k : nat,
        (k < snake_initialLength cfg)%nat ->
        List.nth_error (Snake.body (Snake.reset cfg)) k
        = Some (utils.createPosition (board_columns cfg / 2 - Z.of_nat k)
                                     (board_rows cfg / 2))) /\
    Snake.direction (Snake.reset cfg) = RIGHT /\
    Snake.nextDirection (Snake.reset cfg) = RIGHT /\
    Snake.growing (Snake.reset cfg) = false /\
    Snake.length (Snake.reset cfg) = Z.of_nat (snake_initialLength cfg) /\
    (0 < board_columns cfg -> 0 < board_rows cfg ->
     (List.Forall (fun p => utils.isValidPosition cfg p = true)
                  (Snake.body (Snake.reset cfg))
      <-> Z.of_nat (snake_initialLength cfg) <= board_columns cfg / 2 + 1)).
Proof.
  intros cfg; unfold Snake.reset; cbn [Snake.body Snake.direction Snake.nextDirection
                                          Snake.growing Snake.length].
  split; [apply length_initialBody|].
  split; [intros k Hk; rewrite nth_error_initialBody by exact Hk; reflexivity|].
  repeat (split; [reflexivity|]).
  intros Hc Hr; exact (reset_on_board cfg Hc Hr).
Qed.

(** On the board of the source the three segments are (15,15), (14,15),
    (13,15); a snake of 17 on it would start with a segment in column
    -1. *)
Example reset_on_the_source_board :
  Snake.body (Snake.reset gameConfig)
  = [Sample.at_ 15 15; Sample.at_ 14 15; Sample.at_ 13 15] /\
  List.nth_error
    (Snake.body (Snake.reset (mkGameConfig 30 30 17 150 "#f39c12" 18 10))) 16
  = Some (Sample.at_ (-1) 15).
Proof. split; reflexivity. Qed.

(** ** What a tick leaves alone *)

Lemma handleFoodCollision_kept :
  forall cfg g fc r now,
    let g' := fst (Game.handleFoodCollision cfg g fc r now) in
    Game.highScore g' = Game.highScore g /\
    Game.storage g' = Game.storage g /\
    Game.lastUpdateTime g' = Game.lastUpdateTime g /\
    Game.gameStartTime g' = Game.gameStartTime g /\
    Game.gameEndTime g' = Game.gameEndTime g /\
    ((Game.speed g' = Game.speed g /\ Game.timers g' = Game.timers g) \/
     (exists effect,
         CollisionDetector.specialEffect fc = Some effect /\
         Game.speed g' = Z.max 50 (Game.speed g - 50) /\
         Game.timers g' = Game.timers g ++ [(now + Food.duration effect, Game.speed g)])).
Proof.
  intros cfg g fc r now; unfold Game.handleFoodCollision.
  destruct (Food.consume (Game.food g)) as [pts f1].
  cbn [Game.with_food Game.with_score Game.with_snake Game.snake Game.food].
  destruct (Food.generateNewPosition cfg f1 (Snake.grow (Game.snake g)) r now)
    as [[ok f2] r'].
  destruct (CollisionDetector.specialEffect fc) as [effect|];
    [unfold Game.handleSpecialEffect; destruct (String.eqb _ _)|];
    cbn; repeat split; try (left; split; reflexivity).
  right; exists effect; repeat split.
Qed.

(** The state between the handling of the food collision and the end of
    the tick: the moved snake, growing when it ate, in the controller as it
    was. *)
Lemma middle_fields :
  forall cfg g moved fc r now g2 r2,
    (g2, r2) =
      (if CollisionDetector.food_detected fc
       then Game.handleFoodCollision cfg (Game.with_snake g moved) fc r now
       else (Game.with_snake g moved, r)) ->
    Game.state g2 = Game.state g /\
    Game.paused g2 = Game.paused g /\
    Game.gameLoopId g2 = Game.gameLoopId g /\
    Game.highScore g2 = Game.highScore g /\
    Game.storage g2 = Game.storage g /\
    Snake.body (Game.snake g2) = Snake.body moved /\
    Snake.direction (Game.snake g2) = Snake.direction moved /\
    Snake.nextDirection (Game.snake g2) = Snake.nextDirection moved /\
    Snake.length (Game.snake g2) = Snake.length moved.
Proof.
  intros cfg g moved fc r now g2 r2 E2.
  destruct (CollisionDetector.food_detected fc).
  - destruct (handleFoodCollision_fields cfg (Game.with_snake g moved) fc r now)
      as (Hsn & Hst & Hpa & Hl & _).
    destruct (handleFoodCollision_kept cfg (Game.with_snake g moved) fc r now)
      as (Hhs & Hsto & _).
    rewrite <- E2 in Hsn, Hst, Hpa, Hl, Hhs, Hsto; cbn [fst] in *.
    rewrite Hsn, Hst, Hpa, Hl, Hhs, Hsto; repeat split.
  - injection E2 as -> _; repeat split.
Qed.

(** ** Relations between the states of a session *)

Section StepRule.

Variable cfg : GameConfig.
Variable R : Game.t -> Game.t -> Prop.

Hypothesis R_refl : forall g, R g g.
Hypothesis R_trans : forall g1 g2 g3, R g1 g2 -> R g2 g3 -> R g1 g3.
Hypothesis R_tick :
  forall g r t g' r', Rng_ok r -> Game.update cfg g r t = Some (g', r') -> R g g'.
Hypothesis R_clock : forall g t, R g (Game.with_lastUpdateTime g t).
Hypothesis R_loop : forall g b, R g (Game.with_gameLoopId g b).
Hypothesis R_place :
  forall g r t, Rng_ok r ->
    R g (Game.with_food g (snd (fst (Food.generateNewPosition
                                       cfg (Game.food g) (Game.snake g) r t)))).
Hypothesis R_entered : forall g t, R g (Game.entered cfg g t).
Hypothesis R_pause :
  forall g, Game.state g = PLAYING -> R g (Game.with_state g PAUSED true).
Hypothesis R_resume :
  forall g, Game.state g = PAUSED -> R g (Game.with_state g PLAYING false).
Hypothesis R_turn : forall g d, R g (Game.changeDirection g d).
Hypothesis R_timer : forall g, R g (Game.runTimer g).

Lemma gameLoop_relates :
  forall g r t g' r',
    Rng_ok r -> Game.gameLoop cfg g r t = Some (g', r') -> R g g' /\ Rng_ok r'.
Proof.
  intros g r t g' r' Hr H.
  apply gameLoop_inv in H as (g1 & Hu & Hl).
  assert (H1 : R g g1 /\ Rng_ok r').
  { destruct Hu as [[-> ->] | (gu & Hu & ->)]; [auto|].
    split; [eapply R_trans; [eapply R_tick; eassumption | apply R_clock]|].
    eapply Rng_suffix_ok; [eapply update_suffix; eassumption | assumption]. }
  destruct H1 as [H1 Hr']; split; [|assumption].
  destruct Hl as [-> | ->]; [assumption|].
  eapply R_trans; [exact H1 | apply R_loop].
Qed.

Lemma stopGameLoop_relates : forall g, R g (Game.stopGameLoop g).
Proof.
  intros g; unfold Game.stopGameLoop.
  destruct (Game.gameLoopId g); [apply R_loop | apply R_refl].
Qed.

Lemma startGameLoop_relates :
  forall g r t g' r',
    Rng_ok r -> Game.startGameLoop cfg g r t = Some (g', r') -> R g g' /\ Rng_ok r'.
Proof.
  intros g r t g' r' Hr H.
  apply startGameLoop_inv, gameLoop_relates in H as [H Hr']; [|assumption].
  split; [|assumption].
  eapply R_trans; [apply R_loop|]; eapply R_trans; [apply R_clock | exact H].
Qed.

Lemma pause_relates : forall g, R g (Game.pause g).
Proof.
  intros g; unfold Game.pause.
  destruct (GameState_eqb (Game.state g) PLAYING) eqn:E; cbn [negb]; [|apply R_refl].
  apply GameState_eqb_eq in E.
  eapply R_trans; [apply R_pause; assumption | apply stopGameLoop_relates].
Qed.

Lemma resume_relates :
  forall g r t g' r',
    Rng_ok r -> Game.resume cfg g r t = Some (g', r') -> R g g'.
Proof.
  intros g r t g' r' Hr; unfold Game.resume.
  destruct (GameState_eqb (Game.state g) PAUSED) eqn:E; cbn [negb].
  - apply GameState_eqb_eq in E; intros H.
    apply startGameLoop_relates in H as [H _]; [|assumption].
    eapply R_trans; [apply R_resume; assumption | exact H].
  - intros H; injection H as <- _; apply R_refl.
Qed.

Lemma start_relates :
  forall g r t g' r',
    Rng_ok r -> Game.start cfg g r t = Some (g', r') -> R g g'.
Proof.
  intros g r t g' r' Hr; unfold Game.start.
  destruct (Game.startGameLoop cfg (Game.entered cfg g t) r t) as [[g3 r3]|] eqn:E3;
    [|discriminate].
  apply startGameLoop_relates in E3 as [H3 Hr3]; [|assumption].
  pose proof (R_place g3 r3 t Hr3) as Hp.
  destruct (Food.generateNewPosition cfg (Game.food g3) (Game.snake g3) r3 t)
    as [[ok f] r4].
  intros H; injection H as <- _.
  eapply R_trans; [apply R_entered|]; eapply R_trans; [exact H3 | exact Hp].
Qed.

(** A reflexive and transitive relation that the nine building blocks of
    the entry points respect relates every state to the next. *)
Lemma step_relates :
  forall g e g', Event_ok e -> step cfg g e = Some g' -> R g g'.
Proof.
  intros g e g'; destruct e as [r t | | r t | r t | r t | d | r t | ]; simpl; intros Hr.
  - destruct (Game.start cfg g r t) as [[g1 r1]|] eqn:E; [|discriminate].
    intros H; injection H as <-; eapply start_relates; eassumption.
  - intros H; injection H as <-; apply pause_relates.
  - destruct (Game.resume cfg g r t) as [[g1 r1]|] eqn:E; [|discriminate].
    intros H; injection H as <-; eapply resume_relates; eassumption.
  - unfold Game.togglePause.
    destruct (GameState_eqb (Game.state g) PLAYING).
    + intros H; injection H as <-; apply pause_relates.
    + destruct (GameState_eqb (Game.state g) PAUSED).
      * destruct (Game.resume cfg g r t) as [[g1 r1]|] eqn:E; [|discriminate].
        intros H; injection H as <-; eapply resume_relates; eassumption.
      * intros H; injection H as <-; apply R_refl.
  - unfold Game.restart.
    destruct (Game.start cfg (Game.stopGameLoop g) r t) as [[g1 r1]|] eqn:E; [|discriminate].
    intros H; injection H as <-.
    eapply R_trans; [apply stopGameLoop_relates | eapply start_relates; eassumption].
  - intros H; injection H as <-; apply R_turn.
  - destruct (Game.gameLoopId g).
    + destruct (Game.gameLoop cfg g r t) as [[g1 r1]|] eqn:E; [|discriminate].
      intros H; injection H as <-.
      eapply gameLoop_relates; eassumption.
    + intros H; injection H as <-; apply R_refl.
  - intros H; injection H as <-; apply R_timer.
Qed.

End StepRule.

Lemma reachable_by_steps :
  forall cfg (P : Game.t -> Prop),
    (forall stored, P (Game.new cfg stored)) ->
    (forall g e g', P g -> Event_ok e -> step cfg g e = Some g' -> P g') ->
    forall g, reachable cfg g -> P g.
Proof.
  intros cfg P Hnew Hstep g H; induction H as [stored | g e g' _ IH Hok Hs].
  - apply Hnew.
  - eapply Hstep; eassumption.
Qed.

(** ** The flags of the controller *)

Lemma update_flags :
  forall cfg g r t g' r',
    Game.update cfg g r t = Some (g', r') ->
    (g' = g /\ (Game.state g <> PLAYING \/ Game.paused g = true)) \/
    (Game.state g = PLAYING /\ Game.paused g = false /\ Game.paused g' = false /\
     ((Game.state g' = PLAYING /\ Game.gameLoopId g' = Game.gameLoopId g) \/
      (Game.state g' = GAME_OVER /\ Game.gameLoopId g' = false))).
Proof.
  intros cfg g r t g' r' H.
  apply update_inv in H
    as [(-> & _ & Hc) | (Hs & Hp & moved & c & g2 & r2 & _ & _ & E2 & Hend)];
    [left; auto|].
  right; split; [assumption|]; split; [assumption|].
  destruct (middle_fields _ _ _ _ _ _ _ _ E2) as (Hs2 & Hp2 & Hl2 & _).
  rewrite Hs in Hs2; rewrite Hp in Hp2.
  destruct Hend as [(_ & -> & _) | (_ & -> & _)].
  - unfold Game.gameOver, Game.stopGameLoop.
    destruct (Game.gameLoopId g2) eqn:El; cbn;
      (split; [assumption | right; split; [reflexivity | assumption || reflexivity]]).
  - cbn [Game.updateGameSpeed Game.with_speed Game.with_food Game.paused Game.state
           Game.gameLoopId].
    split; [assumption|]; left; split; assumption.
Qed.

Lemma gameLoop_flags :
  forall cfg g r t g' r',
    Game.gameLoop cfg g r t = Some (g', r') ->
    Game.paused g = false -> Game.state g <> PAUSED ->
    (Game.gameLoopId g = true -> Game.state g = PLAYING) ->
    (Game.paused g' = true <-> Game.state g' = PAUSED) /\
    (Game.gameLoopId g' = true <-> Game.state g' = PLAYING).
Proof.
  intros cfg g r t g' r' H Hp Hs Hl.
  assert (Hidle :
            forall g0 : Game.t,
              Game.paused g0 = false -> Game.state g0 <> PAUSED ->
              (Game.gameLoopId g0 = true -> Game.state g0 = PLAYING) ->
              forall gx,
                gx = (if GameState_eqb (Game.state g0) PLAYING && negb (Game.paused g0)
                      then Game.with_gameLoopId g0 true else g0) ->
                (Game.paused gx = true <-> Game.state gx = PAUSED) /\
                (Game.gameLoopId gx = true <-> Game.state gx = PLAYING)).
  { intros g0 Hp0 Hs0 Hl0 gx ->; rewrite Hp0.
    destruct (Game.state g0) eqn:Es; cbn; rewrite ?Hp0, ?Es;
      try contradiction; repeat split; intros; try discriminate; try reflexivity;
      auto. }
  unfold Game.gameLoop in H.
  destruct (t - Game.lastUpdateTime g >=? Game.speed g).
  - destruct (Game.update cfg g r t) as [[gu ru]|] eqn:Eu; [|discriminate].
    injection H as H _.
    apply update_flags in Eu
      as [(-> & _) | (_ & _ & Hpu & [(Hsu & Hlu) | (Hsu & Hlu)])].
    + apply (Hidle (Game.with_lastUpdateTime g t)); auto.
    + apply (Hidle (Game.with_lastUpdateTime gu t)); cbn; auto.
      * rewrite Hsu; discriminate.
    + apply (Hidle (Game.with_lastUpdateTime gu t)); cbn; auto.
      * rewrite Hsu; discriminate.
      * rewrite Hlu; discriminate.
  - injection H as H _; apply (Hidle g); auto.
Qed.

Lemma start_flags :
  forall cfg g r t g' r',
    Game.start cfg g r t = Some (g', r') ->
    (Game.paused g' = true <-> Game.state g' = PAUSED) /\
    (Game.gameLoopId g' = true <-> Game.state g' = PLAYING).
Proof.
  intros cfg g r t g' r'; unfold Game.start.
  destruct (Game.startGameLoop cfg (Game.entered cfg g t) r t) as [[g3 r3]|] eqn:E3;
    [|discriminate].
  apply startGameLoop_inv, gameLoop_flags in E3;
    [| reflexivity | discriminate | discriminate].
  destruct (Food.generateNewPosition cfg (Game.food g3) (Game.snake g3) r3 t)
    as [[ok f] r4].
  intros H; injection H as <- _; exact E3.
Qed.

Lemma pause_flags :
  forall g,
    ((Game.paused g = true <-> Game.state g = PAUSED) /\
     (Game.gameLoopId g = true <-> Game.state g = PLAYING)) ->
    (Game.paused (Game.pause g) = true <-> Game.state (Game.pause g) = PAUSED) /\
    (Game.gameLoopId (Game.pause g) = true <-> Game.state (Game.pause g) = PLAYING).
Proof.
  intros g Hg; unfold Game.pause.
  destruct (GameState_eqb (Game.state g) PLAYING); cbn [negb]; [|exact Hg].
  unfold Game.stopGameLoop; cbn [Game.with_state Game.gameLoopId].
  destruct (Game.gameLoopId g) eqn:El; cbn; rewrite ?El;
    repeat split; intros; try discriminate; reflexivity.
Qed.

Lemma resume_flags :
  forall cfg g r t g' r',
    ((Game.paused g = true <-> Game.state g = PAUSED) /\
     (Game.gameLoopId g = true <-> Game.state g = PLAYING)) ->
    Game.resume cfg g r t = Some (g', r') ->
    (Game.paused g' = true <-> Game.state g' = PAUSED) /\
    (Game.gameLoopId g' = true <-> Game.state g' = PLAYING).
Proof.
  intros cfg g r t g' r' Hg; unfold Game.resume.
  destruct (GameState_eqb (Game.state g) PAUSED); cbn [negb].
  - intros H; apply startGameLoop_inv, gameLoop_flags in H;
      [exact H | reflexivity | discriminate | discriminate].
  - intros H; injection H as <- _; exact Hg.
Qed.

(** In a session the paused flag is set exactly in the paused state, and a
    frame request is held exactly in the playing state. *)
Lemma session_flags :
  forall cfg g,
    reachable cfg g ->
    (Game.paused g = true <-> Game.state g = PAUSED) /\
    (Game.gameLoopId g = true <-> Game.state g = PLAYING).
Proof.
  intros cfg; apply reachable_by_steps.
  - intros stored; cbn; repeat split; intros; discriminate.
  - intros g e g' Hg _; destruct e as [r t | | r t | r t | r t | d | r t | ]; simpl.
    + destruct (Game.start cfg g r t) as [[g1 r1]|] eqn:E; [|discriminate].
      intros H; injection H as <-; eapply start_flags; eassumption.
    + intros H; injection H as <-; apply pause_flags; assumption.
    + destruct (Game.resume cfg g r t) as [[g1 r1]|] eqn:E; [|discriminate].
      intros H; injection H as <-; eapply resume_flags; eassumption.
    + unfold Game.togglePause.
      destruct (GameState_eqb (Game.state g) PLAYING).
      * intros H; injection H as <-; apply pause_flags; assumption.
      * destruct (GameState_eqb (Game.state g) PAUSED).
        -- destruct (Game.resume cfg g r t) as [[g1 r1]|] eqn:E; [|discriminate].
           intros H; injection H as <-; eapply resume_flags; eassumption.
        -- intros H; injection H as <-; assumption.
    + unfold Game.restart.
      destruct (Game.start cfg (Game.stopGameLoop g) r t) as [[g1 r1]|] eqn:E;
        [|discriminate].
      intros H; injection H as <-; eapply start_flags; eassumption.
    + intros H; injection H as <-; unfold Game.changeDirection.
      destruct (_ && _); exact Hg.
    + destruct (Game.gameLoopId g) eqn:El.
      * destruct (Game.gameLoop cfg g r t) as [[g1 r1]|] eqn:E; [|discriminate].
        intros H; injection H as <-.
        destruct Hg as [Hp Hl].
        assert (Hs : Game.state g = PLAYING) by (apply Hl; reflexivity).
        apply gameLoop_flags in E; [exact E | | congruence | auto].
        destruct (Game.paused g); [|reflexivity].
        assert (Game.state g = PAUSED) by (apply Hp; reflexivity); congruence.
      * intros H; injection H as <-; rewrite El; assumption.
    + intros H; injection H as <-; unfold Game.runTimer.
      destruct (Game.timers g) as [|[due sp] rest]; exact Hg.
Qed.

(** X16. In a session the paused flag is set exactly in the paused state
    and a frame request is held exactly in the playing state: frames run
    while the game is played and at no other time. So [isPlaying] answers
    whether a frame request is held, and losing the window's focus does
    what [pause] does. *)
Theorem frames_are_requested_exactly_while_playing :
  forall (cfg : GameConfig) (g : Game.t),
    reachable cfg g ->
    (Game.paused g = true <-> Game.state g = PAUSED) /\
    (Game.gameLoopId g = true <-> Game.state g = PLAYING) /\
    Game.isPlaying g = Game.gameLoopId g /\
    InputHandler.onWindowBlur g = Game.pause g.
Proof.
  intros cfg g Hr; destruct (session_flags cfg g Hr) as [Hp Hl].
  split; [exact Hp|]; split; [exact Hl|].
  unfold InputHandler.onWindowBlur, Game.isPlaying, Game.pause.
  destruct (Game.gameLoopId g) eqn:El.
  - assert (Hs : Game.state g = PLAYING) by (apply Hl; reflexivity).
    destruct (Game.paused g) eqn:Epa;
      [assert (H : Game.state g = PAUSED) by (apply Hp; reflexivity); congruence|].
    rewrite Hs; split; reflexivity.
  - assert (Hs : Game.state g <> PLAYING)
      by (intros Hs; apply Hl in Hs; discriminate Hs).
    destruct (Game.state g); try contradiction; split; reflexivity.
Qed.

Lemma frames_are_requested_witness :
  Game.state Sample.boosted = PAUSED /\
  Game.paused Sample.boosted = true /\
  Game.gameLoopId Sample.boosted = false /\
  Game.isPlaying Sample.boosted = Game.gameLoopId Sample.boosted.
Proof.
  destruct (frames_are_requested_exactly_while_playing
              gameConfig Sample.boosted boosted_reachable) as (Hp & Hl & Hi & _).
  assert (Hs : Game.state Sample.boosted = PAUSED) by (vm_compute; reflexivity).
  split; [exact Hs|]; split; [apply Hp; exact Hs|]; split; [|exact Hi].
  destruct (Game.gameLoopId Sample.boosted); [|reflexivity].
  assert (H : Game.state Sample.boosted = PLAYING) by (apply Hl; reflexivity).
  rewrite Hs in H; discriminate H.
Defined.

(** ** The high score *)

Lemma step_high_score :
  forall cfg g e g',
    Event_ok e -> step cfg g e = Some g' ->
    (Game.highScore g = Game.storage g -> Game.highScore g' = Game.storage g') /\
    Game.storage g <= Game.storage g' /\
    ((Game.state g = GAME_OVER -> Game.score g <= Game.storage g) ->
     Game.state g' = GAME_OVER -> Game.score g' <= Game.storage g').
Proof.
  intros cfg.
  apply (step_relates
           cfg
           (fun g g' =>
              (Game.highScore g = Game.storage g -> Game.highScore g' = Game.storage g') /\
              Game.storage g <= Game.storage g' /\
              ((Game.state g = GAME_OVER -> Game.score g <= Game.storage g) ->
               Game.state g' = GAME_OVER -> Game.score g' <= Game.storage g')));
    cbv beta.
  - intros g; repeat split; auto; lia.
  - intros g1 g2 g3 (A1 & B1 & C1) (A2 & B2 & C2); repeat split; auto; lia.
  - intros g r t g' r' _ H.
    apply update_inv in H
      as [(-> & _ & _) | (Hs & _ & moved & c & g2 & r2 & _ & _ & E2 & Hend)];
      [repeat split; auto; lia|].
    destruct (middle_fields _ _ _ _ _ _ _ _ E2) as (Hs2 & _ & _ & Hh2 & Ht2 & _).
    destruct Hend as [(_ & -> & _) | (_ & -> & _)].
    + unfold Game.gameOver, Game.stopGameLoop.
      destruct (Game.gameLoopId g2); cbn;
        rewrite Hh2, Ht2;
        destruct (Z.gtb_spec (Game.score g2) (Game.storage g));
        repeat split; intros; auto; lia.
    + cbn; rewrite Hh2, Ht2, Hs2, Hs.
      repeat split; intros; auto; try lia; discriminate.
  - intros g t; cbn; repeat split; auto; lia.
  - intros g b; cbn; repeat split; auto; lia.
  - intros g r t _; cbn; repeat split; auto; lia.
  - intros g t; cbn; repeat split; intros; auto; try lia; discriminate.
  - intros g _; cbn; repeat split; intros; auto; try lia; discriminate.
  - intros g _; cbn; repeat split; intros; auto; try lia; discriminate.
  - intros g d; unfold Game.changeDirection.
    destruct (_ && _); cbn; repeat split; auto; lia.
  - intros g; unfold Game.runTimer.
    destruct (Game.timers g) as [|[due sp] rest]; cbn; repeat split; auto; lia.
Qed.

Lemma session_high_score :
  forall cfg g,
    reachable cfg g ->
    Game.highScore g = Game.storage g /\
    (Game.state g = GAME_OVER -> Game.score g <= Game.storage g).
Proof.
  intros cfg; apply reachable_by_steps.
  - intros stored; cbn; split; [reflexivity | discriminate].
  - intros g e g' [Hh Hs] He H.
    destruct (step_high_score cfg g e g' He H) as (A & _ & C); auto.
Qed.

(** X17. In a session the high score shown is the stored one, the stored
    one never goes down, and when the game is over it is at least the score
    of the game just played. *)
Theorem high_score_is_the_best_score_stored :
  forall (cfg : GameConfig) (g : Game.t),
    reachable cfg g ->
    Game.highScore g = Game.storage g /\
    (Game.state g = GAME_OVER -> Game.score g <= Game.storage g) /\
    (forall e g',
        Event_ok e -> step cfg g e = Some g' ->
        Game.storage g <= Game.storage g' /\ Game.highScore g' = Game.storage g').
Proof.
  intros cfg g Hr; destruct (session_high_score cfg g Hr) as [Hh Hs].
  split; [exact Hh|]; split; [exact Hs|].
  intros e g' He H.
  destruct (step_high_score cfg g e g' He H) as (A & B & _); auto.
Qed.

Lemma high_score_witness :
  Game.highScore Sample.bitten = 20 /\
  Game.storage Sample.bitten = 20 /\
  Game.score Sample.bitten <= Game.storage Sample.bitten.
Proof.
  destruct (high_score_is_the_best_score_stored
              gameConfig Sample.bitten bitten_reachable) as (Hh & Hs & _).
  assert (Hst : Game.storage Sample.bitten = 20) by (vm_compute; reflexivity).
  split; [rewrite Hh; exact Hst|]; split; [exact Hst|].
  apply Hs; vm_compute; reflexivity.
Defined.

(** ** The table of the variants *)

Lemma placed_table :
  forall cfg f snake now res,
    placed cfg f snake now res -> foodTable cfg f -> foodTable cfg (snd res).
Proof.
  intros cfg f snake now res [|p Hfree] Hf; [exact Hf|].
  unfold foodTable; cbn; auto.
Qed.

Lemma consume_table :
  forall cfg f, foodTable cfg f -> foodTable cfg (snd (Food.consume f)).
Proof.
  intros cfg f Hf; unfold Food.consume.
  destruct (Food.active f); cbn [negb snd]; exact Hf.
Qed.

Lemma checkForSpecialFood_table :
  forall cfg f sc r,
    foodTable cfg f -> foodTable cfg (snd (fst (Food.checkForSpecialFood cfg f sc r))).
Proof.
  intros cfg f sc r Hf; unfold Food.checkForSpecialFood, Math_random.
  destruct (Food.FoodType_eqb (Food.type f) Food.normal) eqn:E; cbn [negb fst snd];
    [|exact Hf].
  destruct (negb (Qle_bool (Food.specialChance sc) (r 0%nat))); cbn [fst snd];
    [|exact Hf].
  assert (Hn : Food.specialFood f = None).
  { unfold foodTable in Hf; destruct (Food.type f); try discriminate E; apply Hf. }
  destruct (Food.specialTypes (Qfloor (Number.mul (r 1%nat) (inject_Z 3)))) as [[| | |]|];
    unfold foodTable; cbn; auto.
Qed.

Lemma update_food_table :
  forall cfg f sc r now,
    foodTable cfg f -> foodTable cfg (fst (Food.update cfg f sc r now)).
Proof.
  intros cfg f sc r now Hf; unfold Food.update.
  destruct (negb (Food.active f)); [exact Hf|].
  assert (H1 : foodTable cfg (if Food.hasExpired f now then Food.resetToNormal cfg f else f))
    by (destruct (Food.hasExpired f now); [unfold foodTable; cbn; auto | exact Hf]).
  pose proof (checkForSpecialFood_table
                cfg (if Food.hasExpired f now then Food.resetToNormal cfg f else f)
                sc r H1) as H2.
  destruct (Food.checkForSpecialFood cfg _ sc r) as [[b f2] r']; exact H2.
Qed.

Lemma tick_table :
  forall cfg g r t g' r',
    Game.update cfg g r t = Some (g', r') ->
    foodTable cfg (Game.food g) -> foodTable cfg (Game.food g').
Proof.
  intros cfg g r t g' r' H Hf.
  apply update_inv in H
    as [(-> & _ & _) | (_ & _ & moved & c & g2 & r2 & _ & _ & E2 & Hend)];
    [assumption|].
  assert (H2 : foodTable cfg (Game.food g2)).
  { destruct (CollisionDetector.food_detected (CollisionDetector.food c)).
    - destruct (handleFoodCollision_fields cfg (Game.with_snake g moved)
                  (CollisionDetector.food c) r t) as (_ & _ & _ & _ & _ & Hp & Hfd).
      rewrite <- E2 in Hfd; cbn [fst] in Hfd; rewrite Hfd.
      eapply placed_table; [exact Hp|].
      apply consume_table; exact Hf.
    - injection E2 as -> _; exact Hf. }
  destruct Hend as [(_ & -> & _) | (_ & -> & _)].
  - destruct (gameOver_fields g2 t) as (_ & _ & _ & -> & _); exact H2.
  - cbn [Game.updateGameSpeed Game.with_speed Game.with_food Game.food].
    apply update_food_table; exact H2.
Qed.

Lemma place_table :
  forall cfg g r t,
    foodTable cfg (Game.food g) ->
    foodTable cfg (snd (fst (Food.generateNewPosition cfg (Game.food g) (Game.snake g) r t))).
Proof.
  intros cfg g r t Hf.
  eapply placed_table; [apply generateNewPosition_placed | exact Hf].
Qed.

Lemma session_table :
  forall cfg g, reachable cfg g -> foodTable cfg (Game.food g).
Proof.
  intros cfg; apply reachable_by_steps.
  - intros stored; unfold foodTable; cbn; auto.
  - intros g e g' Hg He H; revert Hg.
    revert g e g' He H.
    apply (step_relates
             cfg (fun g g' => foodTable cfg (Game.food g) -> foodTable cfg (Game.food g')));
      cbv beta.
    + auto.
    + auto.
    + intros g r t g' r' _ H; eapply tick_table; eassumption.
    + auto.
    + auto.
    + intros g r t _ Hf; apply place_table; exact Hf.
    + intros g t Hf; exact Hf.
    + auto.
    + auto.
    + intros g d; unfold Game.changeDirection; destruct (_ && _); auto.
    + intros g; unfold Game.runTimer.
      destruct (Game.timers g) as [|[due sp] rest]; auto.
Qed.

(** X18. In a session the food's value is the one its type gives it: the
    base points for normal and speed food, twice the base points for bonus
    food, five times for mega food; and the food carries the speed effect
    of 5000 milliseconds exactly when its type is speed. *)
Theorem food_value_follows_its_type :
  forall (cfg : GameConfig) (g : Game.t),
    reachable cfg g ->
    match Food.type (Game.food g) with
    | Food.normal =>
        Food.value (Game.food g) = food_points cfg /\
        Food.specialFood (Game.food g) = None
    | Food.bonus =>
        Food.value (Game.food g) = food_points cfg * 2 /\
        Food.specialFood (Game.food g) = None
    | Food.mega =>
        Food.value (Game.food g) = food_points cfg * 5 /\
        Food.specialFood (Game.food g) = None
    | Food.speed =>
        Food.value (Game.food g) = food_points cfg /\
        Food.specialFood (Game.food g) = Some (Food.mkEffect "speed" 5000)
    end.
Proof. intros cfg g Hr; exact (session_table cfg g Hr). Qed.

Lemma food_value_witness :
  Food.type (Game.food Sample.boosted) = Food.normal /\
  Food.value (Game.food Sample.boosted) = 10 /\
  Food.specialFood (Game.food Sample.boosted) = None.
Proof.
  pose proof (food_value_follows_its_type gameConfig Sample.boosted boosted_reachable) as H.
  assert (Ht : Food.type (Game.food Sample.boosted) = Food.normal)
    by (vm_compute; reflexivity).
  rewrite Ht in H; split; [exact Ht | exact H].
Defined.

(** ** The range of the interval *)

Lemma session_interval :
  forall cfg g,
    50 <= snake_speed cfg -> 0 <= food_points cfg ->
    reachable cfg g ->
    foodTable cfg (Game.food g) /\
    0 <= Game.score g /\
    50 <= Game.speed g <= Z.max 75 (snake_speed cfg) /\
    List.Forall (fun tm => 50 <= snd tm <= Z.max 75 (snake_speed cfg)) (Game.timers g).
Proof.
  intros cfg g H50 Hpts; revert g; apply reachable_by_steps.
  - intros stored; split; [unfold foodTable; cbn; auto|].
    cbn; repeat split; try lia; constructor.
  - intros g e g' Hg He H; revert Hg.
    revert g e g' He H.
    apply (step_relates
             cfg
             (fun g g' =>
                foodTable cfg (Game.food g) /\
                0 <= Game.score g /\
                50 <= Game.speed g <= Z.max 75 (snake_speed cfg) /\
                List.Forall (fun tm => 50 <= snd tm <= Z.max 75 (snake_speed cfg))
                            (Game.timers g) ->
                foodTable cfg (Game.food g') /\
                0 <= Game.score g' /\
                50 <= Game.speed g' <= Z.max 75 (snake_speed cfg) /\
                List.Forall (fun tm => 50 <= snd tm <= Z.max 75 (snake_speed cfg))
                            (Game.timers g')));
      cbv beta.
    + auto.
    + auto.
    + intros g r t g' r' _ H (Hf & Hsc & Hsp & Htm).
      split; [eapply tick_table; eassumption|].
      apply update_inv in H
        as [(-> & _ & _) | (_ & _ & moved & c & g2 & r2 & _ & Hc & E2 & Hend)];
        [auto|].
      assert (H2 : 0 <= Game.score g2 /\
                   50 <= Game.speed g2 <= Z.max 75 (snake_speed cfg) /\
                   List.Forall (fun tm => 50 <= snd tm <= Z.max 75 (snake_speed cfg))
                               (Game.timers g2)).
      { destruct (CollisionDetector.food_detected (CollisionDetector.food c)).
        - destruct (handleFoodCollision_fields cfg (Game.with_snake g moved)
                      (CollisionDetector.food c) r t) as (_ & _ & _ & _ & Hscore & _).
          destruct (handleFoodCollision_kept cfg (Game.with_snake g moved)
                      (CollisionDetector.food c) r t) as (_ & _ & _ & _ & _ & Hk).
          rewrite <- E2 in Hscore, Hk; cbn [fst] in Hscore, Hk.
          cbn [Game.with_snake Game.score Game.food Game.speed Game.timers] in Hscore, Hk.
          split.
          + rewrite Hscore.
            assert (0 <= fst (Food.consume (Game.food g))); [|lia].
            unfold Food.consume; destruct (Food.active (Game.food g)); cbn; [|lia].
            unfold foodTable in Hf.
            destruct (Food.type (Game.food g)); destruct Hf as [-> _]; lia.
          + destruct Hk as [[-> ->] | (effect & _ & -> & ->)]; [auto|].
            split; [lia|].
            apply Forall_app; split; [assumption|].
            constructor; [cbn; lia | constructor].
        - injection E2 as -> _; auto. }
      destruct H2 as (Hsc2 & Hsp2 & Htm2).
      destruct Hend as [(_ & -> & _) | (_ & -> & _)].
      * destruct (gameOver_fields g2 t) as (_ & -> & _ & _ & -> & ->); auto.
      * cbn [Game.updateGameSpeed Game.with_speed Game.with_food Game.score Game.speed
               Game.timers].
        split; [assumption|]; split; [|assumption].
        assert (0 <= Game.score g2 / 100) by (apply Z.div_pos; lia).
        lia.
    + auto.
    + auto.
    + intros g r t _ (Hf & Hrest); split; [apply place_table; exact Hf | exact Hrest].
    + intros g t (Hf & _ & _ & Htm); split; [exact Hf|].
      cbn; repeat split; try lia; exact Htm.
    + auto.
    + auto.
    + intros g d; unfold Game.changeDirection; destruct (_ && _); auto.
    + intros g (Hf & Hsc & Hsp & Htm); unfold Game.runTimer.
      destruct (Game.timers g) as [|[due sp] rest] eqn:Et; [rewrite Et; auto|].
      inversion Htm as [|? ? Hhd Htl]; subst.
      cbn in Hhd; cbn; auto.
Qed.

(** X19. With a configured interval of at least 50 milliseconds and base
    points that are not negative, the tick interval of a session stays
    between 50 milliseconds and the larger of 75 and the configured
    interval, whatever is eaten and whichever callbacks of the speed effect
    run, also those registered in an earlier game; and the score is never
    negative. *)
Theorem tick_interval_stays_in_range :
  forall (cfg : GameConfig) (g : Game.t),
    50 <= snake_speed cfg ->
    0 <= food_points cfg ->
    reachable cfg g ->
    50 <= Game.speed g <= Z.max 75 (snake_speed cfg) /\
    0 <= Game.score g /\
    List.Forall (fun tm => 50 <= snd tm <= Z.max 75 (snake_speed cfg)) (Game.timers g).
Proof.
  intros cfg g H50 Hpts Hr.
  destruct (session_interval cfg g H50 Hpts Hr) as (_ & Hsc & Hsp & Htm); auto.
Qed.

Lemma tick_interval_witness :
  50 <= Game.speed Sample.boosted <= 150 /\
  0 <= Game.score Sample.boosted /\
  List.Forall (fun tm => 50 <= snd tm <= 150) (Game.timers Sample.boosted).
Proof.
  apply (tick_interval_stays_in_range gameConfig Sample.boosted);
    [simpl; lia | simpl; lia | exact boosted_reachable].
Defined.

(** ** Invariants of the snake *)

Section SnakeRule.

Variable cfg : GameConfig.
Variable Inv : Snake.t -> Prop.

Hypothesis Inv_reset : Inv (Snake.reset cfg).
Hypothesis Inv_move : forall s moved, Inv s -> Snake.move s = Some moved -> Inv moved.
Hypothesis Inv_grow : forall s, Inv s -> Inv (Snake.grow s).
Hypothesis Inv_turn : forall s d, Inv s -> Inv (snd (Snake.changeDirection s d)).

(** What holds of a reset snake and is kept by [move], [grow] and
    [changeDirection] holds of the snake of every reachable state. *)
Lemma snake_invariant : forall g, reachable cfg g -> Inv (Game.snake g).
Proof.
  apply (reachable_invariant cfg (fun g => Inv (Game.snake g))); cbv beta.
  - intros g r t g' r' Hg _ H.
    apply update_snake in H as [-> | (moved & Hm & [-> | ->])]; [assumption | |].
    + eapply Inv_move; eassumption.
    + apply Inv_grow; eapply Inv_move; eassumption.
  - intros g t Hg; exact Hg.
  - intros g b Hg; exact Hg.
  - intros g r t Hg _; exact Hg.
  - intros g t; exact Inv_reset.
  - intros g Hg _; exact Hg.
  - intros g Hg _; exact Hg.
  - intros g d Hg; unfold Game.changeDirection.
    destruct (_ && _); [apply Inv_turn|]; exact Hg.
  - intros g Hg; unfold Game.runTimer.
    destruct (Game.timers g) as [|[due sp] rest]; exact Hg.
  - intros stored; exact Inv_reset.
Qed.

End SnakeRule.

Lemma move_inv :
  forall s moved,
    Snake.move s = Some moved ->
    exists head rest,
      Snake.body s = head :: rest /\
      moved =
        (let d := Snake.nextDirection s in
         let newHead := utils.createPosition (x head + dir_x d) (y head + dir_y d) in
         if Snake.growing s
         then Snake.mk (newHead :: head :: rest) d d false (Snake.length s + 1)
         else Snake.mk (newHead :: List.removelast (head :: rest)) d d
                       false (Snake.length s)).
Proof.
  intros s moved Hm.
  destruct (Snake.body s) as [|head rest] eqn:Hb;
    [unfold Snake.move, Snake.getHead in Hm; rewrite Hb in Hm; discriminate|].
  rewrite (move_cons s head rest Hb) in Hm; injection Hm as <-.
  exists head, rest; split; reflexivity.
Qed.

(** The head is one step ahead of the segment behind it, in the direction
    last moved, and the queued direction is not the reverse of it. *)
Lemma session_neck :
  forall cfg g,
    reachable cfg g ->
    utils.areDirectionsOpposite (Snake.nextDirection (Game.snake g))
                                (Snake.direction (Game.snake g)) = false /\
    forall h n rest,
      Snake.body (Game.snake g) = h :: n :: rest ->
      x h = x n + dir_x (Snake.direction (Game.snake g)) /\
      y h = y n + dir_y (Snake.direction (Game.snake g)).
Proof.
  intros cfg.
  apply (snake_invariant
           cfg
           (fun s =>
              utils.areDirectionsOpposite (Snake.nextDirection s) (Snake.direction s) = false /\
              forall h n rest,
                Snake.body s = h :: n :: rest ->
                x h = x n + dir_x (Snake.direction s) /\
                y h = y n + dir_y (Snake.direction s))); cbv beta.
  - split; [reflexivity|].
    unfold Snake.reset; cbn [Snake.body Snake.direction].
    intros h n rest H.
    destruct (snake_initialLength cfg) as [|[|k]]; cbn in H; try discriminate H.
    injection H as <- <- _; cbn; lia.
  - intros s moved [Ho Hn] Hm.
    apply move_inv in Hm as (head & rest & Hb & ->); cbv zeta.
    destruct (Snake.growing s); cbn [Snake.body Snake.direction Snake.nextDirection].
    + split; [destruct (Snake.nextDirection s); reflexivity|].
      intros h n rest' H; injection H as <- <- _; cbn; lia.
    + split; [destruct (Snake.nextDirection s); reflexivity|].
      intros h n rest' H.
      destruct rest as [|b rest]; [discriminate H|].
      rewrite removelast_cons in H; injection H as <- <- _; cbn; lia.
  - intros s H; exact H.
  - intros s d [Ho Hn]; unfold Snake.changeDirection.
    destruct (utils.areDirectionsOpposite d (Snake.direction s)) eqn:E;
      cbn [snd Snake.body Snake.direction Snake.nextDirection]; auto.
Qed.

(** X20. In a session the snake never steps back onto the segment behind
    its head: the direction it moves in is never the reverse of the one it
    moved in last, however many turns were asked for between two
    ticks. *)
Theorem snake_never_turns_back_on_its_neck :
  forall (cfg : GameConfig) (g : Game.t) (h n : Position) (rest : list Position)
         (moved : Snake.t),
    reachable cfg g ->
    Snake.body (Game.snake g) = h :: n :: rest ->
    Snake.move (Game.snake g) = Some moved ->
    Snake.getHead moved <> Some n /\
    utils.areDirectionsOpposite (Snake.direction moved)
                                (Snake.direction (Game.snake g)) = false.
Proof.
  intros cfg g h n rest moved Hr Hb Hm.
  destruct (session_neck cfg g Hr) as [Ho Hn].
  destruct (Hn h n rest Hb) as [Hx Hy].
  apply move_inv in Hm as (head & rest0 & Hb0 & ->); cbv zeta.
  rewrite Hb in Hb0; injection Hb0 as <- <-.
  assert (Hstep : forall d e : Direction,
             utils.areDirectionsOpposite d e = false ->
             ~ (dir_x e + dir_x d = 0 /\ dir_y e + dir_y d = 0))
    by (intros [] []; cbn; intros; try discriminate; lia).
  specialize (Hstep _ _ Ho).
  destruct (Snake.growing (Game.snake g));
    cbn [Snake.getHead Snake.body Snake.direction List.hd_error];
    (split; [|exact Ho]);
    intros Heq; injection Heq as Heq; apply Hstep;
    apply (f_equal x) in Heq as Ex; apply (f_equal y) in Heq as Ey;
    cbn in Ex, Ey; lia.
Qed.

Lemma coiled_snake :
  Game.snake Sample.coiled
  = Snake.mk [Sample.at_ 17 16; Sample.at_ 18 16; Sample.at_ 18 15; Sample.at_ 17 15;
              Sample.at_ 16 15] LEFT UP false 5.
Proof. vm_compute; reflexivity. Qed.

Lemma snake_never_turns_back_witness :
  Snake.getHead
    (Snake.mk [Sample.at_ 17 15; Sample.at_ 17 16; Sample.at_ 18 16; Sample.at_ 18 15;
               Sample.at_ 17 15] UP UP false 5)
  <> Some (Sample.at_ 18 16).
Proof.
  refine (proj1 (snake_never_turns_back_on_its_neck
                   gameConfig Sample.coiled (Sample.at_ 17 16) (Sample.at_ 18 16)
                   [Sample.at_ 18 15; Sample.at_ 17 15; Sample.at_ 16 15]
                   _ coiled_reachable _ _)).
  - rewrite coiled_snake; reflexivity.
  - rewrite coiled_snake; reflexivity.
Defined.

Lemma chain_removelast : forall l, chain l -> chain (List.removelast l).
Proof.
  induction l as [|a l IH]; [auto|].
  destruct l as [|b l]; [auto|].
  intros [Hab Hc]; rewrite removelast_cons.
  destruct l as [|c l]; [exact I|].
  rewrite removelast_cons; split; [exact Hab|].
  rewrite <- removelast_cons; apply IH; exact Hc.
Qed.

Lemma chain_initialBody :
  forall startX startY n i, chain (Snake.initialBody startX startY i n).
Proof.
  intros startX startY n; induction n as [|n IH]; intros i; [exact I|].
  cbn [Snake.initialBody].
  specialize (IH (i + 1)).
  destruct n as [|n]; [exact I|].
  cbn [Snake.initialBody] in *; split; [|exact IH].
  unfold adjacent; cbn; lia.
Qed.

Lemma chain_nth :
  forall l i p q,
    chain l ->
    List.nth_error l i = Some p -> List.nth_error l (S i) = Some q -> adjacent p q.
Proof.
  induction l as [|a l IH]; intros i p q Hc Hp Hq; [destruct i; discriminate Hp|].
  destruct l as [|b l]; [destruct i; discriminate Hq|].
  destruct Hc as [Hab Hc].
  destruct i as [|i].
  - cbn in Hp, Hq; injection Hp as <-; injection Hq as <-; exact Hab.
  - exact (IH i p q Hc Hp Hq).
Qed.

Lemma session_chain :
  forall cfg g, reachable cfg g -> chain (Snake.body (Game.snake g)).
Proof.
  intros cfg.
  apply (snake_invariant cfg (fun s => chain (Snake.body s))); cbv beta.
  - apply chain_initialBody.
  - intros s moved Hc Hm.
    apply move_inv in Hm as (head & rest & Hb & ->); cbv zeta.
    rewrite Hb in Hc.
    assert (Hn : chain (utils.createPosition
                          (x head + dir_x (Snake.nextDirection s))
                          (y head + dir_y (Snake.nextDirection s)) :: head :: rest)).
    { split; [|exact Hc].
      unfold adjacent; destruct (Snake.nextDirection s); cbn; lia. }
    destruct (Snake.growing s); cbn [Snake.body]; [exact Hn|].
    rewrite <- removelast_cons; apply chain_removelast; exact Hn.
  - intros s H; exact H.
  - intros s d H; unfold Snake.changeDirection.
    destruct (utils.areDirectionsOpposite d (Snake.direction s)); exact H.
Qed.

(** X21. In a session the snake's body is a chain: every segment is on a
    cell next to the cell of the segment behind it, one step away along
    one axis. *)
Theorem body_is_a_chain_of_adjacent_cells :
  forall (cfg : GameConfig) (g : Game.t) (i : nat) (p q : Position),
    reachable cfg g ->
    List.nth_error (Snake.body (Game.snake g)) i = Some p ->
    List.nth_error (Snake.body (Game.snake g)) (S i) = Some q ->
    Z.abs (x p - x q) + Z.abs (y p - y q) = 1.
Proof.
  intros cfg g i p q Hr Hp Hq.
  exact (chain_nth _ i p q (session_chain cfg g Hr) Hp Hq).
Qed.

Lemma body_is_a_chain_witness :
  Z.abs (x (Sample.at_ 18 15) - x (Sample.at_ 17 15))
  + Z.abs (y (Sample.at_ 18 15) - y (Sample.at_ 17 15)) = 1.
Proof.
  apply (body_is_a_chain_of_adjacent_cells
           gameConfig Sample.coiled 2 (Sample.at_ 18 15) (Sample.at_ 17 15)
           coiled_reachable).
  - rewrite coiled_snake; reflexivity.
  - rewrite coiled_snake; reflexivity.
Defined.

(** X22. In a session the snake's length counter is the number of its
    segments, and the snake never has fewer segments than the configured
    initial length. *)
Theorem length_counter_counts_the_segments :
  forall (cfg : GameConfig) (g : Game.t),
    reachable cfg g ->
    Snake.length (Game.snake g) = Z.of_nat (List.length (Snake.body (Game.snake g))) /\
    (snake_initialLength cfg <= List.length (Snake.body (Game.snake g)))%nat.
Proof.
  intros cfg.
  apply (snake_invariant
           cfg
           (fun s =>
              Snake.length s = Z.of_nat (List.length (Snake.body s)) /\
              (snake_initialLength cfg <= List.length (Snake.body s))%nat)); cbv beta.
  - unfold Snake.reset; cbn [Snake.body Snake.length].
    rewrite length_initialBody; split; [reflexivity | lia].
  - intros s moved [Hl Hn] Hm.
    apply move_inv in Hm as (head & rest & Hb & ->); cbv zeta.
    rewrite Hb in Hl, Hn.
    destruct (Snake.growing s); cbn [Snake.body Snake.length].
    + cbn [List.length] in *; lia.
    + change (List.length (?a :: List.removelast (head :: rest)))
        with (S (List.length (List.removelast (head :: rest)))).
      rewrite removelast_length; cbn [List.length] in *; lia.
  - intros s H; exact H.
  - intros s d H; unfold Snake.changeDirection.
    destruct (utils.areDirectionsOpposite d (Snake.direction s)); exact H.
Qed.

Lemma length_counter_witness :
  Snake.length (Game.snake Sample.coiled) = 5 /\
  (3 <= List.length (Snake.body (Game.snake Sample.coiled)))%nat.
Proof.
  destruct (length_counter_counts_the_segments
              gameConfig Sample.coiled coiled_reachable) as [Hl Hn].
  split; [rewrite Hl, coiled_snake; reflexivity | exact Hn].
Defined.

(** ** The snake and the board *)

Lemma Forall_removelast :
  forall (A : Type) (P : A -> Prop) (l : list A),
    List.Forall P l -> List.Forall P (List.removelast l).
Proof.
  intros A P l H; apply Forall_forall; intros a Ha.
  apply In_removelast in Ha; revert a Ha; apply Forall_forall; exact H.
Qed.

(** X23. On a board with at least one cell on which the initial snake
    fits, only the head ever leaves the board: in a session every segment
    behind the head is on the board, and while the game is not over the
    head is too. *)
Theorem only_the_head_ever_leaves_the_board :
  forall (cfg : GameConfig) (g : Game.t),
    0 < board_columns cfg ->
    0 < board_rows cfg ->
    Z.of_nat (snake_initialLength cfg) <= board_columns cfg / 2 + 1 ->
    reachable cfg g ->
    List.Forall (fun p => utils.isValidPosition cfg p = true)
                (List.tl (Snake.body (Game.snake g))) /\
    (Game.state g <> GAME_OVER ->
     List.Forall (fun p => utils.isValidPosition cfg p = true)
                 (Snake.body (Game.snake g))).
Proof.
  intros cfg g Hc Hr Hlen.
  assert (Hreset : List.Forall (fun p => utils.isValidPosition cfg p = true)
                               (Snake.body (Snake.reset cfg)))
    by (apply reset_on_board; assumption).
  assert (Htl : forall l : list Position,
             List.Forall (fun p => utils.isValidPosition cfg p = true) l ->
             List.Forall (fun p => utils.isValidPosition cfg p = true) (List.tl l))
    by (intros [|a l] H; [exact H | inversion H; assumption]).
  revert g.
  apply (reachable_invariant
           cfg
           (fun g =>
              List.Forall (fun p => utils.isValidPosition cfg p = true)
                          (List.tl (Snake.body (Game.snake g))) /\
              (Game.state g <> GAME_OVER ->
               List.Forall (fun p => utils.isValidPosition cfg p = true)
                           (Snake.body (Game.snake g))))); cbv beta.
  - intros g r t g' r' [Ht Ha] _ H.
    apply update_inv in H
      as [(-> & _ & _) | (Hs & _ & moved & c & g2 & r2 & Hm & Hcol & E2 & Hend)];
      [auto|].
    destruct (middle_fields _ _ _ _ _ _ _ _ E2) as (_ & _ & _ & _ & _ & Hb2 & _).
    assert (Hbody : List.Forall (fun p => utils.isValidPosition cfg p = true)
                                (Snake.body (Game.snake g)))
      by (apply Ha; congruence).
    apply checkAllCollisions_inv in Hcol as (head & Hh & Hbd & _ & _ & Hge).
    pose proof Hm as Hmv.
    apply move_inv in Hmv as (head0 & rest & Hb & Hmoved).
    assert (Hrest : List.Forall (fun p => utils.isValidPosition cfg p = true)
                                (List.tl (Snake.body moved))).
    { rewrite Hmoved; cbv zeta; rewrite <- Hb.
      destruct (Snake.growing (Game.snake g)); cbn [Snake.body List.tl];
        [exact Hbody | apply Forall_removelast; exact Hbody]. }
    destruct Hend as [(_ & -> & _) | (He & -> & _)].
    + destruct (gameOver_fields g2 t) as (Hst & _ & -> & _).
      rewrite Hb2; split; [exact Hrest|].
      intros Hne; contradiction.
    + cbn [Game.updateGameSpeed Game.with_speed Game.with_food Game.snake Game.state].
      rewrite Hb2; split; [exact Hrest|]; intros _.
      rewrite Hge in He; apply orb_false_iff in He as [He _].
      rewrite Hbd, checkBoundaryCollision_isValidPosition in He.
      apply negb_false_iff in He.
      unfold Snake.getHead in Hh.
      destruct (Snake.body moved) as [|h tl]; [discriminate Hh|].
      injection Hh as ->; constructor; assumption.
  - intros g t Hg; exact Hg.
  - intros g b Hg; exact Hg.
  - intros g r t Hg _; exact Hg.
  - intros g t; cbn [Game.entered Game.resetGame Game.snake Game.state]; auto.
  - intros g [Ht Ha] Hs; split; [exact Ht|]; intros _; apply Ha; congruence.
  - intros g [Ht Ha] Hs; split; [exact Ht|]; intros _; apply Ha; congruence.
  - intros g d Hg; unfold Game.changeDirection.
    destruct (_ && _); [|assumption].
    unfold Snake.changeDirection.
    destruct (utils.areDirectionsOpposite d (Snake.direction (Game.snake g))); exact Hg.
  - intros g Hg; unfold Game.runTimer.
    destruct (Game.timers g) as [|[due sp] rest]; exact Hg.
  - intros stored; cbn [Game.new Game.snake Game.state]; auto.
Qed.

Lemma only_the_head_witness :
  List.Forall (fun p => utils.isValidPosition gameConfig p = true)
              (Snake.body (Game.snake Sample.coiled)).
Proof.
  apply (only_the_head_ever_leaves_the_board gameConfig Sample.coiled);
    [reflexivity | reflexivity | vm_compute; discriminate | exact coiled_reachable |].
  replace (Game.state Sample.coiled) with PLAYING by (vm_compute; reflexivity).
  discriminate.
Defined.

(** ** Sessions run to the end *)

(** X24. With an initial length of at least one no entry point raises in a
    session: whatever the player and the host do, in whatever order, every
    event leads to a state. *)
Theorem sessions_never_raise :
  forall (cfg : GameConfig) (stored : Z) (es : list Event),
    (1 <= snake_initialLength cfg)%nat ->
    Forall Event_ok es ->
    exists g,
      run cfg (Game.new cfg stored) es = Some g /\ reachable cfg g.
Proof.
  intros cfg stored es Hlen.
  assert (H : forall g0,
             reachable cfg g0 -> Forall Event_ok es ->
             exists g, run cfg g0 es = Some g /\ reachable cfg g).
  { induction es as [|e es IH]; intros g0 Hg0 Hok.
    - exists g0; split; [reflexivity | exact Hg0].
    - inversion Hok as [|? ? He Hes]; subst.
      destruct (step_total cfg g0 e Hlen Hg0) as (g1 & Hstep).
      cbn [run]; rewrite Hstep.
      apply IH; [|exact Hes].
      eapply reachable_step; eassumption. }
  apply H; apply reachable_new.
Qed.

Lemma sessions_never_raise_witness :
  exists g,
    run gameConfig (Game.new gameConfig 0) Sample.speedSession = Some g /\
    reachable gameConfig g.
Proof.
  apply (sessions_never_raise gameConfig 0 Sample.speedSession);
    [simpl; lia | exact speedSession_ok].
Defined.

(** A snake of no segment makes the first tick raise: [move] reads the
    coordinates of a head that is not there. *)
Example headless_session_raises :
  run Sample.headless (Game.new Sample.headless 0)
      [EStart Sample.half 0; EFrame Sample.half 150] = None.
Proof. vm_compute; reflexivity. Qed.

(** ** The food in a session *)

(** X25. On a board with at least one cell, the food of a session, when
    active, has a position, on a cell of the board that no segment of the
    snake is on. *)
Theorem active_food_is_on_a_free_cell :
  forall (cfg : GameConfig) (g : Game.t),
    0 < board_columns cfg ->
    0 < board_rows cfg ->
    reachable cfg g ->
    Food.active (Game.food g) = true ->
    exists p,
      Food.position (Game.food g) = Some p /\
      utils.isValidPosition cfg p = true /\
      ~ In p (Snake.body (Game.snake g)).
Proof.
  intros cfg g Hc Hr Hg Ha.
  destruct (food_never_under_snake cfg Hc Hr g Hg Ha) as (p & Hp & Hv & Hfree).
  exists p; split; [exact Hp|]; split; [exact Hv|].
  apply isPositionOccupied_not_In; exact Hfree.
Qed.

Lemma coiled_food :
  Game.food Sample.coiled
  = Food.mk (Some (Sample.at_ 0 0)) 10 true Food.normal "#f39c12" 18 300 None.
Proof. vm_compute; reflexivity. Qed.

Lemma active_food_witness :
  exists p,
    Food.position (Game.food Sample.coiled) = Some p /\
    utils.isValidPosition gameConfig p = true /\
    ~ In p (Snake.body (Game.snake Sample.coiled)).
Proof.
  apply (active_food_is_on_a_free_cell gameConfig Sample.coiled);
    [reflexivity | reflexivity | exact coiled_reachable |].
  rewrite coiled_food; reflexivity.
Defined.

(** ** The ticks that matter *)

Lemma generateNewPosition_complete :
  forall cfg f snake r now p,
    utils.isValidPosition cfg p = true ->
    Snake.isPositionOccupied snake p = false ->
    fst (fst (Food.generateNewPosition cfg f snake r now)) = true.
Proof.
  intros cfg f snake r now p Hv Hfree; unfold Food.generateNewPosition.
  eapply attemptLoop_complete; eassumption.
Qed.

(** What the collision check reports for a snake with a head, in terms of
    the cells. *)
Lemma checkAllCollisions_cells :
  forall cfg s f h,
    Snake.getHead s = Some h ->
    exists c,
      CollisionDetector.checkAllCollisions cfg s f = Some c /\
      (utils.isValidPosition cfg h = false \/ In h (List.tl (Snake.body s)) ->
       CollisionDetector.gameEnding c = true) /\
      (utils.isValidPosition cfg h = true -> ~ In h (List.tl (Snake.body s)) ->
       CollisionDetector.gameEnding c = false) /\
      (Food.active f = true -> Food.position f = Some h ->
       CollisionDetector.food_detected (CollisionDetector.food c) = true /\
       CollisionDetector.specialEffect (CollisionDetector.food c) = Food.specialFood f).
Proof.
  intros cfg s f h Hh.
  assert (Hb : Snake.body s = h :: List.tl (Snake.body s)).
  { unfold Snake.getHead in Hh; destruct (Snake.body s) as [|a l]; [discriminate Hh|].
    injection Hh as ->; reflexivity. }
  destruct (checkAllCollisions_total cfg s f) as (c & Hc);
    [rewrite Hb; discriminate|].
  exists c; split; [exact Hc|].
  apply checkAllCollisions_inv in Hc as (head & Hh' & Hbd & Hself & Hfc & Hge).
  rewrite Hh in Hh'; injection Hh' as <-.
  pose proof (checkSelfCollision_cons s h _ Hb) as Hcons.
  rewrite Hge, Hbd, checkBoundaryCollision_isValidPosition, Hself.
  split; [|split].
  - intros [Hv | Hin]; [rewrite Hv; reflexivity|].
    destruct (CollisionDetector.self_detected (CollisionDetector.checkSelfCollision s));
      [apply orb_true_r|].
    exfalso; apply (proj1 Hcons eq_refl); exact Hin.
  - intros Hv Hin; rewrite Hv, (proj2 Hcons Hin); reflexivity.
  - intros Ha Hp.
    unfold CollisionDetector.checkFoodCollision, Food.isEaten in Hfc.
    rewrite Ha, Hp, Hh, positionsEqual_refl in Hfc.
    injection Hfc as <-; split; reflexivity.
Qed.

(** X26. The tick that ends the game in a session: when the moved head is
    off the board or on a cell the body holds, the tick returns without a
    draw, the game is over with the frame request dropped, the score and
    the food are as they were, the snake is the moved one, and the stored
    high score is the larger of the stored one and the score. *)
Theorem lethal_tick_in_a_session_ends_the_game :
  forall (cfg : GameConfig) (g : Game.t) (r : Rng) (now : Z)
         (moved : Snake.t) (h : Position),
    0 < board_columns cfg ->
    0 < board_rows cfg ->
    reachable cfg g ->
    Game.state g = PLAYING ->
    Snake.move (Game.snake g) = Some moved ->
    Snake.getHead moved = Some h ->
    utils.isValidPosition cfg h = false \/ In h (List.tl (Snake.body moved)) ->
    exists g',
      Game.update cfg g r now = Some (g', r) /\
      Game.state g' = GAME_OVER /\
      Game.gameLoopId g' = false /\
      Game.gameEndTime g' = now /\
      Game.score g' = Game.score g /\
      Game.food g' = Game.food g /\
      Game.snake g' = moved /\
      Game.storage g' = Z.max (Game.storage g) (Game.score g) /\
      Game.highScore g' = Game.storage g'.
Proof.
  intros cfg g r now moved h Hc Hr Hg Hs Hm Hh Hlethal.
  assert (Hp : Game.paused g = false).
  { destruct (session_flags cfg g Hg) as [Hp _].
    destruct (Game.paused g); [|reflexivity].
    assert (H : Game.state g = PAUSED) by (apply Hp; reflexivity); congruence. }
  destruct (session_high_score cfg g Hg) as [Hhs _].
  destruct (checkAllCollisions_cells cfg moved (Game.food g) h Hh)
    as (c & Hcol & Hend & _ & _).
  specialize (Hend Hlethal).
  assert (Hd : CollisionDetector.food_detected (CollisionDetector.food c) = false).
  { destruct (CollisionDetector.food_detected (CollisionDetector.food c)) eqn:Ed;
      [|reflexivity].
    pose proof (lethal_step_is_never_on_food_in_a_session
                  cfg Hc Hr g moved c Hg Hm Hcol Ed) as Hno.
    congruence. }
  unfold Game.update; rewrite Hs, Hp, Hm; cbn [GameState_eqb negb orb].
  cbn [Game.with_snake Game.snake Game.food]; rewrite Hcol, Hd, Hend.
  eexists; split; [reflexivity|].
  unfold Game.gameOver, Game.stopGameLoop; cbn [Game.with_snake Game.gameLoopId].
  destruct (Game.gameLoopId g) eqn:El; cbn; rewrite ?El, Hhs;
    destruct (Z.gtb_spec (Game.score g) (Game.storage g));
    repeat split; try reflexivity; lia.
Qed.

Lemma coiled_controller :
  Game.state Sample.coiled = PLAYING /\
  Game.paused Sample.coiled = false /\
  Game.gameLoopId Sample.coiled = true /\
  Game.speed Sample.coiled = 150 /\
  Game.score Sample.coiled = 20 /\
  Game.storage Sample.coiled = 0.
Proof. repeat split; vm_compute; reflexivity. Qed.

Lemma lethal_tick_witness :
  exists g',
    Game.update gameConfig Sample.coiled Sample.half 900 = Some (g', Sample.half) /\
    Game.state g' = GAME_OVER /\
    Game.gameLoopId g' = false /\
    Game.gameEndTime g' = 900 /\
    Game.score g' = Game.score Sample.coiled /\
    Game.food g' = Game.food Sample.coiled /\
    Game.snake g'
    = Snake.mk [Sample.at_ 17 15; Sample.at_ 17 16; Sample.at_ 18 16; Sample.at_ 18 15;
                Sample.at_ 17 15] UP UP false 5 /\
    Game.storage g' = Z.max (Game.storage Sample.coiled) (Game.score Sample.coiled) /\
    Game.highScore g' = Game.storage g'.
Proof.
  apply (lethal_tick_in_a_session_ends_the_game
           gameConfig Sample.coiled Sample.half 900 _ (Sample.at_ 17 15));
    [reflexivity | reflexivity | exact coiled_reachable | apply coiled_controller
     | rewrite coiled_snake; reflexivity | reflexivity |].
  right; cbn; auto.
Defined.

(** X27. The tick that eats: when the moved head is on the active food, on
    the board and off the body, the tick returns and the game goes on; the
    score has grown by the value of the food, the interval is the one the
    new score gives, the snake is the moved one marked as growing, so that
    its next move makes it one segment longer; the new food is active
    whenever a cell of the board is free of the snake, and when it is
    active it is on a cell the snake is not on. *)
Theorem eating_tick_scores_and_grows :
  forall (cfg : GameConfig) (g : Game.t) (r : Rng) (now : Z)
         (moved : Snake.t) (p : Position),
    Game.state g = PLAYING ->
    Game.paused g = false ->
    Snake.move (Game.snake g) = Some moved ->
    Snake.getHead moved = Some p ->
    Food.active (Game.food g) = true ->
    Food.position (Game.food g) = Some p ->
    utils.isValidPosition cfg p = true ->
    ~ In p (List.tl (Snake.body moved)) ->
    exists g' r',
      Game.update cfg g r now = Some (g', r') /\
      Game.state g' = PLAYING /\
      Game.score g' = Game.score g + Food.value (Game.food g) /\
      Game.speed g' = scoreSpeed cfg (Game.score g') /\
      Game.snake g' = Snake.grow moved /\
      (forall moved',
          Snake.move (Game.snake g') = Some moved' ->
          List.length (Snake.body moved') = S (List.length (Snake.body moved))) /\
      (Food.active (Game.food g') = true ->
       exists q, Food.position (Game.food g') = Some q /\ ~ In q (Snake.body moved)) /\
      ((exists q, utils.isValidPosition cfg q = true /\ ~ In q (Snake.body moved)) ->
       Food.active (Game.food g') = true).
Proof.
  intros cfg g r now moved p Hs Hp Hm Hh Ha Hpos Hv Hfree.
  destruct (checkAllCollisions_cells cfg moved (Game.food g) p Hh)
    as (c & Hcol & _ & Hend & Hfood).
  specialize (Hend Hv Hfree).
  destruct (Hfood Ha Hpos) as [Hd _].
  unfold Game.update; rewrite Hs, Hp, Hm; cbn [GameState_eqb negb orb].
  cbn [Game.with_snake Game.snake Game.food]; rewrite Hcol, Hd, Hend.
  destruct (handleFoodCollision_fields cfg (Game.with_snake g moved)
              (CollisionDetector.food c) r now)
    as (Hsn & Hst & _ & _ & Hsc & Hpl & Hfd).
  cbn [Game.with_snake Game.snake Game.food Game.state Game.score] in Hsn, Hst, Hsc, Hpl, Hfd.
  destruct (Game.handleFoodCollision cfg (Game.with_snake g moved)
              (CollisionDetector.food c) r now) as [g2 r2].
  cbn [fst] in Hsn, Hst, Hsc, Hfd.
  destruct (update_food_position cfg (Game.food g2) (Game.score g2) r2 now) as [Hupos Huact].
  destruct (Food.update cfg (Game.food g2) (Game.score g2) r2 now) as [f3 r3].
  cbn [fst] in Hupos, Huact.
  destruct (consume_fields (Game.food g)) as (_ & Hcons & _).
  destruct (Hcons Ha) as (Hpts & Hinactive & _).
  exists (Game.updateGameSpeed cfg (Game.with_food g2 f3)), r3.
  split; [reflexivity|].
  cbn [Game.updateGameSpeed Game.with_speed Game.with_food Game.state Game.score
         Game.speed Game.snake Game.food].
  split; [congruence|].
  split; [rewrite Hsc, Hpts; reflexivity|].
  split; [reflexivity|].
  split; [exact Hsn|].
  destruct (placed_inv _ _ _ _ _ Hpl) as [Hyes Hno].
  split; [|split].
  - intros moved' Hm'; rewrite Hsn in Hm'.
    apply move_inv in Hm' as (head & rest & Hb & ->); cbv zeta.
    cbn [Snake.grow Snake.body Snake.growing] in *.
    rewrite Hb; reflexivity.
  - rewrite Huact, Hupos, Hfd; intros Hact.
    destruct (fst (fst (Food.generateNewPosition
                          cfg (snd (Food.consume (Game.food g))) (Snake.grow moved) r now)))
      eqn:Eok.
    + destruct (Hyes eq_refl) as (_ & q & Hq & Hoff).
      exists q; split; [exact Hq|].
      apply isPositionOccupied_not_In in Hoff; exact Hoff.
    + rewrite (Hno eq_refl), Hinactive in Hact; discriminate Hact.
  - intros (q & Hq & Hoff); rewrite Huact, Hfd.
    apply Hyes.
    apply (generateNewPosition_complete cfg _ (Snake.grow moved) r now q Hq).
    apply isPositionOccupied_not_In; exact Hoff.
Qed.

Lemma started_fields :
  Game.state Sample.started = PLAYING /\
  Game.paused Sample.started = false /\
  Game.snake Sample.started
  = Snake.mk [Sample.at_ 15 15; Sample.at_ 14 15; Sample.at_ 13 15] RIGHT RIGHT false 3 /\
  Game.food Sample.started
  = Food.mk (Some (Sample.at_ 16 15)) 10 true Food.normal "#f39c12" 18 0 None /\
  Game.score Sample.started = 0.
Proof. repeat split; vm_compute; reflexivity. Qed.

Lemma eating_tick_witness :
  exists g' r',
    Game.update gameConfig Sample.started Sample.half 150 = Some (g', r') /\
    Game.state g' = PLAYING /\
    Game.score g' = Game.score Sample.started + Food.value (Game.food Sample.started) /\
    Game.speed g' = scoreSpeed gameConfig (Game.score g') /\
    Game.snake g'
    = Snake.grow (Snake.mk [Sample.at_ 16 15; Sample.at_ 15 15; Sample.at_ 14 15]
                           RIGHT RIGHT false 3).
Proof.
  destruct started_fields as (Hs & Hp & Hsn & Hf & _).
  destruct (eating_tick_scores_and_grows
              gameConfig Sample.started Sample.half 150
              (Snake.mk [Sample.at_ 16 15; Sample.at_ 15 15; Sample.at_ 14 15]
                        RIGHT RIGHT false 3)
              (Sample.at_ 16 15))
    as (g' & r' & Hu & Hst & Hsc & Hsp & Hgrow & _);
    [exact Hs | exact Hp | rewrite Hsn; reflexivity | reflexivity
     | rewrite Hf; reflexivity | rewrite Hf; reflexivity | reflexivity
     | cbn; intros [H | [H | []]]; discriminate H |].
  exists g', r'; repeat split; assumption.
Defined.

(** ** The interval and the score *)

(** X28. The interval [updateGameSpeed] installs depends on the score
    alone, not on the interval in force: it is never below 75
    milliseconds, never grows when the score grows, is the same within
    each hundred points, and at a score of [100 * k] it is the configured
    interval less [5 * k], or 75 when that is less. *)
Theorem interval_steps_down_with_the_score :
  forall (cfg : GameConfig) (g : Game.t),
    75 <= Game.speed (Game.updateGameSpeed cfg g) /\
    (forall v, Game.speed (Game.updateGameSpeed cfg (Game.with_speed g v))
               = Game.speed (Game.updateGameSpeed cfg g)) /\
    (forall s1 s2,
        s1 <= s2 ->
        Game.speed (Game.updateGameSpeed cfg (Game.with_score g s2))
        <= Game.speed (Game.updateGameSpeed cfg (Game.with_score g s1))) /\
    (forall k j,
        0 <= j < 100 ->
        Game.speed (Game.updateGameSpeed cfg (Game.with_score g (100 * k + j)))
        = Z.max 75 (snake_speed cfg - 5 * k)).
Proof.
  intros cfg g; unfold Game.updateGameSpeed;
    cbn [Game.with_speed Game.with_score Game.speed Game.score].
  split; [lia|]; split; [reflexivity|]; split.
  - intros s1 s2 Hle.
    assert (s1 / 100 <= s2 / 100) by (apply Z.div_le_mono; lia); lia.
  - intros k j Hj.
    replace ((100 * k + j) / 100) with k; [lia|].
    apply (Z.div_unique (100 * k + j) 100 k j); lia.
Qed.

(** ** Starting and pausing *)

Lemma restart_is_start :
  forall cfg g r now, Game.restart cfg g r now = Game.start cfg g r now.
Proof.
  intros cfg g r now; unfold Game.restart, Game.start, Game.startGameLoop.
  destruct g as [sn fd sc hs st lu [|] sp pa gs ge tm sto]; reflexivity.
Qed.

(** X29. With a positive configured interval and the clock read once in
    the call, [start] and [restart] never raise, do the same, and begin a
    fresh game from any state: playing and not paused, a frame requested,
    the score at zero, the snake reset, the interval the configured one,
    the clock and the start time at the present; when a cell of the board
    is free of the reset snake the food is active. The high score and the
    stored one are kept, and so are the callbacks of the speed effect
    still to run. *)
Theorem start_begins_a_fresh_game :
  forall (cfg : GameConfig) (g : Game.t) (r : Rng) (now : Z),
    0 < snake_speed cfg ->
    exists g' r',
      Game.start cfg g r now = Some (g', r') /\
      Game.restart cfg g r now = Some (g', r') /\
      Game.state g' = PLAYING /\
      Game.paused g' = false /\
      Game.gameLoopId g' = true /\
      Game.score g' = 0 /\
      Game.snake g' = Snake.reset cfg /\
      Game.speed g' = snake_speed cfg /\
      Game.lastUpdateTime g' = now /\
      Game.gameStartTime g' = now /\
      Game.highScore g' = Game.highScore g /\
      Game.storage g' = Game.storage g /\
      Game.timers g' = Game.timers g /\
      ((exists q, utils.isValidPosition cfg q = true /\
                  ~ In q (Snake.body (Snake.reset cfg))) ->
       Food.active (Game.food g') = true).
Proof.
  intros cfg g r now Hspeed.
  rewrite restart_is_start.
  unfold Game.start, Game.startGameLoop, Game.gameLoop.
  assert (Hno : (now - now >=? snake_speed cfg) = false)
    by (rewrite Z.sub_diag, Z.geb_leb; apply Z.leb_gt; exact Hspeed).
  assert (Hloop :
            Game.with_lastUpdateTime
              (if Game.gameLoopId (Game.entered cfg g now)
               then Game.stopGameLoop (Game.entered cfg g now)
               else Game.entered cfg g now) now
            = Game.with_lastUpdateTime
                (Game.with_gameLoopId (Game.entered cfg g now) false) now).
  { unfold Game.stopGameLoop, Game.with_lastUpdateTime, Game.with_gameLoopId; cbn.
    destruct (Game.gameLoopId g) eqn:El; cbn; rewrite ?El; reflexivity. }
  rewrite Hloop.
  cbn [Game.with_lastUpdateTime Game.with_gameLoopId Game.entered Game.resetGame
         Game.lastUpdateTime Game.speed Game.state Game.paused Game.snake Game.food
         Game.score Game.highScore Game.gameLoopId Game.gameStartTime Game.gameEndTime
         Game.timers Game.storage GameState_eqb andb negb].
  rewrite Hno.
  cbn [Game.with_gameLoopId Game.state Game.paused Game.snake Game.food
         Game.score Game.highScore Game.gameLoopId Game.gameStartTime Game.gameEndTime
         Game.lastUpdateTime Game.speed Game.timers Game.storage GameState_eqb andb negb].
  match goal with
  | |- context [Food.generateNewPosition cfg ?f ?s r now] =>
      pose proof (generateNewPosition_placed cfg f s r now) as Hpl;
      pose proof (generateNewPosition_complete cfg f s r now) as Hcomp;
      destruct (Food.generateNewPosition cfg f s r now) as [[ok f'] r4]
  end.
  cbn [fst snd] in Hpl, Hcomp.
  eexists; eexists; split; [reflexivity|]; split; [reflexivity|].
  cbn; repeat split.
  intros (q & Hq & Hfree).
  destruct (placed_inv _ _ _ _ _ Hpl) as [Hyes _]; cbn [fst snd] in Hyes.
  apply Hyes, (Hcomp q Hq).
  apply isPositionOccupied_not_In; exact Hfree.
Qed.

Lemma start_begins_a_fresh_game_witness :
  exists g' r',
    Game.start gameConfig Sample.bitten Sample.half 2000 = Some (g', r') /\
    Game.restart gameConfig Sample.bitten Sample.half 2000 = Some (g', r') /\
    Game.state g' = PLAYING /\
    Game.score g' = 0 /\
    Game.snake g' = Snake.reset gameConfig /\
    Game.storage g' = Game.storage Sample.bitten.
Proof.
  destruct (start_begins_a_fresh_game gameConfig Sample.bitten Sample.half 2000)
    as (g' & r' & H1 & H2 & H3 & _ & _ & H4 & H5 & _ & _ & _ & _ & H6 & _);
    [reflexivity|].
  exists g', r'; repeat split; assumption.
Defined.

(** X30. Pausing a running game and resuming it, the clock read once in
    the call, gives the game back as it was, with only the tick clock set
    to the time of resuming, so the next tick comes a full interval later;
    nothing is drawn and the paused game differs from the running one in
    its state, its flag and the frame request alone. The key that toggles
    does the same both ways. *)
Theorem pause_then_resume_restarts_only_the_clock :
  forall (cfg : GameConfig) (g : Game.t) (r : Rng) (now : Z),
    Game.state g = PLAYING ->
    Game.paused g = false ->
    Game.gameLoopId g = true ->
    0 < Game.speed g ->
    Game.pause g = Game.with_gameLoopId (Game.with_state g PAUSED true) false /\
    Game.resume cfg (Game.pause g) r now = Some (Game.with_lastUpdateTime g now, r) /\
    Game.togglePause cfg g r now = Some (Game.pause g, r) /\
    Game.togglePause cfg (Game.pause g) r now = Some (Game.with_lastUpdateTime g now, r).
Proof.
  intros cfg g r now Hs Hp Hl Hspeed.
  destruct g as [sn fd sc hs st lu gl sp pa gs ge tm sto].
  cbn in Hs, Hp, Hl, Hspeed; subst st pa gl.
  assert (Hno : (now - now >=? sp) = false)
    by (rewrite Z.sub_diag, Z.geb_leb; apply Z.leb_gt; exact Hspeed).
  unfold Game.togglePause, Game.resume, Game.pause, Game.startGameLoop, Game.gameLoop,
    Game.stopGameLoop; cbn; rewrite Hno; cbn.
  repeat split.
Qed.

Lemma pause_then_resume_witness :
  Game.resume gameConfig (Game.pause Sample.coiled) Sample.half 1000
  = Some (Game.with_lastUpdateTime Sample.coiled 1000, Sample.half).
Proof.
  apply (pause_then_resume_restarts_only_the_clock gameConfig Sample.coiled Sample.half 1000);
    [apply coiled_controller | apply coiled_controller | apply coiled_controller |].
  replace (Game.speed Sample.coiled) with 150
    by (symmetry; apply coiled_controller).
  reflexivity.
Defined.

(** * The end of the game and the speed effect in a session *)

(** ** A lethal step awards no points *)

Lemma In_Position_dec :
  forall (p : Position) (l : list Position), In p l \/ ~ In p l.
Proof.
  intros p l; induction l as [|q l IH]; [right; intros []|].
  destruct (utils.positionsEqual q p) eqn:E.
  - apply positionsEqual_eq in E; left; left; exact E.
  - apply positionsEqual_neq in E; destruct IH as [IH | IH].
    + left; right; exact IH.
    + right; intros [H | H]; contradiction.
Qed.

(** C1. In a session, a tick in which the moved snake's head is off the
    board or on its own body (the collision check reports a boundary or a
    self collision) is game-ending, is never also a food collision, and
    ends the game without points: the tick returns without a draw, the
    state is GameOver, and the score and the food are those of before the
    tick. So for every tick of a session in which the step produces a
    lethal collision, with or without a food collision, the controller
    goes to GameOver and the score is unchanged. *)
Theorem lethal_step_awards_no_points :
  forall (cfg : GameConfig) (g : Game.t) (r : Rng) (now : Z)
         (moved : Snake.t) (c : CollisionDetector.Results),
    0 < board_columns cfg ->
    0 < board_rows cfg ->
    reachable cfg g ->
    Game.state g = PLAYING ->
    Snake.move (Game.snake g) = Some moved ->
    CollisionDetector.checkAllCollisions cfg moved (Game.food g) = Some c ->
    CollisionDetector.boundary_detected (CollisionDetector.boundary c) = true \/
    CollisionDetector.self_detected (CollisionDetector.self c) = true ->
    CollisionDetector.gameEnding c = true /\
    CollisionDetector.food_detected (CollisionDetector.food c) = false /\
    (exists h,
        Snake.getHead moved = Some h /\
        (utils.isValidPosition cfg h = false \/ In h (List.tl (Snake.body moved)))) /\
    exists g',
      Game.update cfg g r now = Some (g', r) /\
      Game.state g' = GAME_OVER /\
      Game.score g' = Game.score g /\
      Game.food g' = Game.food g /\
      Game.snake g' = moved.
Proof.
  intros cfg g r now moved c Hc Hr Hg Hs Hm Hcol Hlethal.
  assert (Hp : Game.paused g = false).
  { destruct (session_flags cfg g Hg) as [Hp _].
    destruct (Game.paused g); [|reflexivity].
    assert (H : Game.state g = PAUSED) by (apply Hp; reflexivity); congruence. }
  pose proof (checkAllCollisions_inv cfg moved (Game.food g) c Hcol)
    as (h & Hh & Hbd & Hself & _ & Hge).
  assert (Hend : CollisionDetector.gameEnding c = true).
  { rewrite Hge; destruct Hlethal as [-> | ->]; [reflexivity | apply orb_true_r]. }
  assert (Hd : CollisionDetector.food_detected (CollisionDetector.food c) = false).
  { destruct (CollisionDetector.food_detected (CollisionDetector.food c)) eqn:Ed;
      [|reflexivity].
    pose proof (lethal_step_is_never_on_food_in_a_session
                  cfg Hc Hr g moved c Hg Hm Hcol Ed) as Hno.
    congruence. }
  split; [exact Hend|]; split; [exact Hd|]; split.
  - exists h; split; [exact Hh|].
    destruct (utils.isValidPosition cfg h) eqn:Hv; [right | left; reflexivity].
    destruct (In_Position_dec h (List.tl (Snake.body moved))) as [Hin | Hout];
      [exact Hin | exfalso].
    destruct (checkAllCollisions_cells cfg moved (Game.food g) h Hh)
      as (c' & Hcol' & _ & Hsafe & _).
    rewrite Hcol in Hcol'; injection Hcol' as <-.
    rewrite (Hsafe Hv Hout) in Hend; discriminate Hend.
  - unfold Game.update; rewrite Hs, Hp, Hm; cbn [GameState_eqb negb orb].
    cbn [Game.with_snake Game.snake Game.food]; rewrite Hcol, Hd, Hend.
    eexists; split; [reflexivity|].
    destruct (gameOver_fields (Game.with_snake g moved) now)
      as (Hst & Hsc & Hsn & Hf & _).
    repeat split; assumption.
Qed.

Lemma lethal_step_awards_no_points_witness :
  exists g',
    Game.update gameConfig Sample.coiled Sample.half 900 = Some (g', Sample.half) /\
    Game.state g' = GAME_OVER /\
    Game.score g' = Game.score Sample.coiled /\
    Game.food g' = Game.food Sample.coiled.
Proof.
  assert (Hm : Snake.move (Game.snake Sample.coiled)
               = Some (Snake.mk [Sample.at_ 17 15; Sample.at_ 17 16; Sample.at_ 18 16;
                                 Sample.at_ 18 15; Sample.at_ 17 15] UP UP false 5))
    by (rewrite coiled_snake; reflexivity).
  assert (Hcol : CollisionDetector.checkAllCollisions
                   gameConfig
                   (Snake.mk [Sample.at_ 17 15; Sample.at_ 17 16; Sample.at_ 18 16;
                              Sample.at_ 18 15; Sample.at_ 17 15] UP UP false 5)
                   (Game.food Sample.coiled)
                 = Some (CollisionDetector.mkResults
                           (CollisionDetector.mkBoundary false (Sample.at_ 17 15) None)
                           (CollisionDetector.mkSelf true (Some (Sample.at_ 17 15)) 4)
                           (CollisionDetector.mkFood false (Some (Sample.at_ 17 15))
                                                     (Some (Sample.at_ 0 0)) Food.normal 0 None)
                           true true))
    by (rewrite coiled_food; reflexivity).
  destruct (lethal_step_awards_no_points
              gameConfig Sample.coiled Sample.half 900 _ _
              eq_refl eq_refl coiled_reachable (proj1 coiled_controller) Hm Hcol
              (or_intror eq_refl))
    as (_ & _ & _ & g' & Hu & Hst & Hsc & Hf & _).
  exists g'; repeat split; assumption.
Defined.

(** ** The speed effect across a tick *)









